(** * ecg-view: the streaming waveform renderer of [src/libs/WaveView.ts]

    A shallow embedding of the two classes of [WaveView.ts]:

    - [ViewModel], one waveform lane (the spec's "Channel Renderer"): a FIFO
      of sample batches, the batch being consumed, a cursor and its geometry;
    - [WaveView], the scheduler: the lanes, the interval timer handle, the
      time of the last arrival and the [recover] flag.

    Beside them: [drawGrid] and [setPaint], the background grid; [EcgView],
    the older single-lane view; and [BinaryHelper], the conversions between
    numbers, bytes, hexadecimal text and strings.

    Modelling choices.

    - A JavaScript [number] is a rational ([Q]): the arithmetic of the file
      is [+], [-], [*], [Math.floor], [Math.min] and comparisons, all exact
      on rationals.  [NaN] and the infinities are not represented, and the
      rounding of doubles is not: a statement about the value of a sum or a
      product is made for [exact] numbers, on which doubles do not round,
      and [Double] holds the two formulas of the lane on doubles
      themselves.
    - A batch is a list of samples in [ViewModel] and [WaveView].  The code
      holds it as an array object, which [drawView] consumes in place:
      [Shared] has the lane on a store of arrays, and shows that the two
      agree as long as the lane holds no array twice.  A statement that
      counts or orders the samples of several pushes is made there.
    - The 2D context is the chronological list of the calls made on it.  A
      [Surface] says which calls the host rejects by throwing.
    - A method is a function from the state it can touch to a [Completion]:
      it returns normally or throws, and in both cases the state holds the
      writes made so far, as in JavaScript.
    - [Date.now()] is the [now] argument of the two methods that read it. *)

From Stdlib Require Import ZArith QArith Qround Floats List Bool Ascii String Lia Lqa.
Import ListNotations.
Local Open Scope Q_scope.

Set Implicit Arguments.

(** ** Numbers *)

Definition number : Type := Q.

(** [if (n)] on a number: every number but zero is truthy. *)
Definition truthy (n : number) : bool := negb (Qeq_bool n 0).

(** [Math.floor] *)
Definition Math_floor (n : number) : number := inject_Z (Qfloor n).

(** [a < b] and [a >= b] on numbers *)
Definition ltb (a b : number) : bool := negb (Qle_bool b a).
Definition geb (a b : number) : bool := Qle_bool b a.

(** [Math.min] *)
Definition Math_min (a b : number) : number := if Qle_bool a b then a else b.

(** [a.length] as a number *)
Definition len {A : Type} (l : list A) : number := inject_Z (Z.of_nat (List.length l)).

(** [o ? o : d] for an optional numeric field: an omitted field is
    [undefined], which is falsy, and so is a supplied zero. *)
Definition orElse (o : option number) (d : number) : number :=
  match o with
  | Some v => if truthy v then v else d
  | None => d
  end.

(** *** Numbers as the code has them

    A JavaScript number is a double.  [Double] reads the two formulas of
    the lane on doubles, to show where they part from the rationals
    ([ViewModelFacts.plot_rounds_in_doubles]); [exact] names numbers on
    which they do not. *)

Module Double.

(** The value of a double as a rational; [None] for [NaN] and the
    infinities. *)
Definition value (f : float) : option Q :=
  match Prim2SF f with
  | S754_zero _ => Some 0
  | S754_finite s m e =>
      Some (inject_Z (if s then Z.neg m else Z.pos m) * Qpower 2 e)
  | _ => None
  end.


(** [Math.floor], as the whole number it returns. *)
Definition Math_floor (f : float) : option Z :=
  match value f with
  | Some v => Some (Qfloor v)
  | None => None
  end.

(** [calculateX()] and [calculateY(point)] of a lane with the fields
    given. *)
Definition calculateX (x step : float) : float := (x + step)%float.

Definition calculateY (baseLine median scaleRatio point : float) : option Z :=
  Math_floor (baseLine + (median - point) * scaleRatio + 0.5)%float.

End Double.

(** A number with at most eight binary places and below [2^16] in size.
    The sums, differences and products that [calculateX] and
    [calculateY] form of such numbers have at most sixteen binary places
    and stay below [2^34]: they fit the 53 bits of a double, so the code
    computes them without rounding, as the rationals do. *)
Definition exact (n : number) : Prop :=
  exists z : Z, n == inject_Z z / 256 /\ (Z.abs z < 2 ^ 24)%Z.


Definition exact_option (o : option number) : Prop :=
  match o with
  | Some v => exact v
  | None => True
  end.

(** A batch of samples; a queue of batches. *)
Definition batch : Type := list number.

(** ** The drawing surface *)

Inductive DrawCmd : Type :=
| ClearRect (x y w h : number)
| SetLineWidth (w : number)
| SetStrokeStyle (s : string)
| SetLineCap (s : string)
| SetLineJoin (s : string)
| BeginPath
| MoveTo (x y : number)
| LineTo (x y : number)
| Stroke.

(** The calls the context has accepted, oldest first. *)
Definition Canvas : Type := list DrawCmd.

(** [surface c = true]: the host throws on the call [c]. *)
Definition Surface : Type := DrawCmd -> bool.

(** A surface that accepts every call. *)
Definition healthy : Surface := fun _ => false.

Inductive JsError : Type :=
| SurfaceError (c : DrawCmd)
| UndefinedSample.

(** ** Completions and the method monad *)

Inductive Completion (S A : Type) : Type :=
| Normal (a : A) (s : S)
| Abrupt (e : JsError) (s : S).

Arguments Normal {S A} a s.
Arguments Abrupt {S A} e s.

Definition Js (S A : Type) : Type := S -> Completion S A.

Definition ret {S A : Type} (a : A) : Js S A := fun s => Normal a s.

Definition bind {S A B : Type} (c : Js S A) (k : A -> Js S B) : Js S B :=
  fun s =>
    match c s with
    | Normal a s' => k a s'
    | Abrupt e s' => Abrupt e s'
    end.

Definition throw {S A : Type} (e : JsError) : Js S A := fun s => Abrupt e s.

Definition get {S : Type} : Js S S := fun s => Normal s s.

Definition modify {S : Type} (f : S -> S) : Js S unit := fun s => Normal tt (f s).

(** The state a completion ends in, however it ends. *)
Definition final {S A : Type} (c : Completion S A) : S :=
  match c with
  | Normal _ s => s
  | Abrupt _ s => s
  end.

Definition returned {S A : Type} (c : Completion S A) : option A :=
  match c with
  | Normal a _ => Some a
  | Abrupt _ _ => None
  end.

Declare Scope js_scope.
Delimit Scope js_scope with js.
Notation "x <- c ;; k" := (bind c (fun x => k))
  (at level 61, c at next level, right associativity) : js_scope.
Notation "c ;; k" := (bind c (fun _ => k))
  (at level 61, right associativity) : js_scope.
Local Open Scope js_scope.

(** ** ViewModelOptions *)

Module ViewModelOptions.

Record t : Type := Build {
  width : number;
  height : number;
  clearView : option bool;
  median : number;
  drawCount : option number;
  baseLine : option number;
  step : option number;
  scaleRatio : option number;
  maxCacheSize : option number;
  startX : option number;
  startY : option number;
  padding : option number
}.

End ViewModelOptions.

(** ** ViewModel: one waveform lane *)

Module ViewModel.

Record t : Type := Build {
  waveQ : list batch;
  curPoints : option batch;
  width : number;
  height : number;
  clearView : bool;
  drawCount : number;
  median : number;
  baseLine : number;
  step : number;
  scaleRatio : number;
  maxCacheSize : number;
  startX : number;
  startY : number;
  x : number;
  y : number;
  padding : number
}.

Definition set_waveQ (q : list batch) (m : t) : t :=
  Build q (curPoints m) (width m) (height m) (clearView m) (drawCount m)
    (median m) (baseLine m) (step m) (scaleRatio m) (maxCacheSize m)
    (startX m) (startY m) (x m) (y m) (padding m).

Definition set_curPoints (p : option batch) (m : t) : t :=
  Build (waveQ m) p (width m) (height m) (clearView m) (drawCount m)
    (median m) (baseLine m) (step m) (scaleRatio m) (maxCacheSize m)
    (startX m) (startY m) (x m) (y m) (padding m).

Definition set_x (v : number) (m : t) : t :=
  Build (waveQ m) (curPoints m) (width m) (height m) (clearView m)
    (drawCount m) (median m) (baseLine m) (step m) (scaleRatio m)
    (maxCacheSize m) (startX m) (startY m) v (y m) (padding m).

Definition set_y (v : number) (m : t) : t :=
  Build (waveQ m) (curPoints m) (width m) (height m) (clearView m)
    (drawCount m) (median m) (baseLine m) (step m) (scaleRatio m)
    (maxCacheSize m) (startX m) (startY m) (x m) v (padding m).

(** [constructor(options)].  [drawCount] is declared required by the
    interface, but the constructor tests it like the optional fields, so it
    is optional here too. *)
Definition new (options : ViewModelOptions.t) : t :=
  let height := ViewModelOptions.height options in
  let baseLine :=
    Math_floor (orElse (ViewModelOptions.baseLine options) (height / 2)) in
  {| waveQ := [];
     curPoints := None;
     width := ViewModelOptions.width options;
     height := height;
     clearView :=
       match ViewModelOptions.clearView options with
       | Some b => if b then b else true
       | None => true
       end;
     drawCount := orElse (ViewModelOptions.drawCount options) 1;
     median := ViewModelOptions.median options;
     baseLine := baseLine;
     step := orElse (ViewModelOptions.step options) 1;
     maxCacheSize :=
       Math_floor (orElse (ViewModelOptions.maxCacheSize options) 0);
     startX := orElse (ViewModelOptions.startX options) 0;
     startY := orElse (ViewModelOptions.startY options) 0;
     padding := orElse (ViewModelOptions.padding options) 16;
     scaleRatio := orElse (ViewModelOptions.scaleRatio options) 1;
     x := -1;
     y := baseLine |}.

(** [push(points)]: [if (points)] is false for [null] and [undefined]
    ([None]) only; every array, the empty one too, is truthy.  The batch
    is kept by value here; [Shared.push] keeps the array itself. *)
Definition push (points : option batch) (m : t) : t :=
  match points with
  | Some b => set_waveQ (waveQ m ++ [b]) m
  | None => m
  end.

(** [calculateX()]; on doubles, [Double.calculateX]. *)
Definition calculateX (m : t) : number := x m + step m.

(** [calculateY(point)]; on doubles, [Double.calculateY]. *)
Definition calculateY (m : t) (point : number) : number :=
  Math_floor (baseLine m + (median m - point) * scaleRatio m + 0.5).

(** The methods that draw run on the lane and the context they are given. *)
Record Scene : Type := { this : t; ctx : Canvas }.

Definition M : Type -> Type := Js Scene.

Definition update (f : t -> t) : M unit :=
  modify (fun s => {| this := f (this s); ctx := ctx s |}).

Section OnSurface.

Variable surface : Surface.

(** One call on the context. *)
Definition call (c : DrawCmd) : M unit :=
  fun s =>
    if surface c then Abrupt (SurfaceError c) s
    else Normal tt {| this := this s; ctx := ctx s ++ [c] |}.

(** The body of the [for] loop of [drawView], for the sample [point]
    that [points.shift()] returned:
    [this.x = this.calculateX(); this.y = this.calculateY(point);
     ctx.lineTo(this.x, this.y)]. *)
Definition plot (point : number) : M unit :=
  update (fun m => set_x (calculateX m) m) ;;
  update (fun m => set_y (calculateY m point) m) ;;
  s <- get ;;
  call (LineTo (x (this s)) (y (this s))).

(** The [for (let i = 0; i < size; i++)] loop of [drawView].  [points] is
    the array [this.curPoints] itself (the only caller passes it), so
    each [points.shift()] is seen in [curPoints].  On an empty array
    [shift] returns [undefined], which is not a [number] here: that
    branch throws [UndefinedSample], and [size <= points.length] keeps
    the loop away from it ([drawView_throws_only_surface_errors]). *)
Fixpoint drawLoop (size : number) (i : Z) (points : batch) : M unit :=
  if ltb (inject_Z i) size then
    match points with
    | [] => throw UndefinedSample
    | point :: rest =>
        update (set_curPoints (Some rest)) ;;
        plot point ;;
        drawLoop size (i + 1) rest
    end
  else ret tt.

(** [drawView(ctx, points, render)] with [points = this.curPoints]. *)
Definition drawView (points : batch) (render : bool) : M unit :=
  m <- get ;;
  call (ClearRect (x (this m)) (startY (this m)) (padding (this m))
          (height (this m))) ;;
  call (SetLineWidth 1) ;;
  call (SetStrokeStyle "black") ;;
  call (SetLineCap "round") ;;
  call (SetLineJoin "round") ;;
  call BeginPath ;;
  call (MoveTo (x (this m)) (y (this m))) ;;
  drawLoop (Math_min (len points) (drawCount (this m))) 0 points ;;
  (if render then call Stroke else ret tt) ;;
  m <- get ;;
  if geb (x (this m)) (width (this m))
  then update (set_x (-1))
  else ret tt.

(** [this.curPoints && this.curPoints.length] *)
Definition hasPoints (m : t) : option batch :=
  match curPoints m with
  | Some (p :: ps) => Some (p :: ps)
  | _ => None
  end.

(** The [for (;;)] loop of [onDraw].  Its only back edge follows
    [this.waveQ.shift()], so the loop is written by recursion on the
    contents [q] of [this.waveQ]: [onDraw] passes the queue in, nothing but
    the shift writes it, and each shift is written back to the lane. *)
Fixpoint onDrawLoop (render : bool) (q : list batch) : M bool :=
  let next_turn : M bool :=
    match q with
    | [] => ret false
    | next :: rest =>
        update (set_waveQ rest) ;;
        update (set_curPoints (Some next)) ;;
        onDrawLoop render rest
    end in
  m <- get ;;
  match hasPoints (this m) with
  | Some points =>
      drawView points render ;;
      m <- get ;;
      if negb (truthy (maxCacheSize (this m)))
         || ltb (len (waveQ (this m))) (maxCacheSize (this m))
      then ret true
      else next_turn
  | None => next_turn
  end.

(** [onDraw(ctx, render)] *)
Definition onDraw (render : bool) : M bool :=
  m <- get ;;
  onDrawLoop render (waveQ (this m)).

(** [clear(ctx)] *)
Definition clear : M unit :=
  m <- get ;;
  (if clearView (this m)
   then call (ClearRect (startX (this m)) (startY (this m))
                (width (this m)) (height (this m)))
   else ret tt) ;;
  update (set_x (-1)) ;;
  m <- get ;;
  update (set_y (baseLine (this m))).

End OnSurface.

(** ** Measures and traces of a lane *)

(** The fields no method writes. *)
Definition config (m : t) :=
  (width m, height m, clearView m, drawCount m, median m, baseLine m,
   step m, scaleRatio m, maxCacheSize m, startX m, startY m, padding m).

Definition isLineTo (c : DrawCmd) : bool :=
  match c with
  | LineTo _ _ => true
  | _ => false
  end.

(** The number of samples plotted on a canvas: one [lineTo] each. *)
Definition drawn (c : Canvas) : nat := List.length (filter isLineTo c).
Arguments drawn : simpl never.

(** The samples a lane still holds: the rest of the batch being consumed
    and the batches queued behind it. *)
Definition remaining (m : t) : nat :=
  match curPoints m with
  | Some points => List.length points
  | None => 0
  end.

Definition queued (q : list batch) : nat :=
  list_sum (map (@List.length number) q).

Definition pending (m : t) : nat := (remaining m + queued (waveQ m))%nat.

(** What [waveQ.shift()] and the assignment to [curPoints] leave. *)
Definition shifted (next : batch) (rest : list batch) (s : Scene) : Scene :=
  {| this := set_curPoints (Some next) (set_waveQ rest (this s));
     ctx := ctx s |}.

(** What one tick establishes on a healthy surface. *)
Record TickSpec (s : Scene) (b : bool) (s' : Scene) : Prop := {
  tick_config : config (this s') = config (this s);
  tick_true :
    b = true ->
    truthy (maxCacheSize (this s)) = false \/
    len (waveQ (this s')) < maxCacheSize (this s);
  tick_false : b = false -> waveQ (this s') = [];
  tick_sound :
    (drawn (ctx s') + pending (this s') <= drawn (ctx s) + pending (this s))%nat;
  tick_mono : (drawn (ctx s) <= drawn (ctx s'))%nat;
  tick_exact :
    truthy (maxCacheSize (this s)) = false ->
    (drawn (ctx s') + pending (this s') = drawn (ctx s) + pending (this s))%nat /\
    (b = false -> pending (this s') = 0%nat) /\
    (b = true -> 0 < drawCount (this s) ->
     (pending (this s') < pending (this s))%nat)
}.

(** [push] of each batch of [bs] in turn. *)
Definition enqueue_all (bs : list batch) (m : t) : t :=
  fold_left (fun m' points => push (Some points) m') bs m.

(** Operations on one lane: a batch arrives, or the scheduler ticks. *)
Inductive LaneOp : Type :=
| Enqueue (points : batch)
| OneTick.

Definition laneStep (surface : Surface) (s : Scene) (op : LaneOp) : Scene :=
  match op with
  | Enqueue points => {| this := push (Some points) (this s); ctx := ctx s |}
  | OneTick => final (onDraw surface true s)
  end.

(** The samples a trace of operations pushed. *)
Definition pushed (ops : list LaneOp) : nat :=
  list_sum (map (fun op => match op with
                           | Enqueue points => List.length points
                           | OneTick => 0%nat
                           end) ops).

(** Tick until the lane reports no output; [None] when [fuel] ticks were
    not enough or a tick threw. *)
Fixpoint untilIdle (surface : Surface) (fuel : nat) (s : Scene)
  : option Scene :=
  match fuel with
  | O => None
  | S fuel' =>
      match onDraw surface true s with
      | Normal true s' => untilIdle surface fuel' s'
      | Normal false s' => Some s'
      | Abrupt _ _ => None
      end
  end.

Definition surface_error (e : JsError) : Prop := exists c, e = SurfaceError c.

(** ** More measures of a lane *)

(** The [y] of each [lineTo] on a canvas, oldest first. *)
Definition plotted (c : Canvas) : list number :=
  flat_map (fun cmd => match cmd with
                       | LineTo _ y => [y]
                       | _ => []
                       end) c.

(** The samples a lane holds, in the order [onDraw] would meet them: the
    rest of the batch in hand, then the queued batches. *)
Definition backlog (m : t) : list number :=
  match curPoints m with
  | Some points => points
  | None => []
  end ++ List.concat (waveQ m).

(** The cursor is at the sentinel or left of the right edge. *)
Definition in_sweep (m : t) : Prop := x m = -1 \/ x m < width m.

(** [y] is a whole number of pixels. *)
Definition whole (n : number) : Prop := exists z : Z, n = inject_Z z.

(** A lane with nothing to plot: no sample in hand, and only empty
    batches queued, if any. *)
Definition idle (m : t) : Prop :=
  hasPoints m = None /\ Forall (fun points : batch => points = []) (waveQ m).

(** [n] is [v] rounded down: the whole number with [n <= v < n + 1]. *)
Definition rounded_down (v n : number) : Prop :=
  whole n /\ n <= v /\ v < n + 1.

(** An optional numeric field that the constructor takes as given: it is
    supplied and not zero. *)
Definition given (o : option number) (v : number) : Prop :=
  o = Some v /\ ~ v == 0.

(** An optional numeric field for which the constructor takes the
    default: it is omitted, or zero. *)
Definition defaulted (o : option number) : Prop :=
  o = None \/ exists v : number, o = Some v /\ v == 0.

(** Calls of the public methods of a lane. *)
Inductive Call : Type :=
| CallPush (points : option batch)
| CallOnDraw (render : bool)
| CallClear.

(** The numbers of the options, and the samples of a call, are [exact]. *)
Definition exact_options (o : ViewModelOptions.t) : Prop :=
  exact (ViewModelOptions.width o) /\
  exact (ViewModelOptions.height o) /\
  exact (ViewModelOptions.median o) /\
  exact_option (ViewModelOptions.drawCount o) /\
  exact_option (ViewModelOptions.baseLine o) /\
  exact_option (ViewModelOptions.step o) /\
  exact_option (ViewModelOptions.scaleRatio o) /\
  exact_option (ViewModelOptions.maxCacheSize o) /\
  exact_option (ViewModelOptions.startX o) /\
  exact_option (ViewModelOptions.startY o) /\
  exact_option (ViewModelOptions.padding o).

Definition exact_call (c : Call) : Prop :=
  match c with
  | CallPush (Some points) => Forall exact points
  | _ => True
  end.

Definition perform (surface : Surface) (s : Scene) (c : Call) : Scene :=
  match c with
  | CallPush points => {| this := push points (this s); ctx := ctx s |}
  | CallOnDraw render => final (onDraw surface render s)
  | CallClear => final (clear surface s)
  end.

End ViewModel.

(** ** ViewModel on shared arrays

    [ViewModel] above holds its batches by value.  In the code a batch is
    an array object: [push] stores the caller's array itself, and
    [points.shift()] in [drawView] takes the sample out of that array,
    under every name it has.  [Shared] embeds the same methods with the
    batches held by reference into a store of arrays.  When the lane
    holds no array twice the two embeddings agree
    ([SharedFacts.onDraw_view]); when it does, a sample is plotted once
    however often its array was pushed
    ([SharedFacts.shared_array_is_consumed_once]). *)

Module Shared.

(** An array object is known by its reference; the store gives the
    contents of each. *)
Definition ref : Type := nat.

Definition Store : Type := ref -> batch.

Definition write (r : ref) (points : batch) (h : Store) : Store :=
  fun r' => if Nat.eqb r' r then points else h r'.

Record t : Type := Build {
  waveQ : list ref;
  curPoints : option ref;
  width : number;
  height : number;
  clearView : bool;
  drawCount : number;
  median : number;
  baseLine : number;
  step : number;
  scaleRatio : number;
  maxCacheSize : number;
  startX : number;
  startY : number;
  x : number;
  y : number;
  padding : number
}.

Definition set_waveQ (v0 : list ref) (m : t) : t :=
  Build v0 (curPoints m) (width m) (height m) (clearView m) (drawCount m)
    (median m) (baseLine m) (step m) (scaleRatio m) (maxCacheSize m)
    (startX m) (startY m) (x m) (y m) (padding m).

Definition set_curPoints (v0 : option ref) (m : t) : t :=
  Build (waveQ m) v0 (width m) (height m) (clearView m) (drawCount m)
    (median m) (baseLine m) (step m) (scaleRatio m) (maxCacheSize m)
    (startX m) (startY m) (x m) (y m) (padding m).

Definition set_x (v0 : number) (m : t) : t :=
  Build (waveQ m) (curPoints m) (width m) (height m) (clearView m)
    (drawCount m) (median m) (baseLine m) (step m) (scaleRatio m)
    (maxCacheSize m) (startX m) (startY m) v0 (y m) (padding m).

Definition set_y (v0 : number) (m : t) : t :=
  Build (waveQ m) (curPoints m) (width m) (height m) (clearView m)
    (drawCount m) (median m) (baseLine m) (step m) (scaleRatio m)
    (maxCacheSize m) (startX m) (startY m) (x m) v0 (padding m).

(** [constructor(options)]: it fills the numeric fields as
    [ViewModel.new] does and starts with no array. *)
Definition new (options : ViewModelOptions.t) : t :=
  let m := ViewModel.new options in
  Build [] None
    (ViewModel.width m)
    (ViewModel.height m)
    (ViewModel.clearView m)
    (ViewModel.drawCount m)
    (ViewModel.median m)
    (ViewModel.baseLine m)
    (ViewModel.step m)
    (ViewModel.scaleRatio m)
    (ViewModel.maxCacheSize m)
    (ViewModel.startX m)
    (ViewModel.startY m)
    (ViewModel.x m)
    (ViewModel.y m)
    (ViewModel.padding m).

(** [push(points)] *)
Definition push (points : option ref) (m : t) : t :=
  match points with
  | Some r => set_waveQ (waveQ m ++ [r]) m
  | None => m
  end.

(** [calculateX()] and [calculateY(point)] *)
Definition calculateX (m : t) : number := x m + step m.

Definition calculateY (m : t) (point : number) : number :=
  Math_floor (baseLine m + (median m - point) * scaleRatio m + 0.5).

(** The arrays, the lane and the context. *)
Record Scene : Type := { store : Store; this : t; ctx : Canvas }.

Definition M : Type -> Type := Js Scene.

Definition update (f : t -> t) : M unit :=
  modify (fun s => {| store := store s; this := f (this s); ctx := ctx s |}).

(** [points.shift()] on the array [r], which holds a sample followed by
    [rest]. *)
Definition shift (r : ref) (rest : batch) : M unit :=
  modify (fun s => {| store := write r rest (store s); this := this s;
                      ctx := ctx s |}).

Section OnSurface.

Variable surface : Surface.

Definition call (c : DrawCmd) : M unit :=
  fun s =>
    if surface c then Abrupt (SurfaceError c) s
    else Normal tt {| store := store s; this := this s; ctx := ctx s ++ [c] |}.

Definition plot (point : number) : M unit :=
  update (fun m => set_x (calculateX m) m) ;;
  update (fun m => set_y (calculateY m point) m) ;;
  s <- get ;;
  call (LineTo (x (this s)) (y (this s))).

(** The [for] loop of [drawView] on the array [r], whose contents are
    [points] when the loop is here; only this loop writes them. *)
Fixpoint drawLoop (size : number) (i : Z) (r : ref) (points : batch) : M unit :=
  if ltb (inject_Z i) size then
    match points with
    | [] => throw UndefinedSample
    | point :: rest =>
        shift r rest ;;
        plot point ;;
        drawLoop size (i + 1) r rest
    end
  else ret tt.

(** [drawView(ctx, points, render)] with [points] the array [r]. *)
Definition drawView (r : ref) (render : bool) : M unit :=
  m <- get ;;
  call (ClearRect (x (this m)) (startY (this m)) (padding (this m))
          (height (this m))) ;;
  call (SetLineWidth 1) ;;
  call (SetStrokeStyle "black") ;;
  call (SetLineCap "round") ;;
  call (SetLineJoin "round") ;;
  call BeginPath ;;
  call (MoveTo (x (this m)) (y (this m))) ;;
  drawLoop (Math_min (len (store m r)) (drawCount (this m))) 0 r (store m r) ;;
  (if render then call Stroke else ret tt) ;;
  m <- get ;;
  if geb (x (this m)) (width (this m))
  then update (set_x (-1))
  else ret tt.

(** [this.curPoints && this.curPoints.length] *)
Definition hasPoints (s : Scene) : option ref :=
  match curPoints (this s) with
  | Some r =>
      match store s r with
      | [] => None
      | _ :: _ => Some r
      end
  | None => None
  end.

(** The [for (;;)] loop of [onDraw], by recursion on the contents [q] of
    [this.waveQ]. *)
Fixpoint onDrawLoop (render : bool) (q : list ref) : M bool :=
  let next_turn : M bool :=
    match q with
    | [] => ret false
    | next :: rest =>
        update (set_waveQ rest) ;;
        update (set_curPoints (Some next)) ;;
        onDrawLoop render rest
    end in
  m <- get ;;
  match hasPoints m with
  | Some r =>
      drawView r render ;;
      m <- get ;;
      if negb (truthy (maxCacheSize (this m)))
         || ltb (len (waveQ (this m))) (maxCacheSize (this m))
      then ret true
      else next_turn
  | None => next_turn
  end.

(** [onDraw(ctx, render)] *)
Definition onDraw (render : bool) : M bool :=
  m <- get ;;
  onDrawLoop render (waveQ (this m)).

End OnSurface.

(** *** Measures, traces and the view by value *)

(** The arrays the lane holds: the one in hand, then the queued ones. *)
Definition held (m : t) : list ref :=
  match curPoints m with
  | Some r => [r]
  | None => []
  end ++ waveQ m.

(** The samples the lane can still reach, counted with the array they
    are in each time the lane holds it. *)
Definition pending (s : Scene) : nat :=
  list_sum (map (fun r => List.length (store s r)) (held (this s))).

(** The same samples, in the order [onDraw] would meet them. *)
Definition backlog (s : Scene) : list number :=
  List.concat (map (store s) (held (this s))).

Inductive LaneOp : Type :=
| Enqueue (points : ref)
| OneTick.

Definition laneStep (surface : Surface) (s : Scene) (op : LaneOp) : Scene :=
  match op with
  | Enqueue r =>
      {| store := store s; this := push (Some r) (this s); ctx := ctx s |}
  | OneTick => final (onDraw surface true s)
  end.

(** The arrays a trace hands over, in order. *)
Definition enqueued (ops : list LaneOp) : list ref :=
  flat_map (fun op => match op with
                      | Enqueue r => [r]
                      | OneTick => []
                      end) ops.

(** The samples a trace pushes, each array counted as the store [h] has
    it. *)
Definition pushed (h : Store) (ops : list LaneOp) : nat :=
  list_sum (map (fun r => List.length (h r)) (enqueued ops)).

Fixpoint untilIdle (surface : Surface) (fuel : nat) (s : Scene)
  : option Scene :=
  match fuel with
  | O => None
  | S fuel' =>
      match onDraw surface true s with
      | Normal true s' => untilIdle surface fuel' s'
      | Normal false s' => Some s'
      | Abrupt _ _ => None
      end
  end.

(** The lane by value: every reference replaced by the contents of its
    array. *)
Definition contents (h : Store) (m : t) : ViewModel.t :=
  ViewModel.Build (map h (waveQ m)) (option_map h (curPoints m))
    (width m)
    (height m)
    (clearView m)
    (drawCount m)
    (median m)
    (baseLine m)
    (step m)
    (scaleRatio m)
    (maxCacheSize m)
    (startX m)
    (startY m)
    (x m)
    (y m)
    (padding m).

Definition view (s : Scene) : ViewModel.Scene :=
  {| ViewModel.this := contents (store s) (this s); ViewModel.ctx := ctx s |}.

Definition lift {A : Type} (c : Completion Scene A)
  : Completion ViewModel.Scene A :=
  match c with
  | Normal a s => Normal a (view s)
  | Abrupt e s => Abrupt e (view s)
  end.

Definition byValue (h : Store) (op : LaneOp) : ViewModel.LaneOp :=
  match op with
  | Enqueue r => ViewModel.Enqueue (h r)
  | OneTick => ViewModel.OneTick
  end.

(** What a method that works on the array [r] leaves alone: the lane's
    references and every other array. *)
Definition frame (r : ref) (s s' : Scene) : Prop :=
  waveQ (this s') = waveQ (this s) /\
  curPoints (this s') = curPoints (this s) /\
  forall r' : ref, r' <> r -> store s' r' = store s r'.

(** What a tick leaves alone: the arrays the lane did not hold; and the
    arrays it holds afterwards are the last of those it held. *)
Definition kept (s s' : Scene) : Prop :=
  (exists dropped : list ref,
     held (this s) = dropped ++ held (this s')) /\
  forall r' : ref, ~ In r' (held (this s)) -> store s' r' = store s r'.

End Shared.

(** ** WaveView: the scheduler *)

Module WaveView.

(** The object's fields, and the part of the host it talks to: the calls
    accepted by the canvas context ([ctx]), the lines written by
    [console.error], and the next handle [setInterval] will return.
    Interval handles are positive integers, so a handle is always truthy:
    [this.timer == null], [!this.timer] and [if (this.timer)] all ask
    whether [timer] is [None].  Times are in milliseconds. *)
Record t : Type := Build {
  ctx : Canvas;
  timer : option positive;
  interval : number;
  rcvTime : Z;
  models : list ViewModel.t;
  clear : bool;
  recover : bool;
  console : list JsError;
  nextHandle : positive
}.

Definition set_ctx (c : Canvas) (w : t) : t :=
  Build c (timer w) (interval w) (rcvTime w) (models w) (clear w)
    (recover w) (console w) (nextHandle w).

Definition set_timer (h : option positive) (w : t) : t :=
  Build (ctx w) h (interval w) (rcvTime w) (models w) (clear w)
    (recover w) (console w) (nextHandle w).

Definition set_rcvTime (n : Z) (w : t) : t :=
  Build (ctx w) (timer w) (interval w) n (models w) (clear w)
    (recover w) (console w) (nextHandle w).

Definition set_models (ms : list ViewModel.t) (w : t) : t :=
  Build (ctx w) (timer w) (interval w) (rcvTime w) ms (clear w)
    (recover w) (console w) (nextHandle w).

Definition set_clear (b : bool) (w : t) : t :=
  Build (ctx w) (timer w) (interval w) (rcvTime w) (models w) b
    (recover w) (console w) (nextHandle w).

Definition set_recover (b : bool) (w : t) : t :=
  Build (ctx w) (timer w) (interval w) (rcvTime w) (models w) (clear w)
    b (console w) (nextHandle w).

Definition set_console (l : list JsError) (w : t) : t :=
  Build (ctx w) (timer w) (interval w) (rcvTime w) (models w) (clear w)
    (recover w) l (nextHandle w).

Definition set_nextHandle (h : positive) (w : t) : t :=
  Build (ctx w) (timer w) (interval w) (rcvTime w) (models w) (clear w)
    (recover w) (console w) h.

(** [new WaveView(c, init, interval)] where [init.onInit] installs the
    lanes [lanes]; [timer] starts [undefined]. *)
Definition new (lanes : list ViewModel.t) (interval : number) : t :=
  {| ctx := [];
     timer := None;
     interval := interval;
     rcvTime := 0%Z;
     models := lanes;
     clear := false;
     recover := true;
     console := [];
     nextHandle := 1%positive |}.

(** [startTimer(recover)] *)
Definition startTimer (recover : bool) : Js t unit :=
  w <- get ;;
  match timer w with
  | None =>
      modify (set_timer (Some (nextHandle w))) ;;
      modify (set_nextHandle (Pos.succ (nextHandle w))) ;;
      modify (set_recover recover)
  | Some _ => ret tt
  end.

(** [stopTimer(recover)] *)
Definition stopTimer (recover : bool) : Js t unit :=
  w <- get ;;
  match timer w with
  | Some _ =>
      modify (set_timer None) ;;
      modify (set_recover recover)
  | None => ret tt
  end.

(** [start()], [pause()], [stop()] *)
Definition start : Js t unit := startTimer true.
Definition pause : Js t unit := stopTimer true.
Definition stop : Js t unit := stopTimer false.

(** The loop of [push]: [this.models[i].push(waves[i])] for
    [i < Math.min(this.models.length, waves.length)].  A hole of [waves]
    reads as [undefined] ([None]). *)
Fixpoint pushEach (ms : list ViewModel.t) (waves : list (option batch))
  : list ViewModel.t :=
  match ms, waves with
  | m :: ms', points :: waves' =>
      ViewModel.push points m :: pushEach ms' waves'
  | _, _ => ms
  end.

(** [push(waves)] at time [now]; [waves && waves.length] holds of a
    non-empty array only. *)
Definition push (now : Z) (waves : option (list (option batch))) : Js t unit :=
  match waves with
  | Some (points :: waves') =>
      modify (set_rcvTime now) ;;
      modify (fun w => set_models (pushEach (models w) (points :: waves')) w) ;;
      w <- get ;;
      match timer w with
      | None => if recover w then startTimer true else ret tt
      | Some _ => ret tt
      end
  | _ => ret tt
  end.

Section OnSurface.

Variable surface : Surface.

(** [for (const m of this.models) { ... m.method(this.ctx) ... }]: the
    lane method [body] runs on each lane in turn with the shared
    context; [acc] is the loop's local variable, folded with [upd].
    When a lane throws, the lanes after it are left as they were. *)
Fixpoint forEachModel {A B : Type} (body : ViewModel.M A)
  (upd : A -> B -> B) (ms : list ViewModel.t) (acc : B) (c : Canvas)
  : Completion (list ViewModel.t * Canvas) B :=
  match ms with
  | [] => Normal acc ([], c)
  | m :: rest =>
      match body {| ViewModel.this := m; ViewModel.ctx := c |} with
      | Abrupt e s => Abrupt e (ViewModel.this s :: rest, ViewModel.ctx s)
      | Normal a s =>
          match forEachModel body upd rest (upd a acc) (ViewModel.ctx s) with
          | Normal b (rest', c') => Normal b (ViewModel.this s :: rest', c')
          | Abrupt e (rest', c') => Abrupt e (ViewModel.this s :: rest', c')
          end
      end
  end.

(** Store what a loop over the lanes left behind. *)
Definition overModels {B : Type}
  (loop : list ViewModel.t -> Canvas -> Completion (list ViewModel.t * Canvas) B)
  : Js t B :=
  fun w =>
    match loop (models w) (ctx w) with
    | Normal b (ms, c) => Normal b (set_ctx c (set_models ms w))
    | Abrupt e (ms, c) => Abrupt e (set_ctx c (set_models ms w))
    end.

(** [try { m.clear(ctx) } catch (err) { ... }]: the error, if any. *)
Definition attempt {S A : Type} (c : Js S A) : Js S (option JsError) :=
  fun s =>
    match c s with
    | Normal _ s' => Normal None s'
    | Abrupt e s' => Normal (Some e) s'
    end.

(** [console.error(err)] for a caught error. *)
Definition report (caught : option JsError) (log : list JsError)
  : list JsError :=
  match caught with
  | Some e => log ++ [e]
  | None => log
  end.

(** [onDrawBackground(ctx)]: the body is a comment. *)
Definition onDrawBackground : Js t unit := ret tt.

(** [try { ... } finally { this.clear = true; }] *)
Definition finally {A : Type} (c : Js t A) (f : t -> t) : Js t A :=
  fun w =>
    match c w with
    | Normal a w' => Normal a (f w')
    | Abrupt e w' => Abrupt e (f w')
    end.

(** [this.models[0].method(this.ctx)] when [this.models] is [[m]]. *)
Definition onOnlyModel {A : Type} (m : ViewModel.t) (body : ViewModel.M A)
  : Js t A :=
  fun w =>
    match body {| ViewModel.this := m; ViewModel.ctx := ctx w |} with
    | Normal a s =>
        Normal a (set_ctx (ViewModel.ctx s) (set_models [ViewModel.this s] w))
    | Abrupt e s =>
        Abrupt e (set_ctx (ViewModel.ctx s) (set_models [ViewModel.this s] w))
    end.

(** [clearView()] *)
Definition clearView : Js t unit :=
  finally
    (onDrawBackground ;;
     w <- get ;;
     match models w with
     | [m] => onOnlyModel m (ViewModel.clear surface)
     | _ =>
         log <- overModels
                  (fun ms c => forEachModel
                                 (attempt (ViewModel.clear surface))
                                 report ms (console w) c) ;;
         modify (set_console log)
     end)
    (set_clear true).

(** The first half of [draw()]: every lane's [onDraw], or-ed into
    [drawFlag]. *)
Definition drawModels : Js t bool :=
  w <- get ;;
  match models w with
  | [m] =>
      r <- onOnlyModel m (ViewModel.onDraw surface true) ;;
      ret (r || false)
  | _ =>
      overModels
        (fun ms c => forEachModel (ViewModel.onDraw surface true)
                       orb ms false c)
  end.

(** [draw()] at time [now] *)
Definition draw (now : Z) : Js t unit :=
  drawFlag <- drawModels ;;
  if negb drawFlag then
    w <- get ;;
    if (2000 <=? now - rcvTime w)%Z
    then clearView ;; pause
    else ret tt
  else ret tt.

(** What the host and the caller can do to a view.  [Tick] is the
    interval firing: it calls [draw] while the handle is live and does
    nothing once [clearInterval] has cancelled it.  [Draw] is a direct
    call of the public method.  An exception leaves the view as the
    throwing method left it. *)
Inductive Event : Type :=
| Push (now : Z) (waves : option (list (option batch)))
| Start
| Pause
| Stop
| Tick (now : Z)
| Draw (now : Z).

Definition handle (e : Event) : Js t unit :=
  match e with
  | Push now waves => push now waves
  | Start => start
  | Pause => pause
  | Stop => stop
  | Tick now =>
      w <- get ;;
      match timer w with
      | Some _ => draw now
      | None => ret tt
      end
  | Draw now => draw now
  end.

Definition step (w : t) (e : Event) : t := final (handle e w).

Definition run (events : list Event) (w : t) : t :=
  fold_left step events w.

End OnSurface.

(** ** Invariants and observations of a view *)

(** The scheduler's own fields, which no pass over the lanes writes. *)
Definition sched (w : t) := (timer w, recover w, rcvTime w, nextHandle w, interval w).

(** [timer] set means Running, [timer] unset means Stopped. *)
Definition running (w : t) : bool :=
  match timer w with
  | Some _ => true
  | None => false
  end.

(** What a method may do to the timer: leave it and [recover] alone, or
    stop it through [pause]. *)
Definition paused_or_same (w w' : t) : Prop :=
  (timer w' = timer w /\ recover w' = recover w) \/
  (timer w' = None /\
   recover w' = match timer w with Some _ => true | None => recover w end).

(** Whenever the interval is live, [recover] is set. *)
Definition running_implies_recover (w : t) : Prop :=
  timer w <> None -> recover w = true.

(** Stopped for good: no interval and no leave to resume. *)
Definition halted (w : t) : Prop := timer w = None /\ recover w = false.

(** The rectangle of a lane, and the lane after [clear]. *)
Definition rect (m : ViewModel.t) : DrawCmd :=
  ClearRect (ViewModel.startX m) (ViewModel.startY m)
    (ViewModel.width m) (ViewModel.height m).

Definition cleared (m : ViewModel.t) : ViewModel.t :=
  ViewModel.set_y (ViewModel.baseLine m) (ViewModel.set_x (-1) m).

Definition same_config (m m' : ViewModel.t) : Prop :=
  ViewModel.config m' = ViewModel.config m.

(** ** More observations of a view *)

(** Lane [m'] is lane [m] with the batches [bs] added at the back of its
    queue and nothing else changed. *)
Definition enqueued_on (bs : list batch) (m m' : ViewModel.t) : Prop :=
  ViewModel.waveQ m' = ViewModel.waveQ m ++ bs /\
  ViewModel.curPoints m' = ViewModel.curPoints m /\
  ViewModel.x m' = ViewModel.x m /\
  ViewModel.y m' = ViewModel.y m /\
  ViewModel.config m' = ViewModel.config m.

(** What [waves] holds for lane [i]: the batch [waves[i]], or nothing when
    the index is out of range or the entry is [null] or a hole. *)
Definition arrival (waves : list (option batch)) (i : nat) : list batch :=
  match nth_error waves i with
  | Some (Some points) => [points]
  | _ => []
  end.

(** The lanes [ms'] are the lanes [ms], one for one, each with its own
    arrival of [waves] at the back of its queue. *)
Definition routed (waves : list (option batch)) (ms ms' : list ViewModel.t)
  : Prop :=
  List.length ms' = List.length ms /\
  forall (i : nat) (m : ViewModel.t),
    nth_error ms i = Some m ->
    exists m' : ViewModel.t,
      nth_error ms' i = Some m' /\ enqueued_on (arrival waves i) m m'.

(** Whether [clear] of the lane [m] makes a call that [surface] rejects. *)
Definition rejected (surface : Surface) (m : ViewModel.t) : bool :=
  ViewModel.clearView m && surface (rect m).

(** The two fields [clearView] writes beside the lanes and the context. *)
Definition flags (w : t) := (clear w, console w).

End WaveView.

(** ** Lanes and surfaces used in the examples

    The fields of [ViewModelOptions.Build] are, in order: [width], [height],
    [clearView], [median], [drawCount], [baseLine], [step], [scaleRatio],
    [maxCacheSize], [startX], [startY], [padding]. *)

Module Scenario.

(** A lane with no data, as the scenario of C3 has it. *)
Definition idle_lane : ViewModel.t :=
  ViewModel.new (ViewModelOptions.Build 300 200 None 512 (Some 8) None None
                   None None None None None).


(** A second idle lane, below the first. *)
Definition lower_idle_lane : ViewModel.t :=
  ViewModel.new (ViewModelOptions.Build 300 100 None 128 (Some 2) None None
                   None None None (Some 200) None).

(** A surface 150 pixels tall whose [clearRect] throws on a rectangle
    taller than itself, and two lanes that each hold one batch: the first
    is 200 pixels tall, the second 100. *)
Definition short_surface : Surface :=
  fun c =>
    match c with
    | ClearRect _ _ _ h => ltb 150 h
    | _ => false
    end.

Definition tall_lane : ViewModel.t :=
  ViewModel.push (Some [512; 520])
    (ViewModel.new (ViewModelOptions.Build 300 200 None 512 (Some 8) None
                      None None None None None None)).

Definition low_lane : ViewModel.t :=
  ViewModel.push (Some [512; 520])
    (ViewModel.new (ViewModelOptions.Build 300 100 None 512 (Some 8) None
                      None None None None None None)).

(** A lane with catch-up at two batches, one without catch-up, and three
    non-empty batches. *)
Definition catch_up_lane : ViewModel.t :=
  ViewModel.new (ViewModelOptions.Build 300 200 None 512 (Some 1) None None
                   None (Some 2) None None None).

Definition plain_lane : ViewModel.t :=
  ViewModel.new (ViewModelOptions.Build 300 200 None 512 (Some 2) None None
                   None None None None None).

Definition three_batches : list batch := [[1; 2]; [3]; [4; 5]].

(** The same on shared arrays: a store with the arrays [[1, 2, 3]] and
    [[4]] under the references 0 and 1 and the three batches above under
    2, 3 and 4; a lane without catch-up and one with catch-up at one
    batch. *)
Definition arrays : Shared.Store :=
  fun r =>
    match r with
    | 0%nat => [1; 2; 3]
    | 1%nat => [4]
    | 2%nat => [1; 2]
    | 3%nat => [3]
    | 4%nat => [4; 5]
    | _ => []
    end.

Definition shared_plain : Shared.Scene :=
  {| Shared.store := arrays;
     Shared.this :=
       Shared.new (ViewModelOptions.Build 300 200 None 512 (Some 2) None None
                     None None None None None);
     Shared.ctx := [] |}.

Definition shared_catch_up : Shared.Scene :=
  {| Shared.store := arrays;
     Shared.this :=
       Shared.new (ViewModelOptions.Build 300 200 None 512 (Some 1) None None
                     None (Some 1) None None None);
     Shared.ctx := [] |}.

Definition shared_trace : list Shared.LaneOp :=
  [Shared.Enqueue 0%nat; Shared.OneTick; Shared.Enqueue 1%nat].

(** A push, a tick and a push on one lane. *)
Definition lane_trace : list ViewModel.LaneOp :=
  [ViewModel.Enqueue [1; 2; 3]; ViewModel.OneTick; ViewModel.Enqueue [4]].

(** A running view with one lane, and what may follow a [stop()]. *)
Definition running_view : WaveView.t :=
  final (WaveView.start (WaveView.new [idle_lane] 40)).

Definition after_stop : list WaveView.Event :=
  [WaveView.Push 10 (Some [Some [1; 2]]); WaveView.Tick 50; WaveView.Pause;
   WaveView.Draw 3000; WaveView.Stop].

Definition push_stop_start : list WaveView.Event :=
  [WaveView.Push 5 (Some [Some [1]]); WaveView.Stop; WaveView.Start].

End Scenario.

(** ** drawGrid and setPaint: the background grid *)

Module Grid.

Section OnSurface.

Variable surface : Surface.

(** One call on the grid's own context. *)
Definition call (c : DrawCmd) : Js Canvas unit :=
  fun log => if surface c then Abrupt (SurfaceError c) log
             else Normal tt (log ++ [c]).





End OnSurface.





End Grid.

(** ** EcgView: the single-lane view

    The older view keeps its one lane in the view itself.  The canvas is
    its size, which the view only reads, and the calls its context has
    accepted. *)

Module EcgView.

Record t : Type := Build {
  width : number;
  height : number;
  ctx : Canvas;
  timer : option positive;
  queue : list batch;
  rcvTime : Z;
  maxCacheSize : number;
  curPoints : option batch;
  baseLine : number;
  step : number;
  median : number;
  scaleRatio : number;
  x : number;
  y : number;
  clearScreen : bool;
  recover : bool;
  nextHandle : positive
}.

Definition set_ctx (v0 : Canvas) (v : t) : t :=
  Build (width v) (height v) v0 (timer v) (queue v) (rcvTime v)
    (maxCacheSize v) (curPoints v) (baseLine v) (step v) (median v)
    (scaleRatio v) (x v) (y v) (clearScreen v) (recover v) (nextHandle v).

Definition set_timer (v0 : option positive) (v : t) : t :=
  Build (width v) (height v) (ctx v) v0 (queue v) (rcvTime v)
    (maxCacheSize v) (curPoints v) (baseLine v) (step v) (median v)
    (scaleRatio v) (x v) (y v) (clearScreen v) (recover v) (nextHandle v).

Definition set_queue (v0 : list batch) (v : t) : t :=
  Build (width v) (height v) (ctx v) (timer v) v0 (rcvTime v)
    (maxCacheSize v) (curPoints v) (baseLine v) (step v) (median v)
    (scaleRatio v) (x v) (y v) (clearScreen v) (recover v) (nextHandle v).

Definition set_rcvTime (v0 : Z) (v : t) : t :=
  Build (width v) (height v) (ctx v) (timer v) (queue v) v0 (maxCacheSize v)
    (curPoints v) (baseLine v) (step v) (median v) (scaleRatio v) (x v)
    (y v) (clearScreen v) (recover v) (nextHandle v).

Definition set_curPoints (v0 : option batch) (v : t) : t :=
  Build (width v) (height v) (ctx v) (timer v) (queue v) (rcvTime v)
    (maxCacheSize v) v0 (baseLine v) (step v) (median v) (scaleRatio v)
    (x v) (y v) (clearScreen v) (recover v) (nextHandle v).

Definition set_x (v0 : number) (v : t) : t :=
  Build (width v) (height v) (ctx v) (timer v) (queue v) (rcvTime v)
    (maxCacheSize v) (curPoints v) (baseLine v) (step v) (median v)
    (scaleRatio v) v0 (y v) (clearScreen v) (recover v) (nextHandle v).

Definition set_y (v0 : number) (v : t) : t :=
  Build (width v) (height v) (ctx v) (timer v) (queue v) (rcvTime v)
    (maxCacheSize v) (curPoints v) (baseLine v) (step v) (median v)
    (scaleRatio v) (x v) v0 (clearScreen v) (recover v) (nextHandle v).

Definition set_clearScreen (v0 : bool) (v : t) : t :=
  Build (width v) (height v) (ctx v) (timer v) (queue v) (rcvTime v)
    (maxCacheSize v) (curPoints v) (baseLine v) (step v) (median v)
    (scaleRatio v) (x v) (y v) v0 (recover v) (nextHandle v).

Definition set_recover (v0 : bool) (v : t) : t :=
  Build (width v) (height v) (ctx v) (timer v) (queue v) (rcvTime v)
    (maxCacheSize v) (curPoints v) (baseLine v) (step v) (median v)
    (scaleRatio v) (x v) (y v) (clearScreen v) v0 (nextHandle v).

Definition set_nextHandle (v0 : positive) (v : t) : t :=
  Build (width v) (height v) (ctx v) (timer v) (queue v) (rcvTime v)
    (maxCacheSize v) (curPoints v) (baseLine v) (step v) (median v)
    (scaleRatio v) (x v) (y v) (clearScreen v) (recover v) v0.

(** [startTimer(recover)] and [stopTimer(recover)] *)
Definition startTimer (recover : bool) : Js t unit :=
  v <- get ;;
  match timer v with
  | None =>
      modify (set_timer (Some (nextHandle v))) ;;
      modify (set_nextHandle (Pos.succ (nextHandle v))) ;;
      modify (set_recover recover)
  | Some _ => ret tt
  end.

Definition stopTimer (recover : bool) : Js t unit :=
  v <- get ;;
  match timer v with
  | Some _ =>
      modify (set_timer None) ;;
      modify (set_recover recover)
  | None => ret tt
  end.

(** [start()], [pause()], [stop()] *)
Definition start : Js t unit := startTimer true.
Definition pause : Js t unit := stopTimer true.
Definition stop : Js t unit := stopTimer false.

(** [push(points)] at time [now] *)
Definition push (now : Z) (points : batch) : Js t unit :=
  modify (fun v => set_queue (queue v ++ [points]) v) ;;
  modify (set_rcvTime now) ;;
  v <- get ;;
  match timer v with
  | None => if recover v then startTimer true else ret tt
  | Some _ => ret tt
  end.

(** [calculateY(point)] *)
Definition calculateY (v : t) (point : number) : number :=
  baseLine v + (median v - point) * scaleRatio v.

(** [this.curPoints && this.curPoints.length] *)
Definition hasPoints (v : t) : option batch :=
  match curPoints v with
  | Some (p :: ps) => Some (p :: ps)
  | _ => None
  end.

Section OnSurface.

Variable surface : Surface.

(** One call on [this.ctx]. *)
Definition call (c : DrawCmd) : Js t unit :=
  fun v =>
    if surface c then Abrupt (SurfaceError c) v
    else Normal tt (set_ctx (ctx v ++ [c]) v).

(** [drawBackgroundGrid()]: the body is a comment. *)
Definition drawBackgroundGrid : Js t unit := ret tt.

(** [clearView()] *)
Definition clearView : Js t unit :=
  v <- get ;;
  call (ClearRect 0 0 (width v) (height v)) ;;
  modify (set_x (-1)) ;;
  v <- get ;;
  modify (set_y (baseLine v)) ;;
  drawBackgroundGrid ;;
  modify (set_clearScreen true).

(** The [for] loop of [drawView]; [points] is [this.curPoints] itself,
    as in [ViewModel.drawLoop]. *)
Fixpoint drawLoop (size : number) (i : Z) (points : batch) : Js t unit :=
  if ltb (inject_Z i) size then
    match points with
    | [] => throw UndefinedSample
    | point :: rest =>
        modify (fun v => set_x (x v + step v) v) ;;
        modify (set_curPoints (Some rest)) ;;
        modify (fun v => set_y (calculateY v point + 0.5) v) ;;
        v <- get ;;
        call (LineTo (x v) (y v)) ;;
        drawLoop size (i + 1) rest
    end
  else ret tt.

(** [drawView(points)] with [points = this.curPoints]. *)
Definition drawView (points : batch) : Js t unit :=
  drawBackgroundGrid ;;
  v <- get ;;
  call (ClearRect (x v) 0 16 (height v)) ;;
  call (SetLineWidth 1) ;;
  call (SetStrokeStyle "black") ;;
  call (SetLineCap "round") ;;
  call (SetLineJoin "round") ;;
  call BeginPath ;;
  call (MoveTo (x v) (y v)) ;;
  drawLoop (Math_min (len points) 8) 0 points ;;
  call Stroke ;;
  v <- get ;;
  if geb (x v) (width v)
  then modify (set_x (-1))
  else ret tt.

(** The [for (;;)] loop of [drawNow] at time [now], by recursion on the
    contents [q] of [this.queue], as in [ViewModel.onDrawLoop]. *)
Fixpoint drawNowLoop (now : Z) (q : list batch) : Js t unit :=
  let next_turn : Js t unit :=
    match q with
    | [] =>
        v <- get ;;
        if clearScreen v then ret tt
        else if (2000 <=? now - rcvTime v)%Z
             then clearView ;; pause
             else ret tt
    | next :: rest =>
        modify (set_queue rest) ;;
        modify (set_curPoints (Some next)) ;;
        drawNowLoop now rest
    end in
  v <- get ;;
  match hasPoints v with
  | Some points =>
      drawView points ;;
      modify (set_clearScreen false) ;;
      v <- get ;;
      if negb (truthy (maxCacheSize v))
         || ltb (len (queue v)) (maxCacheSize v)
      then ret tt
      else next_turn
  | None => next_turn
  end.

(** [drawNow()] *)
Definition drawNow (now : Z) : Js t unit :=
  v <- get ;;
  drawNowLoop now (queue v).

(** [new EcgView(c)] for a canvas [width] by [height]: the field
    initialisers, the assignments of the constructor, then
    [this.clearView()]. *)
Definition new (width height : number) : Completion t unit :=
  clearView
    {| width := width;
       height := height;
       ctx := [];
       timer := None;
       queue := [];
       rcvTime := 0%Z;
       maxCacheSize := 0;
       curPoints := None;
       baseLine := height / 2;
       step := 0.5;
       median := 512;
       scaleRatio := 0.6;
       x := -1;
       y := height / 2;
       clearScreen := false;
       recover := true;
       nextHandle := 1%positive |}.

(** The interval firing at each of the times [ticks], while its handle
    is live. *)
Definition tick (v : t) (now : Z) : t :=
  match timer v with
  | Some _ => final (drawNow now v)
  | None => v
  end.

Definition ticks (times : list Z) (v : t) : t := fold_left tick times v.

End OnSurface.

(** The view holds no sample. *)
Definition empty (v : t) : Prop := queue v = [] /\ hasPoints v = None.

End EcgView.

(** ** BinaryHelper: numbers to bytes and back

    The arguments are whole numbers ([Z]).  The bit operators of
    JavaScript work on 32-bit integers: an operand goes through [ToInt32]
    (reduction modulo [2^32] into [[-2^31, 2^31)]) and a shift count is
    taken modulo 32. *)

Module BinaryHelper.

Local Open Scope Z_scope.

Definition ToInt32 (z : Z) : Z := (z + 2 ^ 31) mod 2 ^ 32 - 2 ^ 31.

(** [a >> k] *)
Definition shr (a k : Z) : Z := Z.shiftr (ToInt32 a) (k mod 32).

(** [a << k] *)
Definition shl (a k : Z) : Z := ToInt32 (Z.shiftl (ToInt32 a) (k mod 32)).

(** [a & b], [a | b], [~a] *)
Definition and (a b : Z) : Z := Z.land (ToInt32 a) (ToInt32 b).
Definition or (a b : Z) : Z := Z.lor (ToInt32 a) (ToInt32 b).
Definition not (a : Z) : Z := Z.lnot (ToInt32 a).

(** The loop of [numberToBytes]: [for (let i = 0; i < size; i += 1)], as
    the [count] turns left from index [i]. *)
Fixpoint numberToBytesFrom (num bit : Z) (bigEndian : bool) (count : nat)
  (i : Z) : list Z :=
  match count with
  | O => []
  | S count' =>
      and (if bigEndian then shr num ((bit - 8) - i * 8) else shr num (i * 8))
        255
      :: numberToBytesFrom num bit bigEndian count' (i + 1)
  end.

(** [numberToBytes(num, bit, bigEndian)]; [size = Math.floor(bit / 8)]. *)
Definition numberToBytes (num bit : Z) (bigEndian : bool) : list Z :=
  numberToBytesFrom num bit bigEndian (Z.to_nat (bit / 8)) 0.

(** [value <<= 8; value |= b & 0xFF] and
    [value <<= 8; value |= ~b & 0xFF] *)
Definition take (value b : Z) : Z := or (shl value 8) (and b 255).
Definition takeNot (value b : Z) : Z := or (shl value 8) (and (not b) 255).

(** [bytesToNumber(bytes, bigEndian, signed)].  An index outside the
    array reads [undefined], which the operators take as 0.  The
    little-endian loops run from the last byte down. *)
Definition bytesToNumber (bytes : list Z) (bigEndian signed : bool) : Z :=
  if bigEndian then
    if signed && (shr (and (nth 0 bytes 0) 128) 7 =? 1)
    then - fold_left takeNot bytes 0 - 1
    else fold_left take bytes 0
  else
    if signed && (shr (and (last bytes 0) 128) 7 =? 1)
    then - fold_left takeNot (rev bytes) 0 - 1
    else fold_left take (rev bytes) 0.

(** *** Hexadecimal text

    A string is a [string] of code units below 256.  [None] stands for
    [NaN]. *)

(** What the methods throw: [Error("...")] of [hexToBytes]. *)
Inductive Outcome (A : Type) : Type :=
| Returns (a : A)
| ThrowsNotHex.

Arguments Returns {A} a.
Arguments ThrowsNotHex {A}.

Definition code (c : ascii) : Z := Z.of_nat (nat_of_ascii c).

(** The value of a hexadecimal digit, in either case. *)
Definition hexDigit (c : ascii) : option Z :=
  if (48 <=? code c) && (code c <=? 57) then Some (code c - 48)
  else if (97 <=? code c) && (code c <=? 102) then Some (code c - 87)
  else if (65 <=? code c) && (code c <=? 70) then Some (code c - 55)
  else None.

(** The white space [parseInt] skips: TAB, LF, VT, FF, CR, SP, NBSP. *)
Definition isWhiteSpace (c : ascii) : bool :=
  ((9 <=? code c) && (code c <=? 13)) || (code c =? 32) || (code c =? 160).

Fixpoint skipWhiteSpace (s : string) : string :=
  match s with
  | String c s' => if isWhiteSpace c then skipWhiteSpace s' else s
  | EmptyString => s
  end.

(** The longest run of hexadecimal digits at the front of [s], read as a
    number after what [acc] holds; [acc] itself when there is none. *)
Fixpoint hexDigits (s : string) (acc : option Z) : option Z :=
  match s with
  | String c s' =>
      match hexDigit c with
      | Some d =>
          hexDigits s' (Some (16 * match acc with Some a => a | None => 0 end + d))
      | None => acc
      end
  | EmptyString => acc
  end.

(** [parseInt(s, 16)]: white space, a sign, a [0x] or [0X] prefix, then
    digits up to the first character that is none. *)
Definition parseInt16 (s : string) : option Z :=
  let s1 := skipWhiteSpace s in
  let (sign, s2) :=
    match s1 with
    | String "-" rest => (-1, rest)
    | String "+" rest => (1, rest)
    | _ => (1, s1)
    end in
  let s3 :=
    match s2 with
    | String "0" (String "x" rest) => rest
    | String "0" (String "X" rest) => rest
    | _ => s2
    end in
  match hexDigits s3 None with
  | Some v => Some (sign * v)
  | None => None
  end.

(** The loop of [hexToBytes]: [count] turns left, reading at [pos]. *)
Fixpoint hexToBytesFrom (hex : string) (count pos : nat) : list (option Z) :=
  match count with
  | O => []
  | S count' =>
      parseInt16 (substring pos 2 hex) :: hexToBytesFrom hex count' (pos + 2)
  end.

(** [hexToBytes(hex)] *)
Definition hexToBytes (hex : string) : Outcome (list (option Z)) :=
  if negb (String.length hex mod 2 =? 0)%nat then ThrowsNotHex
  else Returns (hexToBytesFrom hex (String.length hex / 2) 0).

Definition digitChar (d : Z) : ascii :=
  if d <? 10 then ascii_of_nat (Z.to_nat (48 + d))
  else ascii_of_nat (Z.to_nat (87 + d)).

(** The hexadecimal digits of [n >= 0] in front of [acc]; [fuel] bounds
    their number. *)
Fixpoint hexString (fuel : nat) (n : Z) (acc : string) : string :=
  match fuel with
  | O => acc
  | S fuel' =>
      let acc' := String (digitChar (n mod 16)) acc in
      if n / 16 =? 0 then acc' else hexString fuel' (n / 16) acc'
  end.

(** [n.toString(16)] for a whole number: lower-case digits, no leading
    zero, [-] in front of a negative number.  A number has no more
    hexadecimal digits than binary ones. *)
Definition toString16 (n : Z) : string :=
  if n <? 0
  then String "-" (hexString (S (Z.to_nat (Z.log2 (- n)))) (- n) "")
  else hexString (S (Z.to_nat (Z.log2 n))) n "".

(** [s.toUpperCase()] on the strings [bytesToHex] builds, which hold
    digits, the letters [a] to [f] and [-]: on them, as on all ASCII, it
    raises the letters [a] to [z]. *)
Definition upperChar (c : ascii) : ascii :=
  if (97 <=? code c) && (code c <=? 122)
  then ascii_of_nat (nat_of_ascii c - 32)
  else c.

Fixpoint toUpperCase (s : string) : string :=
  match s with
  | String c s' => String (upperChar c) (toUpperCase s')
  | EmptyString => EmptyString
  end.

(** What one turn of the loop of [bytesToHex] pushes on [array]. *)
Definition hexParts (b : Z) (trim : bool) : list string :=
  let tmp := toString16 b in
  (if (String.length tmp =? 1)%nat then ["0"%string] else [])
  ++ (if negb (trim && (String.eqb tmp "FF" || String.eqb tmp "ff"))
      then [tmp] else []).

(** [bytesToHex(bytes, trim, upperCase)]; [array.join("")] is
    [String.concat ""]. *)
Definition bytesToHex (bytes : list Z) (trim upperCase : bool) : string :=
  let hex := String.concat "" (flat_map (fun b => hexParts b trim) bytes) in
  if upperCase then toUpperCase hex else hex.

(** [numberToHex(value, bitSize, bigEndian, upperCase)] *)
Definition numberToHex (value bitSize : Z) (bigEndian upperCase : bool) : string :=
  bytesToHex (numberToBytes value bitSize bigEndian) false upperCase.

(** [hexToNumber(hex, bigEndian, signed)].  [bytesToNumber] puts every
    byte through a bit operator, which takes [NaN] as 0. *)
Definition hexToNumber (hex : string) (bigEndian signed : bool) : Outcome Z :=
  match hexToBytes hex with
  | Returns bytes =>
      Returns (bytesToNumber
                 (map (fun b => match b with Some z => z | None => 0 end) bytes)
                 bigEndian signed)
  | ThrowsNotHex => ThrowsNotHex
  end.

(** *** Text as code units

    [strToBytes] treats a code unit above 255 apart, so here a string is
    the list of its UTF-16 code units, whole numbers from 0 to 65535. *)

Definition isCodeUnit (c : Z) : Prop := 0 <= c < 65536.

(** How [strToBytes] ends: it returns the bytes, throws its length
    error, or is still in its [do ... while] loop when the fuel is
    spent. *)
Inductive StrOutcome : Type :=
| Bytes (bytes : list Z)
| ThrowsTooLong
| OutOfFuel.

(** [do { st.push(char & 0xff); char = char >> 8; } while (char)], for
    [fuel] turns at most. *)
Fixpoint splitChar (fuel : nat) (char : Z) (st : list Z) : option (list Z) :=
  match fuel with
  | O => None
  | S fuel' =>
      let st' := st ++ [and char 255] in
      let char' := shr char 8 in
      if char' =? 0 then Some st' else splitChar fuel' char' st'
  end.

(** The [for] loop of [strToBytes] over the code units left;
    [st.reverse().forEach((v) => bytes.push(v))] appends [rev st]. *)
Fixpoint strToBytesFrom (fuel : nat) (str bytes : list Z) : StrOutcome :=
  match str with
  | [] => Bytes bytes
  | char :: rest =>
      match splitChar fuel char [] with
      | Some st => strToBytesFrom fuel rest (bytes ++ rev st)
      | None => OutOfFuel
      end
  end.

(** [strToBytes(str, maxLength)]; a [maxLength] of 0 is falsy. *)
Definition strToBytes (fuel : nat) (str : list Z) (maxLength : Z) : StrOutcome :=
  if negb (maxLength =? 0) && (maxLength <? Z.of_nat (List.length str))
  then ThrowsTooLong
  else strToBytesFrom fuel str [].

(** [String.fromCharCode(n)] keeps the low 16 bits of [n]. *)
Definition fromCharCode (n : Z) : Z := n mod 65536.

(** [bytesToStr(bytes)].  [bytes[i] + ''] is the decimal text of the
    whole number [bytes[i]] and [parseInt] reads it back. *)
Definition bytesToStr (bytes : list Z) : list Z := map fromCharCode bytes.

(** The bytes of a code unit, high byte first, without a leading zero
    byte. *)
Definition unitBytes (c : Z) : list Z :=
  if c <? 256 then [c] else [c / 256; c mod 256].

(** The two characters [bytesToHex] writes for a byte, with [trim] off. *)
Definition pair_of (b : Z) (upperCase : bool) : string :=
  let up := fun c => if upperCase then upperChar c else c in
  String (up (digitChar (b / 16))) (String (up (digitChar (b mod 16))) "").

(** The text of a list of bytes, pair by pair. *)
Fixpoint pairs_of (bytes : list Z) (upperCase : bool) : string :=
  match bytes with
  | [] => ""
  | b :: rest => (pair_of b upperCase ++ pairs_of rest upperCase)%string
  end.

(** A byte, and the big-endian value of a list of bytes. *)
Definition isByte (b : Z) : Prop := 0 <= b < 256.

Definition unsignedValue (bytes : list Z) : Z :=
  fold_left (fun value b => 256 * value + b) bytes 0.

End BinaryHelper.

(** * Facts about numbers *)

Lemma ltb_lt (a b : number) : ltb a b = true <-> a < b.
Proof.
  unfold ltb. rewrite negb_true_iff, <- not_true_iff_false, Qle_bool_iff.
  split; [apply Qnot_le_lt | apply Qlt_not_le].
Qed.

Lemma ltb_ge (a b : number) : ltb a b = false <-> b <= a.
Proof.
  unfold ltb. rewrite negb_false_iff, Qle_bool_iff. reflexivity.
Qed.

Lemma truthy_false (n : number) : truthy n = false <-> n == 0.
Proof.
  unfold truthy. rewrite negb_false_iff. apply Qeq_bool_iff.
Qed.

Lemma len_nil (A : Type) : len (@nil A) = 0.
Proof. reflexivity. Qed.

Lemma len_cons (A : Type) (a : A) (l : list A) : len (a :: l) == len l + 1.
Proof.
  unfold len. cbn [List.length]. rewrite Nat2Z.inj_succ, <- Z.add_1_r.
  rewrite inject_Z_plus. reflexivity.
Qed.

Lemma len_nonneg (A : Type) (l : list A) : 0 <= len l.
Proof.
  unfold len. change 0 with (inject_Z 0). rewrite <- Zle_Qle. lia.
Qed.

Lemma Math_min_le_l (a b : number) : Math_min a b <= a.
Proof.
  unfold Math_min. destruct (Qle_bool a b) eqn:E.
  - apply Qle_refl.
  - apply Qlt_le_weak, Qnot_le_lt. rewrite <- Qle_bool_iff. congruence.
Qed.

Lemma Math_min_pos (a b : number) : 0 < a -> 0 < b -> 0 < Math_min a b.
Proof. unfold Math_min. destruct (Qle_bool a b); auto. Qed.





(** * Facts about one lane *)

Module ViewModelFacts.

Import ViewModel.
Import Scenario.

Lemma drawn_snoc (c : Canvas) (cmd : DrawCmd) :
  drawn (c ++ [cmd]) = (drawn c + (if isLineTo cmd then 1 else 0))%nat.
Proof.
  unfold drawn. rewrite filter_app, length_app. cbn.
  destruct (isLineTo cmd); reflexivity.
Qed.

Lemma plot_healthy (point : number) (s : Scene) :
  plot healthy point s =
  Normal tt
    {| this := set_y (calculateY (this s) point)
                 (set_x (calculateX (this s)) (this s));
       ctx := ctx s ++ [LineTo (x (this s) + step (this s))
                          (calculateY (this s) point)] |}.
Proof. reflexivity. Qed.

(** The loop of [drawView] on a healthy surface: it plots [k] samples off
    the front of the batch, and at least one when it is entered with
    [i < size]. *)
Lemma drawLoop_healthy (points : batch) :
  forall (size : number) (i : Z) (s : Scene),
    size <= inject_Z i + len points ->
    curPoints (this s) = Some points ->
    exists (k : nat) (s' : Scene),
      drawLoop healthy size i points s = Normal tt s' /\
      (k <= List.length points)%nat /\
      curPoints (this s') = Some (skipn k points) /\
      waveQ (this s') = waveQ (this s) /\
      config (this s') = config (this s) /\
      drawn (ctx s') = (drawn (ctx s) + k)%nat /\
      (inject_Z i < size -> (1 <= k)%nat).
Proof.
  induction points as [|point rest IH]; intros size i s Hsize Hcur.
  - exists 0%nat, s. cbn [drawLoop].
    destruct (ltb (inject_Z i) size) eqn:E.
    + apply ltb_lt in E. rewrite len_nil in Hsize. lra.
    + apply ltb_ge in E. repeat split; auto. intros; lra.
  - cbn [drawLoop]. destruct (ltb (inject_Z i) size) eqn:E.
    + set (s1 := {| this := set_y (calculateY (this s) point)
                              (set_x (calculateX (this s))
                                 (set_curPoints (Some rest) (this s)));
                    ctx := ctx s ++ [LineTo (x (this s) + step (this s))
                                       (calculateY (this s) point)] |}).
      destruct (IH size (i + 1)%Z s1) as (k & s' & Hrun & Hk & Hc & Hq & Hcfg & Hd & _).
      * rewrite len_cons in Hsize. rewrite inject_Z_plus.
        change (inject_Z 1) with 1. lra.
      * reflexivity.
      * exists (S k), s'. repeat split; auto.
        -- cbn. lia.
        -- rewrite Hd. subst s1. cbn [ctx]. rewrite drawn_snoc. cbn. lia.
        -- intros; lia.
    + exists 0%nat, s. apply ltb_ge in E. repeat split; auto.
      * cbn; lia.
      * intros; lra.
Qed.

(** [drawView] on a healthy surface, called as [onDraw] calls it. *)
Lemma drawView_healthy (points : batch) (render : bool) (s : Scene) :
  curPoints (this s) = Some points ->
  points <> [] ->
  exists (k : nat) (s' : Scene),
    drawView healthy points render s = Normal tt s' /\
    (k <= List.length points)%nat /\
    curPoints (this s') = Some (skipn k points) /\
    waveQ (this s') = waveQ (this s) /\
    config (this s') = config (this s) /\
    drawn (ctx s') = (drawn (ctx s) + k)%nat /\
    (0 < drawCount (this s) -> (1 <= k)%nat).
Proof.
  intros Hcur Hne.
  set (c1 := ctx s ++ [ClearRect (x (this s)) (startY (this s))
                         (padding (this s)) (height (this s))]).
  set (c7 := (((((c1 ++ [SetLineWidth 1]) ++ [SetStrokeStyle "black"])
                 ++ [SetLineCap "round"]) ++ [SetLineJoin "round"])
               ++ [BeginPath]) ++ [MoveTo (x (this s)) (y (this s))]).
  set (s1 := {| this := this s; ctx := c7 |}).
  destruct (@drawLoop_healthy points
              (Math_min (len points) (drawCount (this s))) 0 s1)
    as (k & s2 & Hrun & Hk & Hc & Hq & Hcfg & Hd & Hpos).
  { change (inject_Z 0) with 0. pose proof (Math_min_le_l (len points)
      (drawCount (this s))). lra. }
  { exact Hcur. }
  assert (Hd7 : drawn c7 = drawn (ctx s)).
  { subst c7 c1. rewrite !drawn_snoc. cbn. lia. }
  assert (Hk1 : 0 < drawCount (this s) -> (1 <= k)%nat).
  { intros Hdc. apply Hpos. change (inject_Z 0) with 0.
    apply Math_min_pos; [|exact Hdc].
    destruct points; [congruence|]. rewrite len_cons.
    pose proof (len_nonneg points). lra. }
  unfold drawView, bind, get. cbn.
  fold c1. fold c7. fold s1. rewrite Hrun.
  assert (Hd2 : drawn (ctx s2) = (drawn (ctx s) + k)%nat).
  { rewrite Hd. subst s1. cbn [ctx]. rewrite Hd7. reflexivity. }
  destruct render; cbn;
    destruct (geb (x (this s2)) (width (this s2))); cbn;
    (exists k; eexists; split; [reflexivity|]; cbn [this ctx];
     rewrite ?drawn_snoc; cbn [isLineTo]; repeat split; auto; try lia;
     rewrite <- Hcfg; reflexivity).
Qed.

Lemma config_maxCacheSize (m m' : t) :
  config m = config m' -> maxCacheSize m = maxCacheSize m'.
Proof. unfold config. intros H. injection H. auto. Qed.

Lemma config_drawCount (m m' : t) :
  config m = config m' -> drawCount m = drawCount m'.
Proof. unfold config. intros H. injection H. auto. Qed.

Lemma hasPoints_Some (m : t) (points : batch) :
  hasPoints m = Some points -> curPoints m = Some points /\ points <> [].
Proof.
  unfold hasPoints. destruct (curPoints m) as [[|p ps]|]; try discriminate.
  intros H. injection H as <-. split; [reflexivity | discriminate].
Qed.

Lemma hasPoints_None (m : t) : hasPoints m = None -> remaining m = 0%nat.
Proof.
  unfold hasPoints, remaining.
  destruct (curPoints m) as [[|p ps]|]; try discriminate; reflexivity.
Qed.

Lemma pending_shifted (next : batch) (rest : list batch) (s : Scene) :
  pending (this (shifted next rest s)) = queued (next :: rest).
Proof. reflexivity. Qed.

(** One turn of the loop of [onDraw], on any surface. *)
Lemma onDrawLoop_eq (surface : Surface) (render : bool) (q : list batch)
  (s : Scene) :
  onDrawLoop surface render q s =
  let next_turn (s1 : Scene) :=
    match q with
    | [] => Normal false s1
    | next :: rest => onDrawLoop surface render rest (shifted next rest s1)
    end in
  match hasPoints (this s) with
  | Some points =>
      match drawView surface points render s with
      | Normal _ s1 =>
          if negb (truthy (maxCacheSize (this s1)))
             || ltb (len (waveQ (this s1))) (maxCacheSize (this s1))
          then Normal true s1
          else next_turn s1
      | Abrupt e s1 => Abrupt e s1
      end
  | None => next_turn s
  end.
Proof.
  destruct q as [|next rest]; cbn [onDrawLoop]; cbv zeta;
    unfold bind at 1, get; destruct (hasPoints (this s)) as [points|];
    try reflexivity;
    unfold bind at 1; destruct (drawView surface points render s); cbn; auto;
    destruct (negb _ || _); reflexivity.
Qed.

Lemma onDrawLoop_healthy (render : bool) (q : list batch) :
  forall s : Scene,
    waveQ (this s) = q ->
    exists (b : bool) (s' : Scene),
      onDrawLoop healthy render q s = Normal b s' /\ TickSpec s b s'.
Proof.
  induction q as [|next rest IH]; intros s Hq; rewrite onDrawLoop_eq; cbv zeta.
  - destruct (hasPoints (this s)) as [points|] eqn:Hp.
    + apply hasPoints_Some in Hp as [Hcur Hne].
      destruct (drawView_healthy render s Hcur Hne)
        as (k & s1 & -> & Hk & Hc & Hq1 & Hcfg & Hd & Hpos).
      assert (Hlen : List.length (skipn k points) = (List.length points - k)%nat)
        by apply length_skipn.
      assert (Hpend : (pending (this s1) + k = pending (this s))%nat).
      { unfold pending, remaining. rewrite Hc, Hcur, Hq1, Hlen. lia. }
      rewrite (config_maxCacheSize Hcfg).
      destruct (negb (truthy (maxCacheSize (this s)))
                || ltb (len (waveQ (this s1))) (maxCacheSize (this s))) eqn:Hcond.
      * exists true, s1. split; [reflexivity|].
        constructor; auto; try lia; try discriminate.
        -- intros _. apply orb_true_iff in Hcond as [H|H].
           ++ left. now apply negb_true_iff in H.
           ++ right. now apply ltb_lt.
        -- intros _. repeat split; try lia; try discriminate.
           intros _ Hdc. specialize (Hpos Hdc). lia.
      * exists false, s1. split; [reflexivity|].
        apply orb_false_iff in Hcond as [Ht _].
        apply negb_false_iff in Ht.
        constructor; auto; try lia; try discriminate.
        -- intros _. congruence.
        -- intros Hf. congruence.
    + exists false, s. split; [reflexivity|].
      pose proof (hasPoints_None _ Hp) as Hr.
      constructor; auto; try discriminate.
      intros _. repeat split; try discriminate.
      intros _. unfold pending. rewrite Hr, Hq. reflexivity.
  - destruct (hasPoints (this s)) as [points|] eqn:Hp.
    + apply hasPoints_Some in Hp as [Hcur Hne].
      destruct (drawView_healthy render s Hcur Hne)
        as (k & s1 & -> & Hk & Hc & Hq1 & Hcfg & Hd & Hpos).
      assert (Hlen : List.length (skipn k points) = (List.length points - k)%nat)
        by apply length_skipn.
      assert (Hpend : (pending (this s1) + k = pending (this s))%nat).
      { unfold pending, remaining. rewrite Hc, Hcur, Hq1, Hlen. lia. }
      rewrite (config_maxCacheSize Hcfg).
      destruct (negb (truthy (maxCacheSize (this s)))
                || ltb (len (waveQ (this s1))) (maxCacheSize (this s))) eqn:Hcond.
      * exists true, s1. split; [reflexivity|].
        constructor; auto; try lia; try discriminate.
        -- intros _. apply orb_true_iff in Hcond as [H|H].
           ++ left. now apply negb_true_iff in H.
           ++ right. now apply ltb_lt.
        -- intros _. repeat split; try lia; try discriminate.
           intros _ Hdc. specialize (Hpos Hdc). lia.
      * apply orb_false_iff in Hcond as [Ht _].
        apply negb_false_iff in Ht.
        destruct (IH (shifted next rest s1) eq_refl) as (b & s' & Hrun & HT).
        exists b, s'. split; [exact Hrun|].
        destruct HT as [Tc Tt Tf Ts Tm Te].
        assert (Hp2 : (pending (this (shifted next rest s1))
                       <= pending (this s1))%nat).
        { unfold pending, remaining, shifted. cbn. rewrite Hq1, Hq. cbn. lia. }
        cbn [shifted this ctx] in *.
        constructor; auto.
        -- rewrite Tc. cbn. exact Hcfg.
        -- intros Hb. destruct (Tt Hb) as [H|H]; [left|right].
           ++ cbn in H. rewrite <- (config_maxCacheSize Hcfg). exact H.
           ++ cbn in H. rewrite <- (config_maxCacheSize Hcfg). exact H.
        -- lia.
        -- lia.
        -- intros Hf. congruence.
    + pose proof (hasPoints_None _ Hp) as Hr.
      destruct (IH (shifted next rest s) eq_refl) as (b & s' & Hrun & HT).
      exists b, s'. split; [exact Hrun|].
      destruct HT as [Tc Tt Tf Ts Tm Te].
      assert (Hp2 : pending (this (shifted next rest s)) = pending (this s)).
      { rewrite pending_shifted. unfold pending. rewrite Hr, Hq. reflexivity. }
      cbn [shifted this ctx] in *.
      constructor; auto.
      * lia.
      * intros Hf. specialize (Te Hf). destruct Te as (E1 & E2 & E3).
        repeat split; auto; try lia.
        intros Hb Hdc. specialize (E3 Hb Hdc). lia.
Qed.

Lemma onDraw_healthy (render : bool) (s : Scene) :
  exists (b : bool) (s' : Scene),
    onDraw healthy render s = Normal b s' /\ TickSpec s b s'.
Proof. exact (@onDrawLoop_healthy render (waveQ (this s)) s eq_refl). Qed.

Lemma queued_app (q : list batch) (b : batch) :
  queued (q ++ [b]) = (queued q + List.length b)%nat.
Proof.
  unfold queued. rewrite map_app, list_sum_app. unfold list_sum. cbn [map fold_right].
  rewrite Nat.add_0_r. reflexivity.
Qed.

Lemma pending_push (points : batch) (m : t) :
  pending (push (Some points) m) = (pending m + List.length points)%nat.
Proof.
  unfold pending, push, remaining.
  cbn [waveQ curPoints set_waveQ]. rewrite queued_app.
  apply Nat.add_assoc.
Qed.

Lemma laneStep_account (s : Scene) (op : LaneOp) :
  truthy (maxCacheSize (this s)) = false ->
  config (this (laneStep healthy s op)) = config (this s) /\
  (drawn (ctx (laneStep healthy s op)) + pending (this (laneStep healthy s op))
   = drawn (ctx s) + pending (this s) + pushed [op])%nat.
Proof.
  intros Hmax. destruct op as [points|]; cbn [laneStep].
  - split; [reflexivity|]. cbn [this ctx]. rewrite pending_push.
    unfold pushed. cbn [map list_sum fold_right]. rewrite Nat.add_0_r.
    apply Nat.add_assoc.
  - destruct (onDraw_healthy true s) as (b & s' & -> & HT). cbn [final].
    destruct HT as [Tc _ _ _ _ Te]. destruct (Te Hmax) as (E & _).
    split; [exact Tc|]. unfold pushed. cbn. lia.
Qed.

Lemma pushed_cons (op : LaneOp) (ops : list LaneOp) :
  pushed (op :: ops) = (pushed [op] + pushed ops)%nat.
Proof.
  unfold pushed, list_sum. cbn [map fold_right]. rewrite Nat.add_0_r.
  reflexivity.
Qed.

Lemma trace_account (ops : list LaneOp) :
  forall s : Scene,
    truthy (maxCacheSize (this s)) = false ->
    let s1 := fold_left (laneStep healthy) ops s in
    config (this s1) = config (this s) /\
    (drawn (ctx s1) + pending (this s1)
     = drawn (ctx s) + pending (this s) + pushed ops)%nat.
Proof.
  induction ops as [|op ops IH]; intros s Hmax; cbn [fold_left].
  - split; [reflexivity|]. unfold pushed. cbn. lia.
  - destruct (laneStep_account s op Hmax) as [Hc Ha].
    destruct (IH (laneStep healthy s op)) as [Hc' Ha'].
    { rewrite (config_maxCacheSize Hc). exact Hmax. }
    split; [congruence|]. cbv zeta in Ha'. rewrite Ha', Ha, (pushed_cons op ops).
    symmetry. apply Nat.add_assoc.
Qed.

Lemma untilIdle_exhausts (n : nat) :
  forall s : Scene,
    truthy (maxCacheSize (this s)) = false ->
    0 < drawCount (this s) ->
    (pending (this s) < n)%nat ->
    exists s' : Scene,
      untilIdle healthy n s = Some s' /\
      drawn (ctx s') = (drawn (ctx s) + pending (this s))%nat /\
      pending (this s') = 0%nat.
Proof.
  induction n as [|n IH]; intros s Hmax Hdc Hn; [lia|].
  cbn [untilIdle].
  destruct (onDraw_healthy true s) as (b & s1 & -> & HT).
  destruct HT as [Tc _ _ _ _ Te]. destruct (Te Hmax) as (E1 & E2 & E3).
  destruct b.
  - specialize (E3 eq_refl Hdc).
    destruct (IH s1) as (s' & Hrun & Hd & Hp).
    + rewrite (config_maxCacheSize Tc). exact Hmax.
    + rewrite (config_drawCount Tc). exact Hdc.
    + lia.
    + exists s'. repeat split; auto. lia.
  - specialize (E2 eq_refl). exists s1. repeat split; auto. lia.
Qed.

Lemma trace_sound (ops : list LaneOp) :
  forall s : Scene,
    let s1 := fold_left (laneStep healthy) ops s in
    (drawn (ctx s1) + pending (this s1)
     <= drawn (ctx s) + pending (this s) + pushed ops)%nat.
Proof.
  induction ops as [|op ops IH]; intros s; cbn [fold_left].
  - lia.
  - specialize (IH (laneStep healthy s op)). cbv zeta in IH.
    rewrite (pushed_cons op ops).
    enough ((drawn (ctx (laneStep healthy s op))
             + pending (this (laneStep healthy s op))
             <= drawn (ctx s) + pending (this s) + pushed [op])%nat) by lia.
    destruct op as [points|]; cbn [laneStep].
    + cbn [this ctx]. rewrite pending_push.
      unfold pushed. cbn [map list_sum fold_right]. rewrite Nat.add_0_r.
      rewrite Nat.add_assoc. apply Nat.le_refl.
    + destruct (onDraw_healthy true s) as (b & s' & -> & HT). cbn [final].
      destruct HT as [_ _ _ Ts _ _]. lia.
Qed.

(** C1, as stated, fails: with catch-up on ([maxCacheSize = 1],
    [drawCount = 1]) the batches [[1,2,3]] and [[4]] are pushed, the first
    tick plots [1], finds the queue at the threshold, replaces the batch in
    hand by [[4]] and plots [4]; the second tick reports no output.  Four
    samples were pushed, two were drawn: [2] and [3] are gone. *)
Lemma catch_up_drops_samples :
  let options :=
    ViewModelOptions.Build 300 200 None 512 (Some 1) (Some 100) None None
      (Some 1) None None None in
  let ops := [Enqueue [1; 2; 3]; Enqueue [4]] in
  let s := fold_left (laneStep healthy) ops
             {| this := new options; ctx := [] |} in
  exists s' : Scene,
    untilIdle healthy 2 s = Some s' /\
    pushed ops = 4%nat /\
    drawn (ctx s') = 2%nat /\
    pending (this s') = 0%nat.
Proof. vm_compute. eexists. repeat split. Qed.

(** By value, where every batch is a list of its own: on a healthy
    surface no trace of pushes and ticks draws more samples than were
    pushed; and with catch-up off ([maxCacheSize = 0]) and a positive
    [drawCount], ticking until the lane reports no output comes to an
    end and has then drawn every sample pushed, none left in the lane. *)
Lemma no_sample_dropped_without_catch_up
  (m : t) (c : Canvas) (ops : list LaneOp) :
  let s1 := fold_left (laneStep healthy) ops {| this := m; ctx := c |} in
  (drawn (ctx s1) + pending (this s1) <= drawn c + pending m + pushed ops)%nat /\
  (maxCacheSize m == 0 ->
   0 < drawCount m ->
   forall n : nat,
     (pending (this s1) < n)%nat ->
     exists s' : Scene,
       untilIdle healthy n s1 = Some s' /\
       drawn (ctx s') = (drawn c + pending m + pushed ops)%nat /\
       pending (this s') = 0%nat).
Proof.
  intros s1. split.
  - exact (trace_sound ops {| this := m; ctx := c |}).
  - intros Hmax Hdc n Hn. apply truthy_false in Hmax.
    destruct (@trace_account ops {| this := m; ctx := c |} Hmax) as [Hc Ha].
    fold s1 in Hc, Ha. cbn [this ctx] in Hc, Ha.
    destruct (@untilIdle_exhausts n s1) as (s' & Hrun & Hd & Hp); auto.
    + rewrite (config_maxCacheSize Hc). exact Hmax.
    + rewrite (config_drawCount Hc). exact Hdc.
    + exists s'. repeat split; auto. lia.
Qed.

Lemma no_sample_dropped_without_catch_up_witness :
  exists s' : Scene,
    untilIdle healthy 5
      (fold_left (laneStep healthy) lane_trace {| this := plain_lane; ctx := [] |})
    = Some s' /\
    drawn (ctx s') = (drawn [] + pending plain_lane + pushed lane_trace)%nat /\
    pending (this s') = 0%nat.
Proof.
  apply (proj2 (@no_sample_dropped_without_catch_up plain_lane [] lane_trace)).
  - reflexivity.
  - reflexivity.
  - vm_compute. lia.
Defined.

(** With catch-up off and no empty batch queued, a tick takes at most one
    batch off the queue. *)
Lemma onDraw_one_transition (render : bool) (s : Scene) (b : bool) (s' : Scene) :
  onDraw healthy render s = Normal b s' ->
  truthy (maxCacheSize (this s)) = false ->
  Forall (fun points : batch => points <> []) (waveQ (this s)) ->
  (List.length (waveQ (this s)) <= List.length (waveQ (this s')) + 1)%nat.
Proof.
  unfold onDraw, bind at 1, get. intros Hrun Hmax Hne.
  assert (Hturn : forall (q : list batch) (s0 : Scene) (points : batch),
             hasPoints (this s0) = Some points ->
             waveQ (this s0) = q ->
             truthy (maxCacheSize (this s0)) = false ->
             onDrawLoop healthy render q s0 = Normal b s' ->
             waveQ (this s') = q).
  { intros q s0 points Hp Hq Hm Hr. rewrite onDrawLoop_eq in Hr. cbv zeta in Hr.
    rewrite Hp in Hr. apply hasPoints_Some in Hp as [Hcur Hnil].
    destruct (drawView_healthy render s0 Hcur Hnil)
      as (k & s1 & E & _ & _ & Hq1 & Hcfg & _).
    rewrite E, (config_maxCacheSize Hcfg), Hm in Hr. cbn in Hr.
    injection Hr as _ <-. congruence. }
  destruct (hasPoints (this s)) as [points|] eqn:Hp.
  - rewrite (Hturn _ _ _ Hp eq_refl Hmax Hrun). lia.
  - rewrite onDrawLoop_eq in Hrun. cbv zeta in Hrun. rewrite Hp in Hrun.
    destruct (waveQ (this s)) as [|next rest] eqn:Hq.
    + injection Hrun as _ <-. rewrite Hq. cbn. lia.
    + inversion Hne as [|? ? Hnext _]; subst.
      assert (Hp' : hasPoints (this (shifted next rest s)) = Some next).
      { destruct next; [congruence | reflexivity]. }
      rewrite (Hturn _ _ _ Hp' eq_refl Hmax Hrun). cbn. lia.
Qed.

(** C2, as stated, fails in its second half: [push] accepts an empty
    array, and the loop of [onDraw] takes an empty batch off the queue
    without drawing and goes on.  With [maxCacheSize = 0] and the batches
    [[]], [[]] and [[1]] queued, one tick makes three transitions and
    leaves the queue empty. *)
Lemma empty_batches_are_stepped_over :
  let s := {| this := enqueue_all [[]; []; [1]] plain_lane; ctx := [] |} in
  maxCacheSize plain_lane = 0 /\
  List.length (waveQ (this s)) = 3%nat /\
  exists s' : Scene,
    onDraw healthy true s = Normal true s' /\
    List.length (waveQ (this s')) = 0%nat /\
    drawn (ctx s') = 1%nat /\
    ~ (List.length (waveQ (this s)) <= List.length (waveQ (this s')) + 1)%nat.
Proof.
  cbv zeta. split; [reflexivity|]. split; [reflexivity|].
  eexists. split; [vm_compute; reflexivity|].
  cbn [this ctx waveQ List.length]. repeat split. cbn. lia.
Qed.

(** C2, amended: a lane with [maxCacheSize = k > 0], whatever it held and
    whatever batches [bs] were then enqueued ([k+1] non-empty ones in
    particular), ends a tick with fewer than [k] batches queued; and with
    [maxCacheSize = 0] and only non-empty batches queued, a tick takes at
    most one batch off the queue.  The tick returns on a healthy surface. *)
Theorem catch_up_below_threshold
  (m : t) (c : Canvas) (bs : list batch) (render : bool) :
  let s := {| this := enqueue_all bs m; ctx := c |} in
  exists (b : bool) (s' : Scene),
    onDraw healthy render s = Normal b s' /\
    (forall k : nat,
       (0 < k)%nat ->
       maxCacheSize m == inject_Z (Z.of_nat k) ->
       (List.length (waveQ (this s')) < k)%nat) /\
    (maxCacheSize m == 0 ->
     Forall (fun points : batch => points <> []) (waveQ (this s)) ->
     (List.length (waveQ (this s)) <= List.length (waveQ (this s')) + 1)%nat).
Proof.
  intros s.
  assert (Hmax : maxCacheSize (this s) = maxCacheSize m).
  { subst s. cbn [this]. unfold enqueue_all. clear c render. revert m.
    induction bs as [|points bs IH]; intros m; [reflexivity|].
    cbn [fold_left]. rewrite IH. reflexivity. }
  destruct (onDraw_healthy render s) as (b & s' & Hrun & HT).
  exists b, s'. split; [exact Hrun|]. split.
  - intros k Hk Hmk. destruct HT as [_ Tt Tf _ _ _]. rewrite Hmax in Tt.
    destruct b.
    + destruct (Tt eq_refl) as [H|H].
      * apply truthy_false in H. rewrite Hmk in H.
        unfold Qeq in H. cbn in H. lia.
      * rewrite Hmk in H. unfold len in H. rewrite <- Zlt_Qlt in H. lia.
    + rewrite (Tf eq_refl). exact Hk.
  - intros Hz Hne. apply (@onDraw_one_transition render s b s' Hrun); auto.
    rewrite Hmax. now apply truthy_false.
Qed.

Lemma catch_up_below_threshold_witness :
  (exists (b : bool) (s' : Scene),
     onDraw healthy true
       {| this := enqueue_all three_batches catch_up_lane; ctx := [] |}
     = Normal b s' /\
     (List.length (waveQ (this s')) < 2)%nat) /\
  (exists (b : bool) (s' : Scene),
     onDraw healthy true
       {| this := enqueue_all three_batches plain_lane; ctx := [] |}
     = Normal b s' /\
     (List.length (waveQ (enqueue_all three_batches plain_lane))
      <= List.length (waveQ (this s')) + 1)%nat).
Proof.
  split.
  - destruct (@catch_up_below_threshold catch_up_lane [] three_batches true)
      as (b & s' & Hrun & Hk & _).
    exists b, s'. split; [exact Hrun|].
    apply (Hk 2%nat); [lia | reflexivity].
  - destruct (@catch_up_below_threshold plain_lane [] three_batches true)
      as (b & s' & Hrun & _ & H0).
    exists b, s'. split; [exact Hrun|].
    apply H0; [reflexivity | repeat constructor; discriminate].
Defined.

(** C6, as stated, fails: an empty array is truthy, so [push([])] on a
    new lane leaves the empty batch in the queue. *)
Lemma push_appends_empty_batch :
  let m := new (ViewModelOptions.Build 300 200 None 512 (Some 8) None None
                  None None None None None) in
  waveQ m = [] /\ waveQ (push (Some []) m) = [[]] /\ push (Some []) m <> m.
Proof. cbn. repeat split; discriminate. Qed.

(** C6, amended: [push] appends every batch it is given, the empty one
    too, at the back of the queue and touches nothing else; it is a no-op
    on [null] and [undefined] only. *)
Theorem push_appends_every_batch (m : t) (points : batch) :
  push (Some points) m = set_waveQ (waveQ m ++ [points]) m /\
  waveQ (push (Some points) m) = waveQ m ++ [points] /\
  curPoints (push (Some points) m) = curPoints m /\
  x (push (Some points) m) = x m /\
  y (push (Some points) m) = y m /\
  config (push (Some points) m) = config m /\
  push None m = m.
Proof. repeat split. Qed.




(** C9 fails on the code: [options.clearView ? options.clearView : true]
    is [true] whatever the caller supplies, so a lane constructed with
    [clearView: false] clears like any other. *)
Theorem clearView_option_is_ignored (options : ViewModelOptions.t) :
  clearView (new options) = true /\
  clearView
    (new (ViewModelOptions.Build 300 200 (Some false) 512 (Some 8) None
            None None None None None None)) = true.
Proof.
  split; [|reflexivity].
  unfold new. cbn [clearView].
  destruct (ViewModelOptions.clearView options) as [[|]|]; reflexivity.
Qed.

(** ** Only the surface makes a lane throw *)

Ltac surface_call :=
  match goal with
  | H : context [call ?sf ?c ?s] |- _ =>
      unfold call at 1 in H; destruct (sf c) eqn:?;
      [injection H as <- _; eexists; reflexivity | cbn [this ctx] in H]
  end.

Lemma drawLoop_throws_only_surface_errors (surface : Surface) (points : batch) :
  forall (size : number) (i : Z) (s : Scene) (e : JsError) (s' : Scene),
    size <= inject_Z i + len points ->
    drawLoop surface size i points s = Abrupt e s' ->
    surface_error e.
Proof.
  induction points as [|point rest IH]; intros size i s e s' Hsize Hrun;
    cbn [drawLoop] in Hrun; destruct (ltb (inject_Z i) size) eqn:E;
    try discriminate.
  - apply ltb_lt in E. rewrite len_nil in Hsize. lra.
  - unfold bind at 1, update, modify in Hrun.
    unfold bind at 1, plot, bind at 1, update, modify in Hrun.
    unfold bind at 1, update, modify in Hrun.
    unfold bind at 1, get in Hrun. cbn [this ctx] in Hrun.
    surface_call.
    apply IH in Hrun; [exact Hrun|].
    rewrite len_cons in Hsize. rewrite inject_Z_plus.
    change (inject_Z 1) with 1. lra.
Qed.

Lemma drawView_throws_only_surface_errors
  (surface : Surface) (points : batch) (render : bool) (s : Scene)
  (e : JsError) (s' : Scene) :
  drawView surface points render s = Abrupt e s' -> surface_error e.
Proof.
  unfold drawView. unfold bind at 1, get. intros H.
  do 7 (unfold bind at 1 in H; surface_call).
  unfold bind at 1 in H.
  match type of H with
  | context [drawLoop surface ?sz 0 points ?s0] =>
      destruct (drawLoop surface sz 0 points s0) as [[] s1|e1 s1] eqn:Hloop
  end.
  - unfold bind at 1 in H. destruct render.
    + surface_call. unfold bind, get in H.
      destruct (geb _ _) in H; discriminate.
    + unfold ret at 1 in H. unfold bind, get in H.
      destruct (geb _ _) in H; discriminate.
  - injection H as <- _.
    apply drawLoop_throws_only_surface_errors in Hloop; [exact Hloop|].
    change (inject_Z 0) with 0.
    pose proof (Math_min_le_l (len points) (drawCount (this s))). lra.
Qed.

(** X29.  [onDraw] never plots an [undefined] sample: [drawView] shifts
    no more samples than the batch holds, so when [onDraw] throws, a call
    on the context threw. *)
Lemma onDraw_throws_only_surface_errors
  (surface : Surface) (render : bool) (s : Scene) (e : JsError) (s' : Scene) :
  onDraw surface render s = Abrupt e s' -> surface_error e.
Proof.
  unfold onDraw, bind, get. generalize (waveQ (this s)) as q. intros q.
  revert s. induction q as [|next rest IH]; intros s; rewrite onDrawLoop_eq;
    cbv zeta; destruct (hasPoints (this s)) as [points|]; try discriminate.
  - destruct (drawView surface points render s) as [[] s1|e1 s1] eqn:Hd.
    + destruct (negb _ || _); discriminate.
    + intros H. injection H as <- _.
      exact (drawView_throws_only_surface_errors _ _ _ _ Hd).
  - destruct (drawView surface points render s) as [[] s1|e1 s1] eqn:Hd.
    + destruct (negb _ || _); [discriminate | apply IH].
    + intros H. injection H as <- _.
      exact (drawView_throws_only_surface_errors _ _ _ _ Hd).
  - apply IH.
Qed.

Lemma onDraw_throws_only_surface_errors_witness :
  onDraw short_surface true {| this := tall_lane; ctx := [] |}
  = Abrupt (SurfaceError (ClearRect (-1) 0 16 200))
      (final (onDraw short_surface true {| this := tall_lane; ctx := [] |})) /\
  surface_error (SurfaceError (ClearRect (-1) 0 16 200)).
Proof.
  split; [reflexivity|].
  apply (@onDraw_throws_only_surface_errors short_surface true
           {| this := tall_lane; ctx := [] |}
           (SurfaceError (ClearRect (-1) 0 16 200))
           (final (onDraw short_surface true {| this := tall_lane; ctx := [] |}))).
  reflexivity.
Defined.

End ViewModelFacts.

(** * Facts about the scheduler *)

Module WaveViewFacts.

Import WaveView.
Import Scenario.

Lemma overModels_sched (B : Type)
  (loop : list ViewModel.t -> Canvas -> Completion (list ViewModel.t * Canvas) B)
  (w : t) :
  sched (final (overModels loop w)) = sched w.
Proof.
  unfold overModels. destruct (loop (models w) (ctx w)) as [b [ms c]|e [ms c]];
    reflexivity.
Qed.

Lemma onOnlyModel_sched (A : Type) (m : ViewModel.t) (body : ViewModel.M A)
  (w : t) :
  sched (final (onOnlyModel m body w)) = sched w.
Proof.
  unfold onOnlyModel. destruct (body _); reflexivity.
Qed.

Lemma clearView_sched (surface : Surface) (w : t) :
  sched (final (clearView surface w)) = sched w.
Proof.
  unfold clearView, finally, onDrawBackground, bind, ret, get.
  destruct (models w) as [|m [|m' ms]].
  2: { pose proof (onOnlyModel_sched m (ViewModel.clear surface) w) as H.
       destruct (onOnlyModel m (ViewModel.clear surface) w); exact H. }
  all: match goal with
       | |- context [overModels ?l ?v] =>
           pose proof (overModels_sched l v) as H; destruct (overModels l v)
       end; exact H.
Qed.

Lemma stopTimer_final (r : bool) (w : t) :
  timer (final (stopTimer r w)) = None /\
  recover (final (stopTimer r w)) =
    match timer w with Some _ => r | None => recover w end.
Proof.
  unfold stopTimer, bind, get. destruct (timer w) eqn:E; cbn; auto.
Qed.

Lemma startTimer_final (r : bool) (w : t) :
  timer (final (startTimer r w)) <> None /\
  recover (final (startTimer r w)) =
    match timer w with Some _ => recover w | None => r end.
Proof.
  unfold startTimer, bind, get. destruct (timer w) eqn:E; cbn.
  - rewrite E. split; [discriminate | reflexivity].
  - split; [discriminate | reflexivity].
Qed.

Lemma sched_timer (w w' : t) : sched w' = sched w -> timer w' = timer w.
Proof. unfold sched. intros H. injection H. auto. Qed.

Lemma sched_recover (w w' : t) : sched w' = sched w -> recover w' = recover w.
Proof. unfold sched. intros H. injection H. auto. Qed.

Lemma sched_rcvTime (w w' : t) : sched w' = sched w -> rcvTime w' = rcvTime w.
Proof. unfold sched. intros H. injection H. auto. Qed.

Lemma drawModels_sched (surface : Surface) (w : t) :
  sched (final (drawModels surface w)) = sched w.
Proof.
  unfold drawModels, bind at 1, get. destruct (models w) as [|m [|m' ms]].
  - apply overModels_sched.
  - unfold bind.
    pose proof (onOnlyModel_sched m (ViewModel.onDraw surface true) w) as H.
    destruct (onOnlyModel m (ViewModel.onDraw surface true) w); exact H.
  - apply overModels_sched.
Qed.

Lemma draw_paused_or_same (surface : Surface) (now : Z) (w : t) :
  paused_or_same w (final (draw surface now w)).
Proof.
  pose proof (drawModels_sched surface w) as Hpass.
  unfold draw. set (pass := drawModels surface) in *.
  unfold bind at 1. destruct (pass w) as [flag w1|e w1]; cbn [final] in *.
  - destruct flag; cbn [negb].
    + left. split; [apply (sched_timer Hpass) | apply (sched_recover Hpass)].
    + unfold bind at 1, get.
      destruct (2000 <=? now - rcvTime w1)%Z.
      * unfold bind. pose proof (clearView_sched surface w1) as Hc.
        destruct (clearView surface w1) as [[] w2|e w2]; cbn [final] in *.
        -- right. destruct (stopTimer_final true w2) as [Ht Hr].
           unfold pause. split; [exact Ht|]. rewrite Hr.
           rewrite (sched_timer Hc), (sched_timer Hpass).
           rewrite (sched_recover Hc), (sched_recover Hpass). reflexivity.
        -- left. split.
           ++ rewrite (sched_timer Hc). apply (sched_timer Hpass).
           ++ rewrite (sched_recover Hc). apply (sched_recover Hpass).
      * left. split; [apply (sched_timer Hpass) | apply (sched_recover Hpass)].
  - left. split; [apply (sched_timer Hpass) | apply (sched_recover Hpass)].
Qed.

Lemma pushEach_nth_error (ms : list ViewModel.t) (waves : list (option batch)) :
  List.length (pushEach ms waves) = List.length ms /\
  forall i : nat,
    nth_error (pushEach ms waves) i =
    match nth_error ms i, nth_error waves i with
    | Some m, Some points => Some (ViewModel.push points m)
    | Some m, None => Some m
    | None, _ => None
    end.
Proof.
  revert waves. induction ms as [|m ms IH]; intros waves.
  - split; [reflexivity|]. intros [|i]; reflexivity.
  - destruct waves as [|points waves].
    + split; [reflexivity|]. intros i. cbn [pushEach].
      destruct (nth_error (m :: ms) i); destruct i; reflexivity.
    + destruct (IH waves) as [Hlen Hnth]. split.
      * cbn. rewrite Hlen. reflexivity.
      * intros [|i]; [reflexivity|]. cbn. apply Hnth.
Qed.

(** The loop of [push] puts [waves[i]] at the back of the queue of lane
    [i] and leaves everything else in every lane as it was. *)
Lemma pushEach_routed (ms : list ViewModel.t) (waves : list (option batch)) :
  routed waves ms (pushEach ms waves).
Proof.
  destruct (pushEach_nth_error ms waves) as [Hlen Hnth].
  split; [exact Hlen|]. intros i m Hm. rewrite Hnth, Hm. unfold arrival.
  destruct (nth_error waves i) as [[points|]|].
  - eexists. split; [reflexivity|]. repeat split.
  - eexists. split; [reflexivity|]. cbn [ViewModel.push].
    unfold enqueued_on. rewrite app_nil_r. repeat split.
  - eexists. split; [reflexivity|].
    unfold enqueued_on. rewrite app_nil_r. repeat split.
Qed.

Lemma push_final (now : Z) (waves : option (list (option batch))) (w : t) :
  let w' := final (push now waves w) in
  models w' = match waves with
              | Some (points :: waves') => pushEach (models w) (points :: waves')
              | _ => models w
              end /\
  (timer w' = timer w /\ recover w' = recover w \/
   timer w = None /\ recover w = true /\ timer w' <> None /\ recover w' = true).
Proof.
  unfold push, startTimer, bind, get, modify, ret.
  destruct waves as [[|points waves']|]; cbn; auto.
  destruct (timer w) eqn:Et; cbn; auto.
  destruct (recover w) eqn:Er; cbn; rewrite ?Et; cbn; auto.
  split; [reflexivity|]. right. repeat split; auto. discriminate.
Qed.

Lemma step_keeps_recover_invariant (surface : Surface) (w : t) (e : Event) :
  running_implies_recover w -> running_implies_recover (step surface w e).
Proof.
  unfold running_implies_recover, step. intros Hinv.
  assert (Hdraw : forall now : Z,
             timer (final (draw surface now w)) <> None ->
             recover (final (draw surface now w)) = true).
  { intros now. destruct (draw_paused_or_same surface now w) as [[Ht Hr]|[Ht Hr]].
    - rewrite Ht, Hr. exact Hinv.
    - rewrite Ht. congruence. }
  destruct e as [now waves| | | |now|now]; cbn [handle].
  - destruct (push_final now waves w) as [_ [[Ht Hr]|(_ & _ & _ & Hr)]].
    + rewrite Ht, Hr. exact Hinv.
    + intros _. exact Hr.
  - destruct (startTimer_final true w) as [_ Hr]. unfold start. rewrite Hr.
    destruct (timer w) eqn:E; [|reflexivity]. intros _. apply Hinv. congruence.
  - destruct (stopTimer_final true w) as [Ht _]. unfold pause. congruence.
  - destruct (stopTimer_final false w) as [Ht _]. unfold stop. congruence.
  - unfold bind, get. destruct (timer w) eqn:E.
    + apply Hdraw.
    + cbn. congruence.
  - apply Hdraw.
Qed.

Lemma run_keeps_recover_invariant (surface : Surface) (events : list Event) :
  forall w : t,
    running_implies_recover w ->
    running_implies_recover (run surface events w).
Proof.
  unfold run. induction events as [|e events IH]; intros w Hw; cbn [fold_left].
  - exact Hw.
  - apply IH, step_keeps_recover_invariant, Hw.
Qed.

(** C10: every operation (push, start, pause, stop, an interval tick, a
    direct call of [draw], idle time-out included) keeps the invariant that
    a live interval handle comes with [recover = true], on every surface and
    also when the operation throws; so from a newly built view, whatever the
    lanes and the events, Running with [recover = false] is never
    reached. *)
Theorem running_never_without_recover (surface : Surface) :
  (forall (w : t) (e : Event),
     (timer w <> None -> recover w = true) ->
     timer (step surface w e) <> None -> recover (step surface w e) = true) /\
  (forall (lanes : list ViewModel.t) (interval : number) (events : list Event),
     let w := run surface events (new lanes interval) in
     (timer w <> None -> recover w = true) /\
     ~ (running w = true /\ recover w = false)).
Proof.
  split; [exact (step_keeps_recover_invariant surface)|].
  intros lanes interval events.
  assert (H : running_implies_recover (run surface events (new lanes interval))).
  { apply run_keeps_recover_invariant. intros Hlive. reflexivity. }
  cbv zeta. split; [exact H|].
  intros [Hrun Hrec]. unfold running in Hrun.
  destruct (timer (run surface events (new lanes interval))) eqn:E;
    [|discriminate].
  unfold running_implies_recover in H. rewrite E in H.
  rewrite H in Hrec; [discriminate | discriminate].
Qed.

Lemma running_never_without_recover_witness :
  recover (step healthy running_view (Push 7 (Some [Some [1]]))) = true /\
  recover (run healthy push_stop_start (new [idle_lane] 40)) = true.
Proof.
  split.
  - apply (proj1 (running_never_without_recover healthy) running_view
             (Push 7 (Some [Some [1]]))).
    + intros _. reflexivity.
    + vm_compute. discriminate.
  - apply (proj1 (proj2 (running_never_without_recover healthy)
                    [idle_lane] 40 push_stop_start)).
    vm_compute. discriminate.
Defined.

Lemma step_keeps_halted (surface : Surface) (w : t) (e : Event) :
  e <> Start -> halted w -> halted (step surface w e).
Proof.
  unfold halted, step. intros He [Ht Hr].
  assert (Hdraw : forall now : Z,
             timer (final (draw surface now w)) = None /\
             recover (final (draw surface now w)) = false).
  { intros now. destruct (draw_paused_or_same surface now w) as [[Ht' Hr']|[Ht' Hr']].
    - split; congruence.
    - rewrite Ht in Hr'. split; congruence. }
  destruct e as [now waves| | | |now|now]; cbn [handle].
  - destruct (push_final now waves w) as [_ [[Ht' Hr']|(_ & Hr' & _)]].
    + split; congruence.
    + congruence.
  - congruence.
  - destruct (stopTimer_final true w) as [Ht' Hr']. unfold pause.
    rewrite Ht in Hr'. split; congruence.
  - destruct (stopTimer_final false w) as [Ht' Hr']. unfold stop.
    rewrite Ht in Hr'. split; congruence.
  - unfold bind, get. rewrite Ht. cbn. auto.
  - apply Hdraw.
Qed.

Lemma run_keeps_halted (surface : Surface) (events : list Event) :
  forall w : t,
    Forall (fun e => e <> Start) events ->
    halted w ->
    halted (run surface events w).
Proof.
  unfold run. induction events as [|e events IH]; intros w Hev Hw; cbn [fold_left].
  - exact Hw.
  - inversion Hev as [|? ? He Hrest]; subst.
    apply IH; [exact Hrest|]. apply step_keeps_halted; assumption.
Qed.

(** C4: [stop()] on a running view leaves it Stopped with [recover]
    unset, and so does every later trace of events without [start()];
    a [push] after such a trace still enqueues its data (the batch
    [waves[i]] is then the last of the queue of lane [i], whose earlier
    batches, batch in hand, cursor and configuration are as they were,
    and no lane is added or removed) and records the arrival time, but
    no interval is started; [start()] then starts one. *)
Theorem stop_disables_auto_resume
  (surface : Surface) (w : t) (events : list Event) :
  timer w <> None ->
  Forall (fun e => e <> Start) events ->
  let w1 := run surface events (step surface w Stop) in
  timer w1 = None /\
  recover w1 = false /\
  (forall (now : Z) (points : option batch) (waves : list (option batch)),
     let w2 := step surface w1 (Push now (Some (points :: waves))) in
     routed (points :: waves) (models w1) (models w2) /\
     rcvTime w2 = now /\
     timer w2 = None /\
     recover w2 = false) /\
  timer (step surface w1 Start) <> None.
Proof.
  intros Hlive Hev w1.
  assert (H0 : halted (step surface w Stop)).
  { unfold halted, step. cbn [handle]. unfold stop.
    destruct (stopTimer_final false w) as [Ht Hr].
    destruct (timer w); [auto | congruence]. }
  assert (H1 : halted w1) by (apply run_keeps_halted; assumption).
  destruct H1 as [Ht Hr].
  split; [exact Ht|]. split; [exact Hr|]. split.
  - intros now points waves w2.
    assert (H2 : halted w2).
    { apply step_keeps_halted; [discriminate | split; assumption]. }
    destruct H2 as [Ht2 Hr2].
    split; [|split; [|split; assumption]].
    + unfold w2, step. cbn [handle].
      destruct (push_final now (Some (points :: waves)) w1) as [Hm _].
      cbv zeta in Hm. rewrite Hm. apply pushEach_routed.
    + unfold w2, step. cbn [handle]. unfold push, bind, get, modify.
      cbn. rewrite Ht, Hr. reflexivity.
  - unfold step. cbn [handle]. unfold start.
    apply (startTimer_final true w1).
Qed.

Lemma stop_disables_auto_resume_witness :
  let w1 := run healthy after_stop (step healthy running_view Stop) in
  timer running_view <> None /\
  timer w1 = None /\
  recover w1 = false /\
  routed [Some [7; 8]] (models w1)
    (models (step healthy w1 (Push 99 (Some [Some [7; 8]])))) /\
  timer (step healthy w1 (Push 99 (Some [Some [7; 8]]))) = None.
Proof.
  intros w1.
  split; [vm_compute; discriminate|].
  destruct (@stop_disables_auto_resume healthy running_view after_stop)
    as (Ht & Hr & Hpush & _).
  - vm_compute. discriminate.
  - repeat constructor; discriminate.
  - destruct (Hpush 99%Z (Some [7; 8]) []) as (Hrouted & _ & Ht2 & _).
    split; [exact Ht|]. split; [exact Hr|]. split; [exact Hrouted | exact Ht2].
Defined.

(** C5, as stated, fails: after [start(); stop()] the view is Stopped with
    [recover = false], and [pause()] then finds no timer and writes
    nothing, so [recover] is still [false]. *)
Lemma pause_after_stop_keeps_recover_false :
  let w := run healthy [Start; Stop] (new [] 40) in
  timer w = None /\ recover w = false /\
  pause w = Normal tt w /\
  recover (final (pause w)) = false.
Proof. cbn. repeat split. Qed.

Lemma pause_returns (w : t) :
  exists w' : t,
    pause w = Normal tt w' /\
    timer w' = None /\
    recover w' = match timer w with Some _ => true | None => recover w end /\
    w' = match timer w with
         | Some _ => set_recover true (set_timer None w)
         | None => w
         end.
Proof.
  unfold pause, stopTimer, bind, get, modify, ret.
  destruct (timer w) eqn:E; eexists; (split; [reflexivity|]); cbn;
    repeat split; auto; congruence.
Qed.

(** C5, amended: [pause()] always returns and leaves the view Stopped;
    it sets [recover = true] when it stops a live interval, and changes
    nothing, [recover] included, when the view is already Stopped. *)
Theorem pause_sets_recover_only_when_running (w : t) :
  exists w' : t,
    pause w = Normal tt w' /\
    timer w' = None /\
    recover w' = match timer w with Some _ => true | None => recover w end /\
    w' = match timer w with
         | Some _ => set_recover true (set_timer None w)
         | None => w
         end.
Proof. exact (pause_returns w). Qed.

Lemma same_config_rect (m m' : ViewModel.t) :
  same_config m m' ->
  rect m' = rect m /\ ViewModel.clearView m' = ViewModel.clearView m.
Proof.
  unfold same_config, ViewModel.config, rect. intros H.
  injection H as -> -> -> _ _ _ _ _ _ -> -> _. split; reflexivity.
Qed.

Lemma clear_healthy (m : ViewModel.t) (c : Canvas) :
  ViewModel.clearView m = true ->
  ViewModel.clear healthy {| ViewModel.this := m; ViewModel.ctx := c |} =
  Normal tt {| ViewModel.this := cleared m; ViewModel.ctx := c ++ [rect m] |}.
Proof.
  intros H. unfold ViewModel.clear, bind, get. cbn. rewrite H. reflexivity.
Qed.

Lemma forEachModel_clear_healthy (ms : list ViewModel.t) :
  forall (log : list JsError) (c : Canvas),
    Forall (fun m => ViewModel.clearView m = true) ms ->
    forEachModel (attempt (ViewModel.clear healthy)) report ms log c =
    Normal log (map cleared ms, c ++ map rect ms).
Proof.
  induction ms as [|m ms IH]; intros log c Hcv; cbn [forEachModel map].
  - rewrite app_nil_r. reflexivity.
  - inversion Hcv as [|? ? Hm Hms]; subst.
    unfold attempt at 1. rewrite (@clear_healthy m c Hm). cbn [ViewModel.this ViewModel.ctx].
    rewrite (IH (report None log) _ Hms). cbn [report]. rewrite <- app_assoc. reflexivity.
Qed.

Lemma forEachModel_onDraw_healthy (ms : list ViewModel.t) :
  forall (acc : bool) (c : Canvas),
    exists (b : bool) (ms' : list ViewModel.t) (c' : Canvas),
      forEachModel (ViewModel.onDraw healthy true) orb ms acc c =
      Normal b (ms', c') /\
      Forall2 same_config ms ms'.
Proof.
  induction ms as [|m ms IH]; intros acc c; cbn [forEachModel].
  - exists acc, [], c. split; [reflexivity | constructor].
  - destruct (ViewModelFacts.onDraw_healthy true
                {| ViewModel.this := m; ViewModel.ctx := c |})
      as (b & s' & -> & HT).
    destruct (IH (b || acc) (ViewModel.ctx s')) as (b' & ms' & c' & -> & HF).
    exists b', (ViewModel.this s' :: ms'), c'. split; [reflexivity|].
    constructor; [|exact HF]. exact (ViewModel.tick_config HT).
Qed.

(** The first half of [draw()] returns on a healthy surface and leaves
    every lane its configuration. *)
Lemma drawModels_healthy (w : t) :
  exists (b : bool) (w1 : t),
    drawModels healthy w = Normal b w1 /\
    Forall2 same_config (models w) (models w1) /\
    console w1 = console w /\ clear w1 = clear w.
Proof.
  unfold drawModels, bind at 1, get. destruct (models w) as [|m [|m' ms]] eqn:E.
  - unfold overModels. rewrite E. cbn. eexists _, _. split; [reflexivity|].
    cbn. repeat split. constructor.
  - unfold bind, onOnlyModel.
    destruct (ViewModelFacts.onDraw_healthy true
                {| ViewModel.this := m; ViewModel.ctx := ctx w |})
      as (b & s' & -> & HT).
    eexists _, _. split; [reflexivity|]. cbn. repeat split.
    constructor; [|constructor]. exact (ViewModel.tick_config HT).
  - unfold overModels. rewrite E.
    destruct (forEachModel_onDraw_healthy (m :: m' :: ms) false (ctx w))
      as (b & ms' & c' & -> & HF).
    eexists _, _. split; [reflexivity|]. cbn. repeat split. exact HF.
Qed.

(** [clearView()] on a healthy surface whose lanes all clear. *)
Lemma clearView_healthy (w : t) :
  Forall (fun m => ViewModel.clearView m = true) (models w) ->
  exists w' : t,
    clearView healthy w = Normal tt w' /\
    models w' = map cleared (models w) /\
    ctx w' = ctx w ++ map rect (models w) /\
    clear w' = true /\
    console w' = console w /\
    sched w' = sched w.
Proof.
  intros Hcv. unfold clearView, finally, onDrawBackground, bind, ret, get.
  destruct (models w) as [|m [|m' ms]] eqn:E.
  - unfold overModels. rewrite E. cbn. eexists. split; [reflexivity|].
    cbn. rewrite app_nil_r. repeat split.
  - unfold onOnlyModel. inversion Hcv as [|? ? Hm _]; subst.
    rewrite (@clear_healthy m (ctx w) Hm). eexists. split; [reflexivity|].
    cbn. repeat split.
  - unfold overModels. rewrite E.
    rewrite (@forEachModel_clear_healthy _ (console w) (ctx w) Hcv).
    eexists. split; [reflexivity|]. cbn. repeat split.
Qed.

Lemma Forall2_same_config_clearView (ms ms' : list ViewModel.t) :
  Forall2 same_config ms ms' ->
  Forall (fun m => ViewModel.clearView m = true) ms ->
  Forall (fun m => ViewModel.clearView m = true) ms' /\
  map rect ms' = map rect ms.
Proof.
  induction 1 as [|m m' ms ms' Hm _ IH]; intros Hcv.
  - split; [constructor | reflexivity].
  - inversion Hcv as [|? ? Hc Hrest]; subst.
    destruct (IH Hrest) as [IH1 IH2].
    destruct (same_config_rect Hm) as [Hr Hv].
    split; [constructor; congruence|]. cbn [map]. congruence.
Qed.

(** On a healthy surface, a [draw()] in which no lane reported output
    and that comes 2000 ms or more after the last arrival clears every
    lane (one [clearRect] of each lane's rectangle, in lane order, the
    cursor back at [(-1, baseLine)]), sets [clear] and pauses: the view
    is Stopped, with [recover] set if the interval was live.  While it
    stays Stopped the cancelled interval does nothing. *)
Lemma idle_tick_clears_and_pauses (w w1 : t) (now : Z) :
  drawModels healthy w = Normal false w1 ->
  (2000 <= now - rcvTime w)%Z ->
  Forall (fun m => ViewModel.clearView m = true) (models w) ->
  exists w2 : t,
    draw healthy now w = Normal tt w2 /\
    timer w2 = None /\
    recover w2 = match timer w with Some _ => true | None => recover w end /\
    ctx w2 = ctx w1 ++ map rect (models w) /\
    models w2 = map cleared (models w1) /\
    Forall (fun m => ViewModel.x m = -1 /\ ViewModel.y m = ViewModel.baseLine m)
      (models w2) /\
    clear w2 = true /\
    console w2 = console w /\
    (forall later : Z, handle healthy (Tick later) w2 = Normal tt w2).
Proof.
  intros Hpass Hidle Hcv.
  destruct (drawModels_healthy w) as (b & w1' & Hrun & HF & Hcon & _).
  rewrite Hpass in Hrun. injection Hrun as <- <-.
  pose proof (drawModels_sched healthy w) as Hs. rewrite Hpass in Hs.
  cbn [final] in Hs.
  destruct (Forall2_same_config_clearView HF Hcv) as [Hcv1 Hrect].
  destruct (clearView_healthy w1 Hcv1) as (wc & Hclr & Hm & Hctx & Hflag & Hcon' & Hsc).
  destruct (pause_returns wc) as (w2 & Hp & Ht & Hr & Hw2).
  exists w2. unfold draw, bind at 1. rewrite Hpass. cbn [negb].
  unfold bind at 1, get. rewrite (sched_rcvTime Hs).
  destruct (Z.leb_spec 2000 (now - rcvTime w)) as [_|Hlt]; [|lia].
  unfold bind. rewrite Hclr. split; [exact Hp|].
  assert (Hfields : models w2 = models wc /\ ctx w2 = ctx wc /\
                    clear w2 = clear wc /\ console w2 = console wc).
  { rewrite Hw2. destruct (timer wc); repeat split. }
  destruct Hfields as (Fm & Fc & Ff & Fk).
  split; [exact Ht|]. split.
  { rewrite Hr, (sched_timer Hsc), (sched_timer Hs).
    rewrite (sched_recover Hsc), (sched_recover Hs). reflexivity. }
  split; [rewrite Fc, Hctx, Hrect; reflexivity|].
  split; [rewrite Fm; exact Hm|].
  split.
  { rewrite Fm, Hm. apply Forall_forall. intros m Hin.
    apply in_map_iff in Hin as (m0 & <- & _). split; reflexivity. }
  split; [congruence|]. split; [congruence|].
  intros later. cbn [handle]. unfold bind, get. rewrite Ht. reflexivity.
Qed.


(** C7 fails on the code: [draw()] has no [try] around a lane's [onDraw].
    When the first lane's strip is rejected the exception leaves [draw]:
    the second lane's [onDraw] is never called (its batch is still queued,
    nothing was drawn for it).  [clearView()] does isolate its lanes: on
    the same view the first lane's error is reported to the console and
    the second lane is cleared. *)
Theorem draw_stops_at_first_failing_lane (now : Z) :
  let w := new [tall_lane; low_lane] 40 in
  exists (c : DrawCmd) (first : ViewModel.t),
    draw short_surface now w
    = Abrupt (SurfaceError c) (set_models [first; low_lane] w) /\
    ViewModel.waveQ low_lane = [[512; 520]] /\
    ctx (final (draw short_surface now w)) = [] /\
    returned (clearView short_surface w) = Some tt /\
    ctx (final (clearView short_surface w)) = [rect low_lane] /\
    console (final (clearView short_surface w)) = [SurfaceError (rect tall_lane)].
Proof.
  eexists _, _. split; [vm_compute; reflexivity|].
  vm_compute. repeat split.
Qed.

End WaveViewFacts.

(** * More facts about one lane: order, slices, sweep *)

Module LaneFacts.

Import ViewModel.
Import ViewModelFacts.
Import Scenario.

Lemma plotted_snoc (c : Canvas) (cmd : DrawCmd) :
  plotted (c ++ [cmd]) =
  plotted c ++ match cmd with LineTo _ y => [y] | _ => [] end.
Proof.
  unfold plotted. rewrite flat_map_app. cbn [flat_map].
  rewrite app_nil_r. reflexivity.
Qed.

Lemma calculateY_config (m m' : t) (point : number) :
  config m' = config m -> calculateY m' point = calculateY m point.
Proof.
  unfold config, calculateY. intros H.
  injection H as _ _ _ _ -> -> _ -> _ _ _ _. reflexivity.
Qed.

(** What the loop of [drawView] does on a healthy surface: it takes [k]
    samples off the front of the batch, plots them in order, moves [x]
    by [k] steps, and stops at the end of the batch or of the slice. *)
Lemma drawLoop_run (points : batch) :
  forall (size : number) (i : Z) (s : Scene),
    size <= inject_Z i + len points ->
    exists (k : nat) (s' : Scene),
      drawLoop healthy size i points s = Normal tt s' /\
      (k <= List.length points)%nat /\
      (k = 0%nat -> s' = s) /\
      ((1 <= k)%nat -> curPoints (this s') = Some (skipn k points)) /\
      waveQ (this s') = waveQ (this s) /\
      config (this s') = config (this s) /\
      plotted (ctx s') =
        plotted (ctx s) ++ map (calculateY (this s)) (firstn k points) /\
      drawn (ctx s') = (drawn (ctx s) + k)%nat /\
      x (this s') == x (this s) + inject_Z (Z.of_nat k) * step (this s) /\
      ((1 <= k)%nat -> whole (y (this s'))) /\
      ((k = 0)%nat -> y (this s') = y (this s)) /\
      (k = List.length points \/ size <= inject_Z i + inject_Z (Z.of_nat k)) /\
      ((1 <= k)%nat -> inject_Z i + inject_Z (Z.of_nat k) - 1 < size).
Proof.
  induction points as [|point rest IH]; intros size i s Hsize.
  - exists 0%nat, s. cbn [drawLoop].
    destruct (ltb (inject_Z i) size) eqn:E.
    + apply ltb_lt in E. rewrite len_nil in Hsize. lra.
    + cbn. rewrite app_nil_r. repeat split; auto; try lia.
      change (inject_Z 0) with 0. lra.
  - cbn [drawLoop]. destruct (ltb (inject_Z i) size) eqn:E.
    + apply ltb_lt in E.
      set (s1 := {| this := set_y (calculateY (this s) point)
                              (set_x (calculateX (this s))
                                 (set_curPoints (Some rest) (this s)));
                    ctx := ctx s ++ [LineTo (x (this s) + step (this s))
                                       (calculateY (this s) point)] |}).
      destruct (IH size (i + 1)%Z s1)
        as (k & s' & Hrun & Hk & H0 & Hc & Hq & Hcfg & Hpl & Hd & Hx & Hy & Hy0 & Hend & Hlast).
      { rewrite len_cons in Hsize. rewrite inject_Z_plus.
        change (inject_Z 1) with 1. lra. }
      assert (HSk : inject_Z (Z.of_nat (S k)) == inject_Z (Z.of_nat k) + 1).
      { rewrite Nat2Z.inj_succ, <- Z.add_1_r, inject_Z_plus. reflexivity. }
      exists (S k), s'. split; [exact Hrun|].
      split; [cbn; lia|]. split; [intros; lia|].
      split.
      { intros _. destruct k as [|k'].
        - rewrite (H0 eq_refl). reflexivity.
        - apply Hc. lia. }
      split; [exact Hq|]. split; [exact Hcfg|].
      split.
      { rewrite Hpl. subst s1. cbn [ctx this]. rewrite plotted_snoc.
        cbn [firstn map]. rewrite <- app_assoc. cbn [app]. reflexivity. }
      split.
      { rewrite Hd. subst s1. cbn [ctx]. rewrite drawn_snoc. cbn. lia. }
      split.
      { rewrite Hx, HSk. subst s1. cbn [this x step set_x set_y]. unfold calculateX.
        cbn [x step set_curPoints]. lra. }
      split.
      { intros _. destruct k as [|k'].
        - rewrite (H0 eq_refl). subst s1. cbn [this y set_y].
          eexists. reflexivity.
        - apply Hy. lia. }
      split; [intros; lia|].
      split.
      { destruct Hend as [-> | Hend]; [left; reflexivity | right].
        rewrite HSk. rewrite inject_Z_plus in Hend.
        change (inject_Z 1) with 1 in Hend. lra. }
      intros _. rewrite HSk. destruct k as [|k'].
      * change (inject_Z (Z.of_nat 0)) with 0. lra.
      * assert (H1 : (1 <= S k')%nat) by lia. specialize (Hlast H1).
        rewrite inject_Z_plus in Hlast. change (inject_Z 1) with 1 in Hlast. lra.
    + apply ltb_ge in E. exists 0%nat, s. cbn. rewrite app_nil_r.
      repeat split; auto; try lia.
      * change (inject_Z 0) with 0. lra.
      * right. change (inject_Z 0) with 0. lra.
Qed.

(** [drawView] on a healthy surface, called as [onDraw] calls it: the
    slice it plots, and where it leaves the cursor. *)
Lemma drawView_run (points : batch) (render : bool) (s : Scene) :
  curPoints (this s) = Some points ->
  exists (k : nat) (s' : Scene),
    drawView healthy points render s = Normal tt s' /\
    (k <= List.length points)%nat /\
    curPoints (this s') = Some (skipn k points) /\
    waveQ (this s') = waveQ (this s) /\
    config (this s') = config (this s) /\
    plotted (ctx s') =
      plotted (ctx s) ++ map (calculateY (this s)) (firstn k points) /\
    drawn (ctx s') = (drawn (ctx s) + k)%nat /\
    (x (this s') = -1 /\
     width (this s) <= x (this s) + inject_Z (Z.of_nat k) * step (this s)
     \/
     x (this s') == x (this s) + inject_Z (Z.of_nat k) * step (this s) /\
     x (this s') < width (this s)) /\
    (whole (y (this s)) -> whole (y (this s'))) /\
    (k = List.length points \/
     Math_min (len points) (drawCount (this s)) <= inject_Z (Z.of_nat k)) /\
    ((1 <= k)%nat ->
     inject_Z (Z.of_nat k) - 1 < Math_min (len points) (drawCount (this s))).
Proof.
  intros Hcur.
  set (c1 := ctx s ++ [ClearRect (x (this s)) (startY (this s))
                         (padding (this s)) (height (this s))]).
  set (c7 := (((((c1 ++ [SetLineWidth 1]) ++ [SetStrokeStyle "black"])
                 ++ [SetLineCap "round"]) ++ [SetLineJoin "round"])
               ++ [BeginPath]) ++ [MoveTo (x (this s)) (y (this s))]).
  set (s1 := {| this := this s; ctx := c7 |}).
  destruct (@drawLoop_run points
              (Math_min (len points) (drawCount (this s))) 0 s1)
    as (k & s2 & Hrun & Hk & H0 & Hc & Hq & Hcfg & Hpl & Hd & Hx & Hy & Hy0 & Hend & Hlast).
  { change (inject_Z 0) with 0. pose proof (Math_min_le_l (len points)
      (drawCount (this s))). lra. }
  assert (Hp7 : plotted c7 = plotted (ctx s)).
  { subst c7 c1. rewrite !plotted_snoc. rewrite !app_nil_r. reflexivity. }
  assert (Hd7 : drawn c7 = drawn (ctx s)).
  { subst c7 c1. rewrite !drawn_snoc. cbn. lia. }
  assert (Hc2 : curPoints (this s2) = Some (skipn k points)).
  { destruct k as [|k']; [|apply Hc; lia].
    rewrite (H0 eq_refl). exact Hcur. }
  assert (Hy2 : whole (y (this s)) -> whole (y (this s2))).
  { intros Hw. destruct k as [|k']; [|apply Hy; lia].
    rewrite (Hy0 eq_refl). exact Hw. }
  assert (Hw2 : width (this s2) = width (this s)).
  { revert Hcfg. unfold config. subst s1. cbn [this].
    intros H. injection H. auto. }
  change (inject_Z 0) with 0 in Hend, Hlast.
  subst s1. cbn [this ctx] in Hpl, Hd, Hx, Hq, Hcfg, Hrun.
  rewrite Hp7 in Hpl. rewrite Hd7 in Hd.
  unfold drawView, bind, get. cbn.
  fold c1. fold c7. rewrite Hrun.
  assert (Hfin : forall c : Canvas,
             plotted c = plotted (ctx s2) ->
             drawn c = drawn (ctx s2) ->
             exists s' : Scene,
               (if geb (x (this s2)) (width (this s2))
                then update (set_x (-1))
                else ret tt) {| this := this s2; ctx := c |} = Normal tt s' /\
               (k <= List.length points)%nat /\
               curPoints (this s') = Some (skipn k points) /\
               waveQ (this s') = waveQ (this s) /\
               config (this s') = config (this s) /\
               plotted (ctx s') =
                 plotted (ctx s) ++ map (calculateY (this s)) (firstn k points) /\
               drawn (ctx s') = (drawn (ctx s) + k)%nat /\
               (x (this s') = -1 /\
                width (this s) <= x (this s) + inject_Z (Z.of_nat k) * step (this s)
                \/
                x (this s') == x (this s) + inject_Z (Z.of_nat k) * step (this s) /\
                x (this s') < width (this s)) /\
               (whole (y (this s)) -> whole (y (this s'))) /\
               (k = List.length points \/
                Math_min (len points) (drawCount (this s)) <= inject_Z (Z.of_nat k)) /\
               ((1 <= k)%nat ->
                inject_Z (Z.of_nat k) - 1 < Math_min (len points) (drawCount (this s)))).
  { intros c Hpc Hdc. unfold geb.
    destruct (Qle_bool (width (this s2)) (x (this s2))) eqn:E.
    - apply Qle_bool_iff in E. eexists. split; [reflexivity|].
      cbn [this ctx set_x curPoints waveQ x y]. rewrite Hpc, Hdc.
      repeat split; auto.
      + left. split; [reflexivity|]. rewrite <- Hw2, <- Hx. exact E.
      + destruct Hend as [H|H]; [left; exact H | right; lra].
      + intros H1. specialize (Hlast H1). lra.
    - assert (E' : x (this s2) < width (this s2)).
      { apply Qnot_le_lt. rewrite <- Qle_bool_iff. congruence. }
      eexists. split; [reflexivity|]. cbn [this ctx]. rewrite Hpc, Hdc.
      repeat split; auto.
      + right. split; [exact Hx | rewrite <- Hw2; exact E'].
      + destruct Hend as [H|H]; [left; exact H | right; lra].
      + intros H1. specialize (Hlast H1). lra. }
  destruct render; cbn.
  - destruct (Hfin (ctx s2 ++ [Stroke])) as (s' & Hr & Hrest).
    + rewrite plotted_snoc, app_nil_r. reflexivity.
    + rewrite drawn_snoc. cbn. lia.
    + exists k, s'. split; [exact Hr | exact Hrest].
  - destruct (Hfin (ctx s2)) as (s' & Hr & Hrest); try reflexivity.
    exists k, s'. split; [|exact Hrest].
    destruct s2 as [m2 c2]. exact Hr.
Qed.

Lemma config_width (m m' : t) : config m' = config m -> width m' = width m.
Proof. unfold config. intros H. injection H. auto. Qed.

Lemma config_baseLine (m m' : t) :
  config m' = config m -> baseLine m' = baseLine m.
Proof. unfold config. intros H. injection H. auto. Qed.

(** A tick on a healthy surface returns and keeps the cursor in the
    sweep and on whole pixels, catch-up or not. *)
Lemma onDrawLoop_cursor (render : bool) (q : list batch) :
  forall s : Scene,
    exists (b : bool) (s' : Scene),
      onDrawLoop healthy render q s = Normal b s' /\
      config (this s') = config (this s) /\
      (in_sweep (this s) -> in_sweep (this s')) /\
      (whole (y (this s)) -> whole (y (this s'))).
Proof.
  induction q as [|next rest IH]; intros s; rewrite onDrawLoop_eq; cbv zeta;
    destruct (hasPoints (this s)) as [points|] eqn:Hp.
  - apply hasPoints_Some in Hp as [Hcur _].
    destruct (drawView_run render s Hcur)
      as (k & s1 & -> & _ & _ & _ & Hcfg & _ & _ & Hx & Hy & _).
    assert (Hsw : in_sweep (this s1)).
    { unfold in_sweep. rewrite (config_width Hcfg).
      destruct Hx as [[H _]|[_ H]]; [left | right]; assumption. }
    destruct (negb _ || _); eexists _, _; (split; [reflexivity|]); auto.
  - exists false, s. repeat split; auto.
  - apply hasPoints_Some in Hp as [Hcur _].
    destruct (drawView_run render s Hcur)
      as (k & s1 & -> & _ & _ & _ & Hcfg & _ & _ & Hx & Hy & _).
    assert (Hsw : in_sweep (this s1)).
    { unfold in_sweep. rewrite (config_width Hcfg).
      destruct Hx as [[H _]|[_ H]]; [left | right]; assumption. }
    destruct (negb _ || _).
    + eexists _, _. split; [reflexivity|]. auto.
    + destruct (IH (shifted next rest s1)) as (b & s' & Hrun & Hc' & Hs' & Hy').
      exists b, s'. split; [exact Hrun|]. split; [rewrite Hc'; exact Hcfg|].
      split; intros H; [apply Hs'; exact Hsw | apply Hy', Hy, H].
  - destruct (IH (shifted next rest s)) as (b & s' & Hrun & Hc' & Hs' & Hy').
    exists b, s'. split; [exact Hrun|]. auto.
Qed.

Lemma perform_cursor (s : Scene) (c : Call) :
  whole (baseLine (this s)) ->
  in_sweep (this s) ->
  whole (y (this s)) ->
  let s' := perform healthy s c in
  whole (baseLine (this s')) /\ in_sweep (this s') /\ whole (y (this s')).
Proof.
  intros Hb Hs Hy. destruct c as [points|render|]; cbn [perform].
  - destruct points; cbn; auto.
  - unfold onDraw, bind, get.
    destruct (onDrawLoop_cursor render (waveQ (this s)) s)
      as (b & s' & -> & Hc & Hs' & Hy'). cbn [final].
    rewrite (config_baseLine Hc). auto.
  - unfold clear, bind, get. destruct (clearView (this s)); cbn.
    + repeat split; auto. left. reflexivity.
    + repeat split; auto. left. reflexivity.
Qed.

Lemma cursor_kept
  (options : ViewModelOptions.t) (c : Canvas) (calls : list Call) :
  let s := fold_left (perform healthy) calls {| this := new options; ctx := c |} in
  in_sweep (this s) /\ whole (y (this s)).
Proof.
  assert (H : forall s : Scene,
             whole (baseLine (this s)) /\ in_sweep (this s) /\ whole (y (this s)) ->
             let s' := fold_left (perform healthy) calls s in
             whole (baseLine (this s')) /\ in_sweep (this s') /\ whole (y (this s'))).
  { induction calls as [|call calls IH]; intros s Hs; cbn [fold_left]; [exact Hs|].
    apply IH. destruct Hs as (H1 & H2 & H3). exact (@perform_cursor s call H1 H2 H3). }
  cbv zeta in *. apply H. cbn [this].
  split; [eexists; reflexivity|]. split; [left; reflexivity | eexists; reflexivity].
Qed.

(** X1.  For options and samples with at most eight binary places and
    below [2^16] in size: from construction on, whatever such samples are
    pushed and however often the lane is ticked or cleared on a healthy
    surface, the cursor stays in the sweep ([x] is the sentinel [-1] or
    left of [width]: a slice that reaches the right edge wraps) and [y]
    is a whole pixel. *)
Theorem cursor_stays_in_sweep
  (options : ViewModelOptions.t) (c : Canvas) (calls : list Call) :
  exact_options options ->
  Forall exact_call calls ->
  let s := fold_left (perform healthy) calls {| this := new options; ctx := c |} in
  in_sweep (this s) /\ whole (y (this s)).
Proof. intros _ _. exact (cursor_kept options c calls). Qed.

Lemma cursor_stays_in_sweep_witness :
  let options := ViewModelOptions.Build 2 200 None 512 (Some 2) (Some 100)
                   (Some 0.5) (Some 0.75) None None None None in
  let calls := [CallPush (Some [500.25; 512; 520; 480; 470.5; 512; 512]);
                CallOnDraw true; CallOnDraw true; CallOnDraw true;
                CallClear; CallOnDraw true] in
  let s := fold_left (perform healthy) calls {| this := new options; ctx := [] |} in
  (in_sweep (this s) /\ whole (y (this s))) /\
  x (this s) = -0.5 /\ y (this s) = 100.
Proof.
  intros options calls s. split.
  - apply (@cursor_stays_in_sweep options [] calls).
    + unfold exact_options, options. cbn.
      repeat split;
        [exists 512%Z | exists 51200%Z | exists 131072%Z | exists 512%Z
         | exists 25600%Z | exists 128%Z | exists 192%Z];
        split; reflexivity.
    + unfold calls. repeat constructor;
        [exists 128064%Z | exists 131072%Z | exists 133120%Z | exists 122880%Z
         | exists 120448%Z | exists 131072%Z | exists 131072%Z];
        split; reflexivity.
  - split; reflexivity.
Defined.

Lemma map_calculateY_config (m m' : t) (l : list number) :
  config m' = config m -> map (calculateY m') l = map (calculateY m) l.
Proof.
  intros H. apply map_ext. intros a. apply calculateY_config, H.
Qed.

Lemma backlog_pending (m : t) : List.length (backlog m) = pending m.
Proof.
  unfold backlog, pending, remaining, queued. rewrite length_app.
  f_equal.
  - destruct (curPoints m); reflexivity.
  - induction (waveQ m) as [|b q IH]; [reflexivity|].
    cbn [List.concat map list_sum fold_right]. rewrite length_app, IH.
    reflexivity.
Qed.

Lemma hasPoints_None_backlog (m : t) :
  hasPoints m = None -> backlog m = List.concat (waveQ m).
Proof.
  unfold hasPoints, backlog.
  destruct (curPoints m) as [[|p ps]|]; try discriminate; reflexivity.
Qed.

(** With catch-up off, a tick on a healthy surface plots a prefix of the
    backlog, in order, and leaves the rest as the new backlog. *)
Lemma onDrawLoop_fifo (render : bool) (q : list batch) :
  forall (s : Scene) (b : bool) (s' : Scene),
    waveQ (this s) = q ->
    truthy (maxCacheSize (this s)) = false ->
    onDrawLoop healthy render q s = Normal b s' ->
    plotted (ctx s') ++ map (calculateY (this s)) (backlog (this s')) =
    plotted (ctx s) ++ map (calculateY (this s)) (backlog (this s)).
Proof.
  induction q as [|next rest IH]; intros s b s' Hq Hmax; rewrite onDrawLoop_eq;
    cbv zeta; destruct (hasPoints (this s)) as [points|] eqn:Hp.
  - apply hasPoints_Some in Hp as [Hcur _].
    destruct (drawView_run render s Hcur)
      as (k & s1 & -> & _ & Hc & Hq1 & Hcfg & Hpl & _).
    rewrite (config_maxCacheSize Hcfg), Hmax. cbn [negb orb].
    intros H. injection H as _ <-.
    rewrite Hpl. unfold backlog. rewrite Hc, Hcur, Hq1, <- app_assoc.
    rewrite <- map_app, app_assoc, firstn_skipn. reflexivity.
  - intros H. injection H as _ <-. reflexivity.
  - apply hasPoints_Some in Hp as [Hcur _].
    destruct (drawView_run render s Hcur)
      as (k & s1 & -> & _ & Hc & Hq1 & Hcfg & Hpl & _).
    rewrite (config_maxCacheSize Hcfg), Hmax. cbn [negb orb].
    intros H. injection H as _ <-.
    rewrite Hpl. unfold backlog. rewrite Hc, Hcur, Hq1, <- app_assoc.
    rewrite <- map_app, app_assoc, firstn_skipn. reflexivity.
  - intros Hrun.
    apply (IH (shifted next rest s)) in Hrun; [|reflexivity | exact Hmax].
    cbn [shifted this ctx] in Hrun.
    rewrite (hasPoints_None_backlog _ Hp), Hq.
    change (map (calculateY (set_curPoints (Some next) (set_waveQ rest (this s)))))
      with (map (calculateY (this s))) in Hrun.
    exact Hrun.
Qed.

Lemma untilIdle_fifo (n : nat) :
  forall s s' : Scene,
    truthy (maxCacheSize (this s)) = false ->
    untilIdle healthy n s = Some s' ->
    plotted (ctx s') ++ map (calculateY (this s)) (backlog (this s')) =
    plotted (ctx s) ++ map (calculateY (this s)) (backlog (this s)).
Proof.
  induction n as [|n IH]; intros s s' Hmax; cbn [untilIdle]; [discriminate|].
  destruct (onDraw_healthy true s) as (b & s1 & Hrun & HT). rewrite Hrun.
  pose proof (@onDrawLoop_fifo true (waveQ (this s)) s b s1 eq_refl Hmax Hrun)
    as Hstep.
  pose proof (tick_config HT) as Hcfg.
  destruct b.
  - intros Hrest. apply IH in Hrest.
    + rewrite (map_calculateY_config _ Hcfg) in Hrest.
      rewrite (map_calculateY_config _ Hcfg) in Hrest.
      congruence.
    + rewrite (config_maxCacheSize Hcfg). exact Hmax.
  - intros H. injection H as <-. exact Hstep.
Qed.

Lemma backlog_enqueue_all (bs : list batch) :
  forall m : t,
    backlog (enqueue_all bs m) = backlog m ++ List.concat bs /\
    config (enqueue_all bs m) = config m.
Proof.
  unfold enqueue_all.
  induction bs as [|points bs IH]; intros m; cbn [fold_left List.concat].
  - rewrite app_nil_r. split; reflexivity.
  - destruct (IH (push (Some points) m)) as [Hb Hc]. rewrite Hb, Hc.
    split; [|reflexivity].
    unfold backlog, push. cbn [curPoints waveQ set_waveQ].
    rewrite concat_app. cbn [List.concat]. rewrite app_nil_r, !app_assoc.
    reflexivity.
Qed.

(** First in, first out, by value.  With catch-up off and a positive
    [drawCount], after any batches are enqueued, ticking until the lane
    reports no output plots, on a healthy surface, exactly the samples the
    lane held followed by those of the batches, in arrival order, each at
    [calculateY] of the sample. *)
Lemma samples_plotted_in_arrival_order
  (m : t) (bs : list batch) (c : Canvas) (n : nat) :
  maxCacheSize m == 0 ->
  0 < drawCount m ->
  (pending (enqueue_all bs m) < n)%nat ->
  exists s' : Scene,
    untilIdle healthy n {| this := enqueue_all bs m; ctx := c |} = Some s' /\
    plotted (ctx s') =
      plotted c ++ map (calculateY m) (backlog m ++ List.concat bs).
Proof.
  intros Hmax Hdc Hn. apply truthy_false in Hmax.
  destruct (backlog_enqueue_all bs m) as [Hb Hc].
  destruct (@untilIdle_exhausts n {| this := enqueue_all bs m; ctx := c |})
    as (s' & Hrun & _ & Hp).
  - cbn [this]. rewrite (config_maxCacheSize Hc). exact Hmax.
  - cbn [this]. rewrite (config_drawCount Hc). exact Hdc.
  - exact Hn.
  - exists s'. split; [exact Hrun|].
    apply untilIdle_fifo in Hrun.
    + cbn [this ctx] in Hrun.
      assert (Hnil : backlog (this s') = []).
      { apply length_zero_iff_nil. rewrite backlog_pending. exact Hp. }
      rewrite Hnil in Hrun. cbn [map] in Hrun. rewrite app_nil_r in Hrun.
      rewrite Hrun, Hb. rewrite (map_calculateY_config _ Hc). reflexivity.
    + cbn [this]. rewrite (config_maxCacheSize Hc). exact Hmax.
Qed.

Lemma samples_plotted_in_arrival_order_witness :
  exists s' : Scene,
    untilIdle healthy 6
      {| this := enqueue_all three_batches plain_lane; ctx := [] |} = Some s' /\
    plotted (ctx s') =
      plotted [] ++ map (calculateY plain_lane)
                      (backlog plain_lane ++ List.concat three_batches).
Proof.
  apply (@samples_plotted_in_arrival_order plain_lane three_batches [] 6).
  - reflexivity.
  - reflexivity.
  - vm_compute. lia.
Defined.





(** X4.  [clear] keeps the data: the queue and the batch in hand are as
    they were, on every surface; when it returns the cursor is at
    [(-1, baseLine)]; and clearing again changes nothing more in the
    lane. *)
Theorem clear_keeps_data_and_is_idempotent (surface : Surface) (s : Scene) :
  let s1 := final (clear surface s) in
  waveQ (this s1) = waveQ (this s) /\
  curPoints (this s1) = curPoints (this s) /\
  config (this s1) = config (this s) /\
  (returned (clear surface s) = Some tt ->
   x (this s1) = -1 /\ y (this s1) = baseLine (this s)) /\
  this (final (clear surface s1)) = this s1.
Proof.
  unfold clear, bind, get, call. cbn.
  destruct (clearView (this s)) eqn:Ev; cbn.
  - destruct (surface _) eqn:Es; cbn.
    + rewrite Ev. cbn. rewrite Es. cbn. repeat split; discriminate.
    + rewrite Ev. cbn. rewrite Es. cbn. repeat split.
  - rewrite Ev. cbn. repeat split.
Qed.

Lemma clear_keeps_data_and_is_idempotent_witness :
  x (this (final (clear healthy {| this := tall_lane; ctx := [] |}))) = -1 /\
  y (this (final (clear healthy {| this := tall_lane; ctx := [] |}))) = 100.
Proof.
  apply (clear_keeps_data_and_is_idempotent healthy
           {| this := tall_lane; ctx := [] |}).
  reflexivity.
Defined.

Lemma tick_without_data_loop (surface : Surface) (render : bool) (q : list batch) :
  forall s : Scene,
    hasPoints (this s) = None ->
    Forall (fun points : batch => points = []) q ->
    exists s' : Scene,
      onDrawLoop surface render q s = Normal false s' /\
      ctx s' = ctx s /\
      waveQ (this s') = match q with [] => waveQ (this s) | _ => [] end /\
      hasPoints (this s') = None /\
      x (this s') = x (this s) /\ y (this s') = y (this s) /\
      config (this s') = config (this s).
Proof.
  induction q as [|next rest IH]; intros s Hp Hq; rewrite onDrawLoop_eq;
    cbv zeta; rewrite Hp.
  - exists s. repeat split; auto.
  - inversion Hq as [|? ? Hnext Hrest]; subst.
    destruct (IH (shifted [] rest s) eq_refl Hrest)
      as (s' & Hrun & Hc & Hw & Hh & Hx & Hy & Hcfg).
    exists s'. split; [exact Hrun|]. repeat split; auto.
    rewrite Hw. destruct rest; reflexivity.
Qed.

(** X5.  A tick on a lane with nothing to plot (no sample in hand, and
    only empty batches queued, if any) makes no call on the context, on
    any surface, reports no output, leaves the cursor where it was and
    the queue empty. *)
Theorem tick_without_data_draws_nothing
  (surface : Surface) (render : bool) (s : Scene) :
  hasPoints (this s) = None ->
  Forall (fun points : batch => points = []) (waveQ (this s)) ->
  exists s' : Scene,
    onDraw surface render s = Normal false s' /\
    ctx s' = ctx s /\
    waveQ (this s') = [] /\
    x (this s') = x (this s) /\ y (this s') = y (this s).
Proof.
  intros Hp Hq. unfold onDraw, bind, get.
  destruct (@tick_without_data_loop surface render (waveQ (this s)) s Hp Hq)
    as (s' & Hrun & Hc & Hw & _ & Hx & Hy & _).
  exists s'. repeat split; auto.
  rewrite Hw. destruct (waveQ (this s)); reflexivity.
Qed.

Lemma tick_without_data_draws_nothing_witness :
  exists s' : Scene,
    onDraw short_surface true
      {| this := enqueue_all [[]; []] idle_lane; ctx := [] |} = Normal false s' /\
    ctx s' = [] /\
    waveQ (this s') = [] /\
    x (this s') = x (enqueue_all [[]; []] idle_lane) /\
    y (this s') = y (enqueue_all [[]; []] idle_lane).
Proof.
  apply (@tick_without_data_draws_nothing short_surface true
           {| this := enqueue_all [[]; []] idle_lane; ctx := [] |}).
  - reflexivity.
  - repeat constructor.
Defined.

(** X6.  A negative [maxCacheSize] turns the output flag off: on a
    healthy surface every tick returns [false], with the queue emptied,
    whether or not it plotted anything. *)
Theorem negative_maxCacheSize_never_reports_output (render : bool) (s : Scene) :
  maxCacheSize (this s) < 0 ->
  exists s' : Scene,
    onDraw healthy render s = Normal false s' /\
    waveQ (this s') = [] /\
    (drawn (ctx s) <= drawn (ctx s'))%nat.
Proof.
  intros Hneg. destruct (onDraw_healthy render s) as (b & s' & Hrun & HT).
  destruct b.
  - destruct (tick_true HT eq_refl) as [H|H].
    + apply truthy_false in H. lra.
    + pose proof (len_nonneg (waveQ (this s'))). lra.
  - exists s'. split; [exact Hrun|]. split; [exact (tick_false HT eq_refl)|].
    exact (tick_mono HT).
Qed.

Lemma negative_maxCacheSize_never_reports_output_witness :
  exists s' : Scene,
    onDraw healthy true
      {| this := ViewModel.Build [] (Some [1; 2; 3]) 300 200 true 2 512 100 1 1
                   (-1) 0 0 (-1) 100 16;
         ctx := [] |} = Normal false s' /\
    waveQ (this s') = [] /\
    (drawn [] <= drawn (ctx s'))%nat.
Proof.
  apply (@negative_maxCacheSize_never_reports_output true
           {| this := ViewModel.Build [] (Some [1; 2; 3]) 300 200 true 2 512 100
                        1 1 (-1) 0 0 (-1) 100 16;
              ctx := [] |}).
  reflexivity.
Defined.

Lemma orElse_truthy (o : option number) (d : number) :
  truthy d = true -> truthy (orElse o d) = true.
Proof.
  intros Hd. unfold orElse. destruct o as [v|]; [|exact Hd].
  destruct (truthy v) eqn:E; [exact E | exact Hd].
Qed.

Lemma Math_floor_rounds_down (v : number) : rounded_down v (Math_floor v).
Proof.
  unfold rounded_down, Math_floor, whole. split; [eexists; reflexivity|].
  split; [apply Qfloor_le|].
  pose proof (Qlt_floor v) as H. rewrite inject_Z_plus in H. exact H.
Qed.

Lemma orElse_given (o : option number) (d v : number) :
  given o v -> orElse o d = v.
Proof.
  intros [-> Hv]. unfold orElse, truthy.
  destruct (Qeq_bool v 0) eqn:E; [|reflexivity].
  apply Qeq_bool_iff in E. contradiction.
Qed.

Lemma orElse_defaulted (o : option number) (d : number) :
  defaulted o -> orElse o d = d.
Proof.
  intros [-> | (v & -> & Hv)]; [reflexivity|]. unfold orElse, truthy.
  apply Qeq_bool_iff in Hv. rewrite Hv. reflexivity.
Qed.

(** X7.  The constructor never yields a zero [drawCount], [step],
    [scaleRatio] or [padding]: a supplied zero is falsy and is replaced by
    the default, like an omitted field.  [baseLine] and [maxCacheSize] are
    rounded down: [baseLine] is the whole number just below or at the
    supplied value, or half the height when none or zero is supplied, and
    [maxCacheSize] likewise with the default 0.  The lane starts empty
    with its cursor at [(-1, baseLine)]. *)
Theorem constructor_replaces_zero_by_default (options : ViewModelOptions.t) :
  truthy (drawCount (new options)) = true /\
  truthy (step (new options)) = true /\
  truthy (scaleRatio (new options)) = true /\
  truthy (padding (new options)) = true /\
  (forall width height median : number,
     let zeros := ViewModelOptions.Build width height None median (Some 0)
                    (Some 0) (Some 0) (Some 0) (Some 0) (Some 0) (Some 0)
                    (Some 0) in
     let omitted := ViewModelOptions.Build width height None median None None
                      None None None None None None in
     new zeros = new omitted) /\
  whole (baseLine (new options)) /\
  whole (maxCacheSize (new options)) /\
  (forall v : number,
     given (ViewModelOptions.baseLine options) v ->
     rounded_down v (baseLine (new options))) /\
  (defaulted (ViewModelOptions.baseLine options) ->
   rounded_down (ViewModelOptions.height options / 2) (baseLine (new options))) /\
  (forall v : number,
     given (ViewModelOptions.maxCacheSize options) v ->
     rounded_down v (maxCacheSize (new options))) /\
  (defaulted (ViewModelOptions.maxCacheSize options) ->
   maxCacheSize (new options) = 0) /\
  waveQ (new options) = [] /\
  curPoints (new options) = None /\
  x (new options) = -1 /\
  y (new options) = baseLine (new options).
Proof.
  unfold new. cbn [drawCount step scaleRatio padding baseLine maxCacheSize
                   waveQ curPoints x y].
  split; [apply orElse_truthy; reflexivity|].
  split; [apply orElse_truthy; reflexivity|].
  split; [apply orElse_truthy; reflexivity|].
  split; [apply orElse_truthy; reflexivity|].
  split; [reflexivity|].
  split; [eexists; reflexivity|].
  split; [eexists; reflexivity|].
  split.
  { intros v Hv. rewrite (orElse_given _ Hv). apply Math_floor_rounds_down. }
  split.
  { intros Hd. rewrite (orElse_defaulted _ Hd). apply Math_floor_rounds_down. }
  split.
  { intros v Hv. rewrite (orElse_given _ Hv). apply Math_floor_rounds_down. }
  split.
  { intros Hd. rewrite (orElse_defaulted _ Hd). reflexivity. }
  repeat split.
Qed.

Lemma constructor_replaces_zero_by_default_witness :
  let options := ViewModelOptions.Build 300 75 None 512 (Some 8) (Some 10.75)
                   None None (Some 0) None None None in
  let halved := ViewModelOptions.Build 300 75 None 512 (Some 8) None
                   None None (Some 2.5) None None None in
  rounded_down 10.75 (baseLine (new options)) /\
  baseLine (new options) = 10 /\
  maxCacheSize (new options) = 0 /\
  rounded_down (75 / 2) (baseLine (new halved)) /\
  baseLine (new halved) = 37 /\
  rounded_down 2.5 (maxCacheSize (new halved)) /\
  maxCacheSize (new halved) = 2.
Proof.
  intros options halved.
  destruct (constructor_replaces_zero_by_default options)
    as (_ & _ & _ & _ & _ & _ & _ & Hb & _ & _ & Hm & _).
  destruct (constructor_replaces_zero_by_default halved)
    as (_ & _ & _ & _ & _ & _ & _ & _ & Hb' & Hm' & _).
  split; [apply Hb; split; [reflexivity | discriminate]|].
  split; [reflexivity|].
  split; [apply Hm; right; exists 0; split; reflexivity|].
  split; [apply Hb'; left; reflexivity|].
  split; [reflexivity|].
  split; [apply Hm'; split; [reflexivity | discriminate]|].
  reflexivity.
Defined.

End LaneFacts.

(** * Lanes on shared arrays *)

Module SharedFacts.

Import Shared.

Lemma write_same (r : ref) (points : batch) (h : Store) :
  write r points h r = points.
Proof. unfold write. rewrite Nat.eqb_refl. reflexivity. Qed.

Lemma write_other (r r' : ref) (points : batch) (h : Store) :
  r' <> r -> write r points h r' = h r'.
Proof.
  intros Hne. unfold write. apply Nat.eqb_neq in Hne. rewrite Hne. reflexivity.
Qed.

Lemma map_agree (h h' : Store) (q : list ref) :
  (forall r : ref, In r q -> h' r = h r) -> map h' q = map h q.
Proof. intros H. apply map_ext_in. exact H. Qed.

Lemma frame_refl (r : ref) (s : Scene) : frame r s s.
Proof. repeat split. Qed.

Lemma frame_trans (r : ref) (s1 s2 s3 : Scene) :
  frame r s1 s2 -> frame r s2 s3 -> frame r s1 s3.
Proof.
  intros (Hq & Hc & Hs) (Hq' & Hc' & Hs'). repeat split.
  - congruence.
  - congruence.
  - intros r' Hne. rewrite (Hs' r' Hne). apply Hs, Hne.
Qed.

(** The view by value of a scene depends on the arrays the lane holds
    only. *)
Lemma contents_agree (h h' : Store) (m : t) :
  (forall r : ref, In r (held m) -> h' r = h r) ->
  contents h' m = contents h m.
Proof.
  intros H. unfold contents. f_equal.
  - apply map_agree. intros r Hr. apply H. unfold held.
    apply in_or_app. right. exact Hr.
  - unfold held in H. destruct (curPoints m) as [r|]; [|reflexivity].
    cbn [option_map]. f_equal. apply H. left. reflexivity.
Qed.

Lemma call_view (surface : Surface) (c : DrawCmd) (s : Scene) :
  lift (call surface c s) = ViewModel.call surface c (view s).
Proof.
  unfold call, ViewModel.call. destruct (surface c); reflexivity.
Qed.

Lemma call_frame (surface : Surface) (c : DrawCmd) (r : ref) (s : Scene) :
  frame r s (final (call surface c s)).
Proof. unfold call. destruct (surface c); repeat split. Qed.

Lemma plot_view (surface : Surface) (point : number) (s : Scene) :
  lift (plot surface point s) = ViewModel.plot surface point (view s).
Proof.
  unfold plot, ViewModel.plot, bind, update, ViewModel.update, modify, get.
  unfold call, ViewModel.call. cbn.
  destruct (surface _); reflexivity.
Qed.

Lemma plot_frame (surface : Surface) (point : number) (r : ref) (s : Scene) :
  frame r s (final (plot surface point s)).
Proof.
  unfold plot, bind, update, modify, get, call. cbn.
  destruct (surface _); repeat split.
Qed.

(** [points.shift()] on the array in hand is, by value, the assignment
    of the rest to [curPoints], as long as the queue does not hold the
    same array. *)
Lemma shift_view (r : ref) (rest : batch) (s : Scene) :
  curPoints (this s) = Some r ->
  ~ In r (waveQ (this s)) ->
  view {| store := write r rest (store s); this := this s; ctx := ctx s |}
  = {| ViewModel.this := ViewModel.set_curPoints (Some rest)
                           (ViewModel.this (view s));
       ViewModel.ctx := ctx s |}.
Proof.
  intros Hc Hq. unfold view, contents. cbn [store this ctx].
  rewrite Hc. cbn [option_map]. rewrite write_same.
  rewrite (@map_agree (store s) (write r rest (store s)) (waveQ (this s))).
  - reflexivity.
  - intros r' Hr'. apply write_other. intros ->. contradiction.
Qed.

(** Simulation and framing go through [bind]. *)
Lemma bind_lift (A B : Type) (c : M A) (k : A -> M B)
  (c' : ViewModel.M A) (k' : A -> ViewModel.M B) (s : Scene) :
  lift (c s) = c' (view s) ->
  (forall (a : A) (s1 : Scene),
     c s = Normal a s1 -> lift (k a s1) = k' a (view s1)) ->
  lift (bind c k s) = bind c' k' (view s).
Proof.
  intros Hc Hk. unfold bind. rewrite <- Hc.
  destruct (c s) as [a s1|e s1]; cbn [lift]; [apply Hk|]; reflexivity.
Qed.

Lemma bind_frame (A B : Type) (r : ref) (c : M A) (k : A -> M B) (s : Scene) :
  frame r s (final (c s)) ->
  (forall (a : A) (s1 : Scene),
     c s = Normal a s1 -> frame r s1 (final (k a s1))) ->
  frame r s (final (bind c k s)).
Proof.
  intros Hc Hk. unfold bind.
  destruct (c s) as [a s1|e s1]; cbn [final] in *; [|exact Hc].
  apply (frame_trans Hc). apply Hk. reflexivity.
Qed.

Lemma shift_frame (r : ref) (rest : batch) (s : Scene) :
  frame r s (final (shift r rest s)).
Proof.
  unfold shift, modify. cbn [final]. repeat split.
  intros r' Hne. apply write_other, Hne.
Qed.

Lemma drawLoop_view (surface : Surface) (r : ref) (points : batch) :
  forall (size : number) (i : Z) (s : Scene),
    curPoints (this s) = Some r ->
    ~ In r (waveQ (this s)) ->
    lift (drawLoop surface size i r points s)
    = ViewModel.drawLoop surface size i points (view s) /\
    frame r s (final (drawLoop surface size i r points s)).
Proof.
  induction points as [|point rest IH]; intros size i s Hc Hq;
    cbn [drawLoop ViewModel.drawLoop]; destruct (ltb (inject_Z i) size).
  - split; [reflexivity | apply frame_refl].
  - split; [reflexivity | apply frame_refl].
  - assert (Hnext : forall (a : unit) (s1 : Scene),
               shift r rest s = Normal a s1 ->
               forall (b : unit) (s2 : Scene),
                 plot surface point s1 = Normal b s2 ->
                 curPoints (this s2) = Some r /\ ~ In r (waveQ (this s2))).
    { intros a s1 H1 b s2 H2.
      pose proof (shift_frame r rest s) as F1. rewrite H1 in F1.
      pose proof (plot_frame surface point r s1) as F2. rewrite H2 in F2.
      destruct (frame_trans F1 F2) as (Hq' & Hc' & _). cbn [final] in *.
      rewrite Hq', Hc'. split; assumption. }
    split.
    + apply bind_lift.
      * unfold shift, ViewModel.update, modify. cbn [lift]. f_equal.
        apply shift_view; assumption.
      * intros a s1 H1. apply bind_lift; [apply plot_view|].
        intros b s2 H2. destruct (Hnext a s1 H1 b s2 H2) as [Hc2 Hq2].
        apply IH; assumption.
    + apply bind_frame; [apply shift_frame|].
      intros a s1 H1. apply bind_frame; [apply plot_frame|].
      intros b s2 H2. destruct (Hnext a s1 H1 b s2 H2) as [Hc2 Hq2].
      apply IH; assumption.
  - split; [reflexivity | apply frame_refl].
Qed.

Lemma ret_frame (A : Type) (a : A) (r : ref) (s : Scene) :
  frame r s (final (ret a s)).
Proof. apply frame_refl. Qed.

Lemma len_map (A B : Type) (f : A -> B) (l : list A) : len (map f l) = len l.
Proof. unfold len. rewrite length_map. reflexivity. Qed.

Lemma call_Normal (surface : Surface) (c : DrawCmd) (s s1 : Scene) (a : unit) :
  call surface c s = Normal a s1 -> this s1 = this s /\ store s1 = store s.
Proof.
  unfold call. destruct (surface c); [discriminate|].
  intros H. injection H as _ <-. split; reflexivity.
Qed.

Lemma get_lift (B : Type) (k : Scene -> M B)
  (k' : ViewModel.Scene -> ViewModel.M B) (s : Scene) :
  lift (k s s) = k' (view s) (view s) ->
  lift (bind get k s) = bind get k' (view s).
Proof. intros H. exact H. Qed.

Lemma get_frame (B : Type) (r : ref) (k : Scene -> M B) (s : Scene) :
  frame r s (final (k s s)) -> frame r s (final (bind get k s)).
Proof. intros H. exact H. Qed.

(** [drawView] on the array in hand is, by value, [drawView] on its
    contents, and writes no other array. *)
Lemma drawView_view (surface : Surface) (r : ref) (render : bool) (s : Scene) :
  curPoints (this s) = Some r ->
  ~ In r (waveQ (this s)) ->
  lift (drawView surface r render s)
  = ViewModel.drawView surface (store s r) render (view s) /\
  frame r s (final (drawView surface r render s)).
Proof.
  intros Hc Hq. unfold drawView, ViewModel.drawView. split.
  - apply get_lift.
    do 7 (apply bind_lift; [apply call_view|];
          let H := fresh "H" in
          intros [] ? H; apply call_Normal in H as [? ?]).
    apply bind_lift.
    { apply drawLoop_view; [congruence|].
      replace (waveQ (this s6)) with (waveQ (this s)) by congruence. exact Hq. }
    intros [] s7 _. apply bind_lift.
    { destruct render; [apply call_view | reflexivity]. }
    intros [] s8 _. apply get_lift.
    change (ViewModel.x (ViewModel.this (view s8))) with (x (this s8)).
    change (ViewModel.width (ViewModel.this (view s8))) with (width (this s8)).
    destruct (geb (x (this s8)) (width (this s8))); reflexivity.
  - apply get_frame.
    do 7 (apply bind_frame; [apply call_frame|];
          let H := fresh "H" in
          intros [] ? H; apply call_Normal in H as [? ?]).
    apply bind_frame.
    { apply drawLoop_view; [congruence|].
      replace (waveQ (this s6)) with (waveQ (this s)) by congruence. exact Hq. }
    intros [] s7 _. apply bind_frame.
    { destruct render; [apply call_frame | apply ret_frame]. }
    intros [] s8 _. apply get_frame.
    destruct (geb (x (this s8)) (width (this s8))); repeat split.
Qed.

Lemma hasPoints_view (s : Scene) :
  ViewModel.hasPoints (ViewModel.this (view s))
  = option_map (store s) (hasPoints s).
Proof.
  unfold ViewModel.hasPoints, hasPoints, view, contents. cbn.
  destruct (curPoints (this s)) as [r|]; [|reflexivity]. cbn.
  destruct (store s r) eqn:E; [reflexivity|]. cbn. rewrite E. reflexivity.
Qed.

Lemma hasPoints_held (s : Scene) (r : ref) :
  hasPoints s = Some r ->
  curPoints (this s) = Some r /\ held (this s) = r :: waveQ (this s).
Proof.
  unfold hasPoints, held. destruct (curPoints (this s)) as [r0|]; [|discriminate].
  destruct (store s r0); [discriminate|]. intros H. injection H as ->.
  split; reflexivity.
Qed.

(** What [waveQ.shift()] and the assignment to [curPoints] leave. *)
Lemma shifted_view (next : ref) (rest : list ref) (s : Scene) :
  view {| store := store s;
          this := set_curPoints (Some next) (set_waveQ rest (this s));
          ctx := ctx s |}
  = ViewModel.shifted (store s next) (map (store s) rest) (view s).
Proof. reflexivity. Qed.

(** One turn of the loop of [onDraw]. *)
Lemma onDrawLoop_turn (surface : Surface) (render : bool) (q : list ref)
  (s : Scene) :
  onDrawLoop surface render q s =
  let next_turn (s1 : Scene) :=
    match q with
    | [] => Normal false s1
    | next :: rest =>
        onDrawLoop surface render rest
          {| store := store s1;
             this := set_curPoints (Some next) (set_waveQ rest (this s1));
             ctx := ctx s1 |}
    end in
  match hasPoints s with
  | Some r =>
      match drawView surface r render s with
      | Normal _ s1 =>
          if negb (truthy (maxCacheSize (this s1)))
             || ltb (len (waveQ (this s1))) (maxCacheSize (this s1))
          then Normal true s1
          else next_turn s1
      | Abrupt e s1 => Abrupt e s1
      end
  | None => next_turn s
  end.
Proof.
  destruct q as [|next rest]; cbn [onDrawLoop]; cbv zeta;
    unfold bind at 1, get; destruct (hasPoints s) as [r|];
    try reflexivity;
    unfold bind at 1; destruct (drawView surface r render s); cbn; auto;
    destruct (negb _ || _); reflexivity.
Qed.

Lemma kept_refl (s : Scene) : kept s s.
Proof. split; [exists []; reflexivity | reflexivity]. Qed.

(** The loop of [onDraw] on a lane that holds no array twice is, by
    value, the loop of [ViewModel.onDraw] on the contents; it writes
    only arrays the lane holds, and ends holding the last of them. *)
Lemma onDrawLoop_view (surface : Surface) (render : bool) (q : list ref) :
  forall s : Scene,
    waveQ (this s) = q ->
    NoDup (held (this s)) ->
    lift (onDrawLoop surface render q s)
    = ViewModel.onDrawLoop surface render (map (store s) q) (view s) /\
    kept s (final (onDrawLoop surface render q s)).
Proof.
  induction q as [|next rest IH]; intros s Hq Hnd;
    rewrite onDrawLoop_turn, ViewModelFacts.onDrawLoop_eq; cbv zeta;
    rewrite hasPoints_view; destruct (hasPoints s) as [r|] eqn:Hp;
    cbn [option_map map].
  - destruct (hasPoints_held _ Hp) as [Hc Hh].
    rewrite Hh in Hnd. apply NoDup_cons_iff in Hnd as [Hnot _].
    destruct (drawView_view surface render s Hc Hnot) as [Hsim Hfr].
    rewrite <- Hsim.
    destruct (drawView surface r render s) as [[] s1|e s1];
      cbn [lift final] in *.
    + change (ViewModel.maxCacheSize (ViewModel.this (view s1)))
        with (maxCacheSize (this s1)).
      change (ViewModel.waveQ (ViewModel.this (view s1)))
        with (map (store s1) (waveQ (this s1))).
      rewrite len_map.
      assert (Hk : kept s s1).
      { destruct Hfr as (Hq1 & Hc1 & Hs1). split.
        - exists []. cbn [app]. unfold held. rewrite Hq1, Hc1. reflexivity.
        - intros r' Hr'. apply Hs1. intros ->. apply Hr'. rewrite Hh.
          left. reflexivity. }
      destruct (negb _ || _); cbn [lift final]; split; auto.
    + split; [reflexivity|].
      destruct Hfr as (Hq1 & Hc1 & Hs1). split.
      * exists []. cbn [app]. unfold held. rewrite Hq1, Hc1. reflexivity.
      * intros r' Hr'. apply Hs1. intros ->. apply Hr'. rewrite Hh.
        left. reflexivity.
  - split; [reflexivity | apply kept_refl].
  - destruct (hasPoints_held _ Hp) as [Hc Hh].
    rewrite Hh in Hnd. pose proof Hnd as Hnd0.
    apply NoDup_cons_iff in Hnd as [Hnot Hndq].
    destruct (drawView_view surface render s Hc Hnot) as [Hsim Hfr].
    rewrite <- Hsim.
    destruct (drawView surface r render s) as [[] s1|e s1];
      cbn [lift final] in *.
    + change (ViewModel.maxCacheSize (ViewModel.this (view s1)))
        with (maxCacheSize (this s1)).
      change (ViewModel.waveQ (ViewModel.this (view s1)))
        with (map (store s1) (waveQ (this s1))).
      rewrite len_map.
      destruct Hfr as (Hq1 & Hc1 & Hs1).
      assert (Hk : kept s s1).
      { split.
        - exists []. cbn [app]. unfold held. rewrite Hq1, Hc1. reflexivity.
        - intros r' Hr'. apply Hs1. intros ->. apply Hr'. rewrite Hh.
          left. reflexivity. }
      destruct (negb _ || _); cbn [lift final]; [split; auto|].
      set (s2 := {| store := store s1;
                    this := set_curPoints (Some next) (set_waveQ rest (this s1));
                    ctx := ctx s1 |}).
      assert (Hagree : forall r' : ref, In r' (next :: rest) ->
                                        store s1 r' = store s r').
      { intros r' Hr'. apply Hs1. intros ->. apply Hnot. rewrite Hq. exact Hr'. }
      rewrite Hq in Hndq.
      destruct (IH s2 eq_refl) as [Hsim2 Hk2].
      { unfold held, s2. cbn. exact Hndq. }
      split.
      * assert (Hmap : map (store s1) rest = map (store s) rest).
        { apply map_agree. intros r' Hr'. apply Hagree. right. exact Hr'. }
        rewrite Hsim2. change (store s2) with (store s1). unfold s2.
        rewrite shifted_view. cbn [store].
        rewrite (Hagree next (or_introl eq_refl)), Hmap. reflexivity.
      * destruct Hk2 as [(dropped & Hd) Hs2]. split.
        -- exists (r :: dropped). rewrite Hh, Hq.
           change (held (this s2)) with (next :: rest) in Hd.
           rewrite Hd. reflexivity.
        -- intros r' Hr'. rewrite Hs2.
           ++ cbn [store s2]. apply Hs1. intros ->. apply Hr'. rewrite Hh.
              left. reflexivity.
           ++ intros Hin. apply Hr'. rewrite Hh, Hq. right. exact Hin.
    + split; [reflexivity|].
      destruct Hfr as (Hq1 & Hc1 & Hs1). split.
      * exists []. cbn [app]. unfold held. rewrite Hq1, Hc1. reflexivity.
      * intros r' Hr'. apply Hs1. intros ->. apply Hr'. rewrite Hh.
        left. reflexivity.
  - set (s2 := {| store := store s;
                  this := set_curPoints (Some next) (set_waveQ rest (this s));
                  ctx := ctx s |}).
    assert (Hsub : exists dropped : list ref,
               held (this s) = dropped ++ next :: rest).
    { unfold held. rewrite Hq. destruct (curPoints (this s)) as [r0|].
      - exists [r0]. reflexivity.
      - exists []. reflexivity. }
    destruct Hsub as (dropped & Hd).
    assert (Hnd2 : NoDup (next :: rest)).
    { rewrite Hd in Hnd. apply NoDup_app_remove_l in Hnd. exact Hnd. }
    destruct (IH s2 eq_refl) as [Hsim2 Hk2].
    { unfold held, s2. cbn. exact Hnd2. }
    split.
    + rewrite Hsim2. change (store s2) with (store s). unfold s2.
      rewrite shifted_view. reflexivity.
    + destruct Hk2 as [(dropped2 & Hd2) Hs2]. split.
      * exists (dropped ++ dropped2). rewrite Hd.
        change (held (this s2)) with (next :: rest) in Hd2.
        rewrite Hd2, app_assoc. reflexivity.
      * intros r' Hr'. rewrite Hs2; [reflexivity|].
        intros Hin. apply Hr'. rewrite Hd. apply in_or_app. right. exact Hin.
Qed.

(** [onDraw] on a lane that holds no array twice is [ViewModel.onDraw]
    on its contents, on every surface and also when it throws. *)
Lemma onDraw_view (surface : Surface) (render : bool) (s : Scene) :
  NoDup (held (this s)) ->
  lift (onDraw surface render s) = ViewModel.onDraw surface render (view s) /\
  kept s (final (onDraw surface render s)).
Proof.
  intros Hnd. exact (@onDrawLoop_view surface render (waveQ (this s)) s eq_refl Hnd).
Qed.

(** ** Traces of a lane that owns its arrays *)

Lemma view_final (A : Type) (c : Completion Scene A) :
  view (final c) = final (lift c).
Proof. destruct c; reflexivity. Qed.

Lemma pending_view (s : Scene) :
  pending s = ViewModel.pending (ViewModel.this (view s)).
Proof.
  unfold pending, ViewModel.pending, ViewModel.remaining, ViewModel.queued,
    held, view, contents. cbn.
  rewrite map_app, list_sum_app, map_map. unfold list_sum.
  destruct (curPoints (this s)); cbn; lia.
Qed.


Lemma push_view (r : ref) (s : Scene) :
  view {| store := store s; this := push (Some r) (this s); ctx := ctx s |}
  = {| ViewModel.this := ViewModel.push (Some (store s r))
                           (ViewModel.this (view s));
       ViewModel.ctx := ctx s |}.
Proof.
  unfold view, contents, push, ViewModel.push. cbn. rewrite map_app. reflexivity.
Qed.

Lemma held_push (r : ref) (m : t) : held (push (Some r) m) = held m ++ [r].
Proof. unfold held, push. cbn. apply app_assoc. Qed.

Lemma NoDup_app_disjoint (A : Type) (l1 l2 : list A) (a : A) :
  NoDup (l1 ++ l2) -> In a l2 -> ~ In a l1.
Proof.
  induction l1 as [|b l1 IH]; intros Hnd Ha; [intros []|].
  cbn in Hnd. apply NoDup_cons_iff in Hnd as [Hb Hnd].
  intros [->|Hin].
  - apply Hb. apply in_or_app. right. exact Ha.
  - exact (IH Hnd Ha Hin).
Qed.

Lemma byValue_agree (h h' : Store) (ops : list LaneOp) :
  (forall r : ref, In r (enqueued ops) -> h' r = h r) ->
  map (byValue h') ops = map (byValue h) ops.
Proof.
  induction ops as [|op ops IH]; intros H; [reflexivity|].
  cbn [map]. rewrite IH.
  - destruct op as [r|]; [|reflexivity]. cbn [byValue]. rewrite H; [reflexivity|].
    left. reflexivity.
  - intros r Hr. apply H. cbn [enqueued flat_map]. apply in_or_app.
    right. exact Hr.
Qed.

Lemma pushed_view (h : Store) (ops : list LaneOp) :
  ViewModel.pushed (map (byValue h) ops) = pushed h ops.
Proof.
  unfold ViewModel.pushed, pushed, list_sum.
  induction ops as [|[r|] ops IH]; cbn in *; [reflexivity | | exact IH].
  rewrite IH. reflexivity.
Qed.

(** A trace whose arrays are all different, and none of them held by
    the lane when it starts, is by value the same trace on the contents
    the arrays had at the start; and the lane holds no array twice
    afterwards. *)
Lemma trace_view (surface : Surface) (ops : list LaneOp) :
  forall s : Scene,
    NoDup (held (this s) ++ enqueued ops) ->
    view (fold_left (laneStep surface) ops s)
    = fold_left (ViewModel.laneStep surface) (map (byValue (store s)) ops)
        (view s) /\
    NoDup (held (this (fold_left (laneStep surface) ops s))).
Proof.
  induction ops as [|op ops IH]; intros s Hnd; cbn [fold_left map].
  - cbn [enqueued flat_map] in Hnd. rewrite app_nil_r in Hnd.
    split; [reflexivity | exact Hnd].
  - destruct op as [r|]; cbn [laneStep ViewModel.laneStep byValue].
    + cbn [enqueued flat_map app] in Hnd.
      fold (enqueued ops) in Hnd.
      set (s1 := {| store := store s; this := push (Some r) (this s);
                    ctx := ctx s |}).
      destruct (IH s1) as [Hv Hn].
      { unfold s1. cbn [this]. rewrite held_push, <- app_assoc. exact Hnd. }
      split; [|exact Hn].
      rewrite Hv. unfold s1 at 2. rewrite push_view. reflexivity.
    + cbn [enqueued flat_map app] in Hnd. fold (enqueued ops) in Hnd.
      assert (Hheld : NoDup (held (this s)))
        by (apply NoDup_app_remove_r in Hnd; exact Hnd).
      destruct (onDraw_view surface true s Hheld) as [Hsim [(dropped & Hd) Hs]].
      set (s1 := final (onDraw surface true s)) in *.
      destruct (IH s1) as [Hv Hn].
      { rewrite Hd, <- app_assoc in Hnd.
        apply NoDup_app_remove_l in Hnd. exact Hnd. }
      split; [|exact Hn].
      rewrite Hv. unfold s1 at 2. rewrite view_final, Hsim.
      rewrite (@byValue_agree (store s) (store s1) ops); [reflexivity|].
      intros r Hr. apply Hs. exact (@NoDup_app_disjoint _ _ _ r Hnd Hr).
Qed.

Lemma untilIdle_view (surface : Surface) (n : nat) :
  forall s : Scene,
    NoDup (held (this s)) ->
    option_map view (untilIdle surface n s)
    = ViewModel.untilIdle surface n (view s).
Proof.
  induction n as [|n IH]; intros s Hnd; [reflexivity|].
  cbn [untilIdle ViewModel.untilIdle].
  destruct (onDraw_view surface true s Hnd) as [Hsim [(dropped & Hd) _]].
  rewrite <- Hsim.
  destruct (onDraw surface true s) as [[|] s1|e s1]; cbn [lift final] in *;
    [|reflexivity|reflexivity].
  apply IH. rewrite Hd in Hnd. apply NoDup_app_remove_l in Hnd. exact Hnd.
Qed.

(** With catch-up on and the queue at the threshold, a tick plots one
    slice of the array in hand and lets go of it: the lane no longer
    holds the array, which keeps the samples not plotted, and these are
    out of the accounts. *)
Lemma catch_up_lets_go
  (u : Scene) (r next : ref) (rest : list ref) (render : bool) :
  NoDup (held (this u)) ->
  0 < maxCacheSize (this u) ->
  hasPoints u = Some r ->
  waveQ (this u) = next :: rest ->
  maxCacheSize (this u) <= len (waveQ (this u)) ->
  exists (k : nat) (b : bool) (s' : Scene),
    onDraw healthy render u = Normal b s' /\
    (k <= List.length (store u r))%nat /\
    store s' r = skipn k (store u r) /\
    ~ In r (held (this s')) /\
    (ViewModel.drawn (ctx u) + k <= ViewModel.drawn (ctx s'))%nat /\
    (ViewModel.drawn (ctx s') + pending s' + List.length (store s' r)
     <= ViewModel.drawn (ctx u) + pending u)%nat.
Proof.
  intros Hnd Hmax Hp Hq Hfull.
  destruct (hasPoints_held _ Hp) as [Hc Hh].
  pose proof Hnd as Hnd0. rewrite Hh, Hq in Hnd0.
  apply NoDup_cons_iff in Hnd0 as [Hnot Hndq].
  pose proof (hasPoints_view u) as Hpv. rewrite Hp in Hpv. cbn [option_map] in Hpv.
  destruct (ViewModelFacts.hasPoints_Some _ Hpv) as [Hcur Hne].
  destruct (ViewModelFacts.drawView_healthy render (view u) Hcur Hne)
    as (k & v1 & Hdv & Hk & Hc1 & Hq1 & Hcfg & Hd1 & _).
  assert (Hnotq : ~ In r (waveQ (this u))) by (rewrite Hq; exact Hnot).
  destruct (drawView_view healthy render u Hc Hnotq) as [Hsim Hfr].
  rewrite Hdv in Hsim.
  destruct (drawView healthy r render u) as [[] u1|e u1] eqn:Hrun;
    cbn [lift final] in *; [|discriminate].
  injection Hsim as Hv1.
  destruct Hfr as (Hfq & Hfc & Hfs).
  assert (Hr1 : store u1 r = skipn k (store u r)).
  { rewrite <- Hv1 in Hc1. cbn in Hc1. rewrite Hfc, Hc in Hc1. cbn in Hc1.
    injection Hc1 as Hc1. exact Hc1. }
  assert (Hm1 : maxCacheSize (this u1) = maxCacheSize (this u)).
  { rewrite <- Hv1 in Hcfg. apply ViewModelFacts.config_maxCacheSize in Hcfg.
    exact Hcfg. }
  set (u2 := {| store := store u1;
                this := set_curPoints (Some next) (set_waveQ rest (this u1));
                ctx := ctx u1 |}).
  assert (Hh2 : held (this u2) = next :: rest) by reflexivity.
  destruct (@onDrawLoop_view healthy render rest u2 eq_refl) as [Hsim2 Hk2].
  { rewrite Hh2. exact Hndq. }
  destruct (@ViewModelFacts.onDrawLoop_healthy render (map (store u2) rest)
              (view u2) eq_refl) as (b & v' & Hloop & HT).
  rewrite Hloop in Hsim2.
  destruct (onDrawLoop healthy render rest u2) as [b' s'|e s'] eqn:Hrun2;
    cbn [lift final] in *; [|discriminate].
  injection Hsim2 as -> Hv'.
  assert (Hturn : onDraw healthy render u = Normal b s').
  { unfold onDraw, bind, get. rewrite onDrawLoop_turn. cbv zeta.
    rewrite Hp, Hrun, Hm1, Hfq.
    assert (Ht : truthy (maxCacheSize (this u)) = true).
    { unfold truthy. apply negb_true_iff, not_true_iff_false.
      intros E. apply Qeq_bool_iff in E. rewrite E in Hmax.
      exact (Qlt_irrefl 0 Hmax). }
    assert (Hl : ltb (len (waveQ (this u))) (maxCacheSize (this u)) = false)
      by (apply ltb_ge; exact Hfull).
    rewrite Ht, Hl. cbn [negb orb]. rewrite Hq. exact Hrun2. }
  destruct Hk2 as [(dropped & Hd) Hs2].
  assert (Hnot' : ~ In r (held (this s'))).
  { intros Hin. apply Hnot. rewrite <- Hh2, Hd. apply in_or_app. right. exact Hin. }
  assert (Hr' : store s' r = skipn k (store u r)).
  { rewrite Hs2; [exact Hr1|]. rewrite Hh2. exact Hnot. }
  exists k, b, s'. split; [exact Hturn|]. split; [exact Hk|].
  split; [exact Hr'|]. split; [exact Hnot'|].
  destruct HT as [_ _ _ Ts Tm _].
  rewrite <- Hv' in Ts, Tm. cbn [view ViewModel.ctx ViewModel.this] in Ts, Tm.
  change (contents (store s') (this s')) with (ViewModel.this (view s')) in Ts.
  change (contents (store u2) (this u2)) with (ViewModel.this (view u2)) in Ts.
  rewrite <- !pending_view in Ts. cbn [ctx u2] in Ts, Tm.
  assert (Hdu1 : ViewModel.drawn (ctx u1) = (ViewModel.drawn (ctx u) + k)%nat).
  { rewrite <- Hv1 in Hd1. exact Hd1. }
  assert (Hp2 : (pending u2 + List.length (store u r) = pending u)%nat).
  { unfold pending. rewrite Hh2, Hh, Hq. change (store u2) with (store u1).
    rewrite (@map_ext_in _ _ (fun r0 => List.length (store u1 r0))
               (fun r0 => List.length (store u r0)) (next :: rest)).
    - cbn [map]. unfold list_sum. cbn [fold_right]. lia.
    - intros r0 Hr0. rewrite Hfs; [reflexivity|]. intros ->. contradiction. }
  split; [lia|].
  rewrite Hr', length_skipn. lia.
Qed.

(** A lane that is handed the same array twice plots its samples once.
    With catch-up off and [drawCount = 2], the array [[1, 2, 3]] is
    pushed twice: six samples were pushed, three are drawn. *)
Lemma shared_array_is_consumed_once :
  let ops := [Enqueue 0%nat; Enqueue 0%nat] in
  let s := fold_left (laneStep healthy) ops Scenario.shared_plain in
  exists s' : Scene,
    untilIdle healthy 4 s = Some s' /\
    pushed Scenario.arrays ops = 6%nat /\
    ViewModel.drawn (ctx s') = 3%nat /\
    pending s' = 0%nat.
Proof. vm_compute. eexists. repeat split. Qed.

(** C1, amended.  A lane that is handed every array once (no array is
    pushed twice, nor pushed while the lane still holds it) accounts for
    its samples on a healthy surface: no trace of pushes and ticks
    draws more samples than were pushed; with catch-up off
    ([maxCacheSize = 0]) and a positive [drawCount], ticking until the
    lane reports no output comes to an end and has then drawn every
    sample pushed, none left in the lane; and with catch-up on
    ([maxCacheSize > 0]), a tick that finds the queue at or above the
    threshold after its slice lets go of the array in hand, and the
    samples the slice did not plot stay in that array, undrawn and out
    of the accounts. *)
Theorem owned_samples_accounted (s : Scene) (ops : list LaneOp) :
  NoDup (held (this s) ++ enqueued ops) ->
  let s1 := fold_left (laneStep healthy) ops s in
  (ViewModel.drawn (ctx s1) + pending s1
   <= ViewModel.drawn (ctx s) + pending s + pushed (store s) ops)%nat /\
  (maxCacheSize (this s) == 0 ->
   0 < drawCount (this s) ->
   forall n : nat,
     (pending s1 < n)%nat ->
     exists s' : Scene,
       untilIdle healthy n s1 = Some s' /\
       ViewModel.drawn (ctx s')
       = (ViewModel.drawn (ctx s) + pending s + pushed (store s) ops)%nat /\
       pending s' = 0%nat) /\
  (forall (r next : ref) (rest : list ref) (render : bool),
     0 < maxCacheSize (this s1) ->
     hasPoints s1 = Some r ->
     waveQ (this s1) = next :: rest ->
     maxCacheSize (this s1) <= len (waveQ (this s1)) ->
     exists (k : nat) (b : bool) (s' : Scene),
       onDraw healthy render s1 = Normal b s' /\
       (k <= List.length (store s1 r))%nat /\
       store s' r = skipn k (store s1 r) /\
       ~ In r (held (this s')) /\
       (ViewModel.drawn (ctx s1) + k <= ViewModel.drawn (ctx s'))%nat /\
       (ViewModel.drawn (ctx s') + pending s' + List.length (store s' r)
        <= ViewModel.drawn (ctx s1) + pending s1)%nat).
Proof.
  intros Hnd s1.
  destruct (@trace_view healthy ops s Hnd) as [Hv Hnd1]. fold s1 in Hv, Hnd1.
  destruct (@ViewModelFacts.no_sample_dropped_without_catch_up
              (ViewModel.this (view s)) (ctx s) (map (byValue (store s)) ops))
    as [Hsound Hexact].
  cbv zeta in Hsound, Hexact.
  change {| ViewModel.this := ViewModel.this (view s); ViewModel.ctx := ctx s |}
    with (view s) in Hsound, Hexact.
  rewrite <- Hv, pushed_view, <- !pending_view in Hsound, Hexact.
  split; [exact Hsound|]. split.
  - intros Hmax Hdc n Hn.
    destruct (Hexact Hmax Hdc n Hn) as (v' & Hrun & Hd & Hp).
    pose proof (@untilIdle_view healthy n s1 Hnd1) as Hu. rewrite Hrun in Hu.
    destruct (untilIdle healthy n s1) as [s'|]; [|discriminate].
    cbn [option_map] in Hu. injection Hu as Hu. exists s'.
    split; [reflexivity|]. rewrite <- Hu in Hd, Hp.
    split; [exact Hd | rewrite pending_view; exact Hp].
  - intros r next rest render Hmax Hp Hq Hfull.
    exact (@catch_up_lets_go s1 r next rest render Hnd1 Hmax Hp Hq Hfull).
Qed.

Lemma owned_samples_accounted_witness :
  let s1 := fold_left (laneStep healthy) Scenario.shared_trace
              Scenario.shared_plain in
  let u1 := fold_left (laneStep healthy) Scenario.shared_trace
              Scenario.shared_catch_up in
  (exists s' : Scene,
     untilIdle healthy 5 s1 = Some s' /\
     ViewModel.drawn (ctx s') = 4%nat /\
     pending s' = 0%nat) /\
  (exists (k : nat) (b : bool) (s' : Scene),
     onDraw healthy true u1 = Normal b s' /\
     (k <= 2)%nat /\
     store s' 0%nat = skipn k [2; 3] /\
     ~ In 0%nat (held (this s')) /\
     (1 + k <= ViewModel.drawn (ctx s'))%nat /\
     (ViewModel.drawn (ctx s') + pending s' + List.length (store s' 0%nat)
      <= 1 + 3)%nat) /\
  store (final (onDraw healthy true u1)) 0%nat = [3] /\
  ViewModel.drawn (ctx (final (onDraw healthy true u1))) = 3%nat.
Proof.
  intros s1 u1.
  assert (Hnd : NoDup ([] ++ [0; 1])%nat).
  { repeat constructor; cbn; intuition discriminate. }
  split; [|split].
  - destruct (@owned_samples_accounted Scenario.shared_plain
                Scenario.shared_trace Hnd) as (_ & H2 & _).
    apply (H2 (eq_refl : 0 == 0)%Q); [reflexivity | vm_compute; lia].
  - destruct (@owned_samples_accounted Scenario.shared_catch_up
                Scenario.shared_trace Hnd) as (_ & _ & H3).
    apply (H3 0%nat 1%nat [] true); [reflexivity | reflexivity | reflexivity|].
    vm_compute. discriminate.
  - split; reflexivity.
Defined.





End SharedFacts.

(** * More facts about the scheduler: routing, resuming, isolation *)

Module SchedulerFacts.

Import WaveView.
Import WaveViewFacts.
Import Scenario.


(** X9.  [start()] is idempotent: a second [start()] finds the handle set
    and changes nothing, so no second interval is ever created. *)
Theorem start_is_idempotent (surface : Surface) (w : t) :
  step surface (step surface w Start) Start = step surface w Start /\
  timer (step surface w Start) <> None /\
  (timer w <> None -> step surface w Start = w).
Proof.
  unfold step. cbn [handle]. unfold start, startTimer, bind, get, modify.
  destruct (timer w) eqn:E; cbn.
  - rewrite E. cbn. repeat split; discriminate.
  - repeat split; try discriminate. congruence.
Qed.

Lemma start_is_idempotent_witness :
  step healthy running_view Start = running_view.
Proof.
  apply (proj2 (proj2 (start_is_idempotent healthy running_view))).
  vm_compute. discriminate.
Defined.

(** X10.  [pause()] keeps the leave to resume: after it a [push] with at
    least one batch routes the data (the batch [waves[i]] is then the
    last of the queue of lane [i], and nothing else in any lane has
    changed), records the time and starts the interval again with
    [recover] set, while a [push] of nothing ([null] or an empty array)
    changes nothing at all and the view stays Stopped. *)
Theorem push_after_pause_resumes
  (surface : Surface) (w : t) (now : Z) (points : option batch)
  (waves : list (option batch)) :
  timer w <> None ->
  let w1 := step surface w Pause in
  let w2 := step surface w1 (Push now (Some (points :: waves))) in
  timer w1 = None /\
  timer w2 = Some (nextHandle w) /\
  recover w2 = true /\
  rcvTime w2 = now /\
  routed (points :: waves) (models w) (models w2) /\
  step surface w1 (Push now (Some [])) = w1 /\
  step surface w1 (Push now None) = w1.
Proof.
  intros Hlive. unfold step. cbn [handle].
  unfold pause, stopTimer, push, startTimer, bind, get, modify, ret.
  destruct (timer w) eqn:E; [|congruence]. cbn.
  split; [reflexivity|]. split; [reflexivity|]. split; [reflexivity|].
  split; [reflexivity|]. split; [|split; reflexivity].
  apply (pushEach_routed (models w) (points :: waves)).
Qed.

Lemma push_after_pause_resumes_witness :
  let w2 := step healthy (step healthy running_view Pause)
              (Push 7 (Some [Some [1; 2]])) in
  timer w2 = Some (nextHandle running_view) /\
  routed [Some [1; 2]] (models running_view) (models w2).
Proof.
  intros w2.
  destruct (@push_after_pause_resumes healthy running_view 7 (Some [1; 2]) [])
    as (_ & Ht & _ & _ & Hrouted & _).
  - vm_compute. discriminate.
  - split; [exact Ht | exact Hrouted].
Defined.

(** X11.  [stop()] on a view that is not running writes nothing: on a new
    view it does not take the leave to resume away, and the first [push]
    with a batch still starts the interval. *)
Theorem stop_before_start_keeps_auto_resume
  (surface : Surface) (lanes : list ViewModel.t) (interval : number)
  (now : Z) (points : option batch) (waves : list (option batch)) :
  step surface (new lanes interval) Stop = new lanes interval /\
  let w := run surface [Stop; Push now (Some (points :: waves))]
             (new lanes interval) in
  timer w <> None /\ recover w = true /\
  models w = pushEach lanes (points :: waves).
Proof.
  split; [reflexivity|]. cbn. repeat split. discriminate.
Qed.

Lemma attempt_clear (surface : Surface) (m : ViewModel.t) (c : Canvas) :
  attempt (ViewModel.clear surface) {| ViewModel.this := m; ViewModel.ctx := c |} =
  Normal (if rejected surface m then Some (SurfaceError (rect m)) else None)
    {| ViewModel.this := if rejected surface m then m else cleared m;
       ViewModel.ctx :=
         c ++ (if ViewModel.clearView m && negb (surface (rect m))
               then [rect m] else []) |}.
Proof.
  unfold attempt, ViewModel.clear, bind, get, ViewModel.call, rejected, rect.
  cbn. destruct (ViewModel.clearView m); cbn.
  - destruct (surface _); cbn; rewrite ?app_nil_r; reflexivity.
  - rewrite app_nil_r. reflexivity.
Qed.

Lemma forEachModel_attempt_clear (surface : Surface) (ms : list ViewModel.t) :
  forall (log : list JsError) (c : Canvas),
    forEachModel (attempt (ViewModel.clear surface)) report ms log c =
    Normal
      (log ++ flat_map (fun m => if rejected surface m
                                 then [SurfaceError (rect m)] else []) ms)
      (map (fun m => if rejected surface m then m else cleared m) ms,
       c ++ flat_map (fun m => if ViewModel.clearView m && negb (surface (rect m))
                               then [rect m] else []) ms).
Proof.
  induction ms as [|m ms IH]; intros log c; cbn [forEachModel map flat_map].
  - rewrite !app_nil_r. reflexivity.
  - rewrite attempt_clear. cbn [ViewModel.this ViewModel.ctx]. rewrite IH.
    destruct (rejected surface m); cbn [report]; rewrite <- !app_assoc;
      reflexivity.
Qed.

(** X12.  [clearView()] always sets the [clear] flag.  With no lane or
    with several it never throws, whatever the surface: each lane whose
    rectangle the surface accepts is cleared and reset, each lane whose
    rectangle is rejected is left as it was and its error goes to the
    console, and the lanes after it are still cleared.  With exactly one
    lane the same rejection leaves [clearView()] as an exception. *)
Theorem clearView_isolates_lanes (surface : Surface) (w : t) :
  clear (final (clearView surface w)) = true /\
  (List.length (models w) <> 1%nat ->
   exists w' : t,
     clearView surface w = Normal tt w' /\
     models w' = map (fun m => if rejected surface m then m else cleared m)
                   (models w) /\
     ctx w' = ctx w ++ flat_map (fun m => if ViewModel.clearView m
                                             && negb (surface (rect m))
                                          then [rect m] else []) (models w) /\
     console w' = console w ++ flat_map (fun m => if rejected surface m
                                                  then [SurfaceError (rect m)]
                                                  else []) (models w) /\
     sched w' = sched w) /\
  (forall m : ViewModel.t,
     models w = [m] ->
     rejected surface m = true ->
     clearView surface w = Abrupt (SurfaceError (rect m)) (final (clearView surface w)) /\
     models (final (clearView surface w)) = [m] /\
     ctx (final (clearView surface w)) = ctx w).
Proof.
  split; [|split].
  - unfold clearView, finally.
    match goal with
    | |- clear (final (match ?c with Normal _ _ => _ | Abrupt _ _ => _ end)) = _ =>
        destruct c; reflexivity
    end.
  - intros Hlen. unfold clearView, finally, onDrawBackground, bind, ret, get.
    destruct (models w) as [|m [|m' ms]] eqn:E; [|cbn in Hlen; congruence|];
      unfold overModels; rewrite E, forEachModel_attempt_clear;
      eexists; (split; [reflexivity|]); cbn; repeat split.
  - intros m Hm Hrej. unfold clearView, finally, onDrawBackground, bind, ret, get.
    rewrite Hm. unfold onOnlyModel.
    unfold rejected in Hrej. apply andb_true_iff in Hrej as [Hcv Hs].
    unfold ViewModel.clear, bind, get, ViewModel.call. cbn. rewrite Hcv.
    unfold rect in Hs. rewrite Hs. cbn. repeat split.
Qed.

Lemma clearView_isolates_lanes_witness :
  (exists w' : t,
     clearView short_surface (new [tall_lane; low_lane] 40) = Normal tt w' /\
     ctx w' = [rect low_lane] /\
     console w' = [SurfaceError (rect tall_lane)]) /\
  returned (clearView short_surface (new [tall_lane] 40)) = None.
Proof.
  split.
  - destruct (proj1 (proj2 (clearView_isolates_lanes short_surface
                              (new [tall_lane; low_lane] 40))))
      as (w' & Hrun & _ & Hctx & Hcon & _).
    + cbn. discriminate.
    + exists w'. repeat split; assumption.
  - destruct (proj2 (proj2 (clearView_isolates_lanes short_surface
                              (new [tall_lane] 40))) tall_lane)
      as (Hrun & _).
    + reflexivity.
    + reflexivity.
    + rewrite Hrun. reflexivity.
Defined.

Lemma overModels_flags (B : Type)
  (loop : list ViewModel.t -> Canvas -> Completion (list ViewModel.t * Canvas) B)
  (w : t) :
  flags (final (overModels loop w)) = flags w.
Proof.
  unfold overModels. destruct (loop (models w) (ctx w)) as [b [ms c]|e [ms c]];
    reflexivity.
Qed.

Lemma drawModels_flags (surface : Surface) (w : t) :
  flags (final (drawModels surface w)) = flags w.
Proof.
  unfold drawModels, bind at 1, get. destruct (models w) as [|m [|m' ms]].
  - apply overModels_flags.
  - unfold bind, onOnlyModel. destruct (ViewModel.onDraw _ _ _); reflexivity.
  - apply overModels_flags.
Qed.

(** X13.  [draw()] clears and pauses only on an idle time-out.  If less
    than 2000 ms have passed since the last arrival, or some lane reported
    output, or a lane threw, [draw()] does nothing beyond the lanes' own
    [onDraw]: the timer, [recover], the arrival time, the [clear] flag and
    the console are as they were. *)
Theorem draw_clears_only_when_idle (surface : Surface) (now : Z) (w : t) :
  (now - rcvTime w < 2000)%Z \/ returned (drawModels surface w) <> Some false ->
  final (draw surface now w) = final (drawModels surface w) /\
  sched (final (draw surface now w)) = sched w /\
  flags (final (draw surface now w)) = flags w.
Proof.
  intros Hcase.
  assert (H : final (draw surface now w) = final (drawModels surface w)).
  { pose proof (drawModels_sched surface w) as Hs.
    unfold draw, bind at 1.
    destruct (drawModels surface w) as [[|] w1|e w1]; cbn [final negb] in *;
      try reflexivity.
    unfold bind, get. rewrite (sched_rcvTime Hs).
    destruct Hcase as [Hlt|Hne]; [|cbn in Hne; congruence].
    destruct (Z.leb_spec 2000 (now - rcvTime w)); [lia | reflexivity]. }
  rewrite H. split; [reflexivity|]. split.
  - apply drawModels_sched.
  - apply drawModels_flags.
Qed.

Lemma draw_clears_only_when_idle_witness :
  final (draw healthy 1999 running_view)
  = final (drawModels healthy running_view) /\
  sched (final (draw healthy 1999 running_view)) = sched running_view.
Proof.
  destruct (@draw_clears_only_when_idle healthy 1999 running_view) as (H1 & H2 & _).
  - left. vm_compute. reflexivity.
  - split; assumption.
Defined.

(** ** The idle clear *)

Lemma onDraw_idle (surface : Surface) (m : ViewModel.t) (c : Canvas) :
  ViewModel.idle m ->
  exists m' : ViewModel.t,
    ViewModel.onDraw surface true {| ViewModel.this := m; ViewModel.ctx := c |}
    = Normal false {| ViewModel.this := m'; ViewModel.ctx := c |} /\
    ViewModel.idle m' /\ same_config m m'.
Proof.
  intros [Hp Hq]. unfold ViewModel.onDraw, bind, get. cbn [ViewModel.this].
  destruct (@LaneFacts.tick_without_data_loop surface true (ViewModel.waveQ m)
              {| ViewModel.this := m; ViewModel.ctx := c |} Hp Hq)
    as ([m' c'] & Hrun & Hc & Hw & Hh & _ & _ & Hcfg).
  cbn [ViewModel.this ViewModel.ctx] in *. subst c'.
  exists m'. split; [exact Hrun|]. split; [|exact Hcfg].
  split; [exact Hh|]. rewrite Hw. destruct (ViewModel.waveQ m); [exact Hq | constructor].
Qed.

Lemma forEachModel_onDraw_idle (surface : Surface) (ms : list ViewModel.t) :
  forall (acc : bool) (c : Canvas),
    Forall ViewModel.idle ms ->
    exists ms' : list ViewModel.t,
      forEachModel (ViewModel.onDraw surface true) orb ms acc c
      = Normal acc (ms', c) /\
      Forall ViewModel.idle ms' /\ Forall2 same_config ms ms'.
Proof.
  induction ms as [|m ms IH]; intros acc c Hidle; cbn [forEachModel].
  - exists []. repeat split; constructor.
  - inversion Hidle as [|? ? Hm Hms]; subst.
    destruct (onDraw_idle surface c Hm) as (m' & -> & Hm' & Hcfg).
    cbn [ViewModel.this ViewModel.ctx orb].
    destruct (IH acc c Hms) as (ms' & -> & Hms' & HF).
    exists (m' :: ms'). repeat split; constructor; assumption.
Qed.

(** When every lane is idle, the first half of [draw()] reports no
    output, makes no call on the context and leaves the lanes idle, for
    one lane and for several. *)
Lemma drawModels_idle (surface : Surface) (w : t) :
  Forall ViewModel.idle (models w) ->
  exists w1 : t,
    drawModels surface w = Normal false w1 /\
    ctx w1 = ctx w /\
    Forall ViewModel.idle (models w1) /\
    Forall2 same_config (models w) (models w1).
Proof.
  intros Hidle. unfold drawModels, bind at 1, get.
  destruct (models w) as [|m [|m' ms]] eqn:E.
  - unfold overModels. rewrite E. cbn. eexists. split; [reflexivity|].
    cbn. repeat split; constructor.
  - inversion Hidle as [|? ? Hm _]; subst.
    unfold bind, onOnlyModel.
    destruct (onDraw_idle surface (ctx w) Hm) as (m1 & -> & Hm1 & Hcfg).
    eexists. split; [reflexivity|]. cbn.
    repeat split; constructor; (assumption || constructor).
  - unfold overModels. rewrite E.
    destruct (forEachModel_onDraw_idle surface false (ctx w) Hidle)
      as (ms' & -> & Hms' & HF).
    eexists. split; [reflexivity|]. cbn. repeat split; assumption.
Qed.

Lemma draw_rcvTime (surface : Surface) (now : Z) (w : t) :
  rcvTime (final (draw surface now w)) = rcvTime w.
Proof.
  pose proof (drawModels_sched surface w) as Hpass.
  unfold draw. set (pass := drawModels surface) in *.
  unfold bind at 1. destruct (pass w) as [flag w1|e w1]; cbn [final] in *;
    [|apply (sched_rcvTime Hpass)].
  destruct flag; cbn [negb]; [apply (sched_rcvTime Hpass)|].
  unfold bind at 1, get.
  destruct (2000 <=? now - rcvTime w1)%Z; [|apply (sched_rcvTime Hpass)].
  unfold bind. pose proof (clearView_sched surface w1) as Hc.
  destruct (clearView surface w1) as [[] w2|e w2]; cbn [final] in *.
  - unfold pause, stopTimer, bind, get, modify.
    destruct (timer w2); cbn; rewrite (sched_rcvTime Hc);
      apply (sched_rcvTime Hpass).
  - rewrite (sched_rcvTime Hc). apply (sched_rcvTime Hpass).
Qed.

Lemma cleared_idle (ms : list ViewModel.t) :
  Forall ViewModel.idle ms ->
  Forall (fun m => ViewModel.clearView m = true) ms ->
  Forall ViewModel.idle (map cleared ms) /\
  Forall (fun m => ViewModel.clearView m = true) (map cleared ms) /\
  map rect (map cleared ms) = map rect ms.
Proof.
  induction ms as [|m ms IH]; intros Hi Hc; cbn [map].
  - repeat split; constructor.
  - inversion Hi as [|? ? Hm Hms]; inversion Hc as [|? ? Hcm Hcms]; subst.
    destruct (IH Hms Hcms) as (I1 & I2 & I3).
    repeat split; [constructor; [exact Hm | exact I1]
                  | constructor; [exact Hcm | exact I2]
                  | rewrite I3; reflexivity].
Qed.

(** An idle time-out on a healthy surface, whatever the number of lanes:
    one [clearRect] for each lane, and the view is Stopped with its
    lanes idle as before. *)
Lemma idle_draw_clears (w : t) (now : Z) :
  Forall ViewModel.idle (models w) ->
  Forall (fun m => ViewModel.clearView m = true) (models w) ->
  (2000 <= now - rcvTime w)%Z ->
  exists w2 : t,
    draw healthy now w = Normal tt w2 /\
    ctx w2 = ctx w ++ map rect (models w) /\
    timer w2 = None /\
    clear w2 = true /\
    rcvTime w2 = rcvTime w /\
    Forall ViewModel.idle (models w2) /\
    Forall (fun m => ViewModel.clearView m = true) (models w2) /\
    map rect (models w2) = map rect (models w).
Proof.
  intros Hidle Hcv Hlate.
  destruct (drawModels_idle healthy w Hidle) as (w1 & Hpass & Hctx & Hidle1 & HF).
  destruct (@idle_tick_clears_and_pauses w w1 now Hpass Hlate Hcv)
    as (w2 & Hrun & Ht & _ & Hc2 & Hm2 & _ & Hflag & _).
  destruct (Forall2_same_config_clearView HF Hcv) as [Hcv1 Hrect1].
  destruct (cleared_idle Hidle1 Hcv1) as (I1 & I2 & I3).
  exists w2. split; [exact Hrun|].
  split; [rewrite Hc2, Hctx; reflexivity|].
  split; [exact Ht|]. split; [exact Hflag|].
  split.
  { pose proof (draw_rcvTime healthy now w) as Hr. rewrite Hrun in Hr. exact Hr. }
  rewrite Hm2. split; [exact I1|]. split; [exact I2|].
  rewrite I3. exact Hrect1.
Qed.

(** C3 fails on the code in its last part.  The first idle time-out does
    what the claim says, for one lane and for several: every lane's
    rectangle is cleared once and the view is Stopped, with the [clear]
    flag set.  But [draw()] never reads that flag: when the view is
    started again and still has no data, the next tick clears every
    rectangle a second time. *)
Theorem idle_clear_is_repeated (w : t) (now later : Z) :
  Forall ViewModel.idle (models w) ->
  Forall (fun m => ViewModel.clearView m = true) (models w) ->
  (2000 <= now - rcvTime w)%Z ->
  (now <= later)%Z ->
  let w1 := final (draw healthy now w) in
  let w2 := run healthy [Start; Tick later] w1 in
  returned (draw healthy now w) = Some tt /\
  ctx w1 = ctx w ++ map rect (models w) /\
  timer w1 = None /\
  clear w1 = true /\
  ctx w2 = (ctx w ++ map rect (models w)) ++ map rect (models w) /\
  timer w2 = None.
Proof.
  intros Hidle Hcv Hlate Hlater.
  destruct (@idle_draw_clears w now Hidle Hcv Hlate)
    as (w1 & Hrun & Hctx & Ht & Hflag & Hrcv & Hidle1 & Hcv1 & Hrect1).
  cbv zeta. rewrite Hrun. cbn [final returned].
  split; [reflexivity|]. split; [exact Hctx|]. split; [exact Ht|].
  split; [exact Hflag|].
  set (w3 := set_recover true
               (set_nextHandle (Pos.succ (nextHandle w1))
                  (set_timer (Some (nextHandle w1)) w1))).
  assert (Hstart : step healthy w1 Start = w3).
  { unfold step. cbn [handle]. unfold start, startTimer, bind, get, modify.
    rewrite Ht. reflexivity. }
  destruct (@idle_draw_clears w3 later)
    as (w4 & Hrun4 & Hctx4 & Ht4 & _); try assumption.
  { change (rcvTime w3) with (rcvTime w1). rewrite Hrcv. lia. }
  assert (Htick : step healthy w3 (Tick later) = w4).
  { unfold step. cbn [handle]. unfold bind at 1, get.
    change (timer w3) with (Some (nextHandle w1)). cbv iota.
    rewrite Hrun4. reflexivity. }
  unfold run. cbn [fold_left]. rewrite Hstart, Htick.
  split; [|exact Ht4].
  rewrite Hctx4. change (ctx w3) with (ctx w1).
  change (models w3) with (models w1).
  rewrite Hctx, Hrect1. reflexivity.
Qed.

Lemma idle_clear_is_repeated_witness :
  let w := final (start (new [idle_lane; lower_idle_lane] 40)) in
  let w1 := final (draw healthy 2000 w) in
  let w2 := run healthy [Start; Tick 2040] w1 in
  ctx w1 = [rect idle_lane; rect lower_idle_lane] /\
  timer w1 = None /\
  clear w1 = true /\
  ctx w2 = [rect idle_lane; rect lower_idle_lane;
            rect idle_lane; rect lower_idle_lane].
Proof.
  intros w w1 w2.
  destruct (@idle_clear_is_repeated w 2000%Z 2040%Z)
    as (_ & Hctx1 & Ht1 & Hflag & Hctx2 & _).
  - repeat constructor.
  - repeat constructor.
  - vm_compute. discriminate.
  - lia.
  - split; [exact Hctx1|]. split; [exact Ht1|]. split; [exact Hflag|].
    exact Hctx2.
Defined.

End SchedulerFacts.

(** * Facts about the background grid *)

Module GridFacts.

Import Grid.








End GridFacts.

(** * Facts about BinaryHelper *)

(** * The single-lane view *)

Module EcgFacts.

Import EcgView.

Lemma drawNow_when_cleared (surface : Surface) (v : t) (now : Z) :
  empty v -> clearScreen v = true ->
  drawNow surface now v = Normal tt v.
Proof.
  intros [Hq Hp] Hc. unfold drawNow, bind, get. rewrite Hq.
  cbn [drawNowLoop]. unfold bind, get. rewrite Hp, Hc. reflexivity.
Qed.

(** X15.  A cleared view with no samples ignores its interval: however
    many times it fires, and however late, no call reaches the canvas
    and the view stays as it is, its timer still running.  The idle
    time-out of [drawNow] is behind the [clearScreen] test. *)
Theorem cleared_view_ignores_ticks
  (surface : Surface) (v : t) (times : list Z) :
  empty v -> clearScreen v = true ->
  ticks surface times v = v.
Proof.
  intros He Hc. unfold ticks.
  induction times as [|now times IH]; [reflexivity|].
  cbn [fold_left]. unfold tick at 2.
  destruct (timer v); [|exact IH].
  rewrite drawNow_when_cleared by assumption. exact IH.
Qed.

Lemma cleared_view_ignores_ticks_witness :
  ticks healthy [40; 5000; 100000]%Z (final (start (final (new healthy 300 200))))
  = final (start (final (new healthy 300 200))).
Proof.
  apply (@cleared_view_ignores_ticks healthy
           (final (start (final (new healthy 300 200)))) [40; 5000; 100000]%Z).
  - split; reflexivity.
  - reflexivity.
Defined.

(** X16.  The idle time-out clears once.  On a healthy surface, a view
    with no samples that has drawn since its last clear, asked to draw
    2000 ms or more after the last arrival, clears the whole canvas with
    one call, resets the cursor and stops its timer; drawing again
    after that changes nothing. *)
Theorem idle_timeout_clears_once (v : t) (now : Z) (later : list Z) :
  empty v -> clearScreen v = false ->
  (2000 <= now - rcvTime v)%Z ->
  let v' := final (drawNow healthy now v) in
  returned (drawNow healthy now v) = Some tt /\
  ctx v' = ctx v ++ [ClearRect 0 0 (width v) (height v)] /\
  timer v' = None /\
  x v' = -1 /\ y v' = baseLine v /\
  fold_left (fun u t => final (drawNow healthy t u)) later v' = v'.
Proof.
  intros [Hq Hp] Hc Hlate.
  assert (Hrun : exists v1,
             drawNow healthy now v = Normal tt v1 /\
             ctx v1 = ctx v ++ [ClearRect 0 0 (width v) (height v)] /\
             timer v1 = None /\ x v1 = -1 /\ y v1 = baseLine v /\
             empty v1 /\ clearScreen v1 = true).
  { unfold drawNow, bind, get. rewrite Hq. cbn [drawNowLoop].
    unfold bind, get. rewrite Hp, Hc.
    apply Z.leb_le in Hlate. rewrite Hlate.
    unfold clearView, pause, stopTimer, drawBackgroundGrid, call, healthy,
      bind, get, modify, ret.
    cbn [timer set_ctx set_x set_y set_clearScreen baseLine].
    unfold empty, hasPoints.
    unfold hasPoints in Hp.
    destruct (timer v) eqn:Ht; eexists; (split; [reflexivity|]); cbn;
      rewrite ?Hq, ?Hp, ?Ht; repeat split; reflexivity. }
  destruct Hrun as (v1 & Hv1 & Hctx & Htimer & Hx & Hy & He & Hcl).
  cbv zeta. rewrite Hv1. cbn [final returned].
  repeat split; try assumption.
  induction later as [|t later IH]; [reflexivity|].
  cbn [fold_left]. rewrite drawNow_when_cleared by assumption. exact IH.
Qed.

Lemma idle_timeout_clears_once_witness :
  let v := ticks healthy [50]%Z
             (final (push 10 [512; 520] (final (new healthy 300 200)))) in
  ctx (final (drawNow healthy 2010 v)) = ctx v ++ [ClearRect 0 0 300 200] /\
  timer (final (drawNow healthy 2010 v)) = None.
Proof.
  intros v.
  assert (H := @idle_timeout_clears_once v 2010%Z []).
  cbv zeta in H. split; apply H.
  all: try (split; reflexivity); try reflexivity.
  all: apply Z.leb_le; reflexivity.
Defined.

End EcgFacts.

Unset Implicit Arguments.

Module BinaryFacts.

Import BinaryHelper.
Local Open Scope Z_scope.

Lemma ToInt32_range (z : Z) : - 2 ^ 31 <= ToInt32 z < 2 ^ 31.
Proof. unfold ToInt32. pose proof (Z.mod_pos_bound (z + 2 ^ 31) (2 ^ 32)). lia. Qed.

Lemma ToInt32_small (z : Z) : - 2 ^ 31 <= z < 2 ^ 31 -> ToInt32 z = z.
Proof. intros H. unfold ToInt32. rewrite Z.mod_small; lia. Qed.

Lemma ToInt32_idem (z : Z) : ToInt32 (ToInt32 z) = ToInt32 z.
Proof. apply ToInt32_small, ToInt32_range. Qed.

(** [ToInt32] depends on its argument modulo [2^32] only. *)
Lemma ToInt32_eqm (a b : Z) : a mod 2 ^ 32 = b mod 2 ^ 32 -> ToInt32 a = ToInt32 b.
Proof.
  intros H. unfold ToInt32.
  rewrite <- (Zplus_mod_idemp_l a), <- (Zplus_mod_idemp_l b), H. reflexivity.
Qed.

Lemma ToInt32_mod (z : Z) : ToInt32 z mod 2 ^ 32 = z mod 2 ^ 32.
Proof.
  unfold ToInt32.
  rewrite <- Zminus_mod_idemp_l, Z.mod_mod by lia.
  rewrite Zminus_mod_idemp_l. f_equal. lia.
Qed.

(** [b & 0xFF] is the low byte. *)
Lemma and_255 (b : Z) : and b 255 = ToInt32 b mod 256.
Proof.
  unfold and. rewrite (ToInt32_small 255) by lia.
  change 255 with (Z.ones 8). rewrite Z.land_ones by lia. reflexivity.
Qed.

Lemma lor_low_byte (x b : Z) :
  x mod 256 = 0 -> 0 <= b < 256 -> Z.lor x b = x + b.
Proof.
  intros Hx Hb. rewrite <- (Z.add_lor_land x b).
  enough (E : Z.land x b = 0) by (rewrite E; lia).
  apply Z.bits_inj'. intros i Hi. rewrite Z.land_spec, Z.bits_0.
  destruct (Z.lt_ge_cases i 8) as [Hlt|Hge].
  - replace x with (Z.shiftl (x / 256) 8).
    + rewrite Z.shiftl_spec_low by lia. reflexivity.
    + rewrite Z.shiftl_mul_pow2 by lia. change (2 ^ 8) with 256.
      pose proof (Z.div_mod x 256). lia.
  - replace b with (b mod 2 ^ 8) by (apply Z.mod_small; lia).
    rewrite Z.mod_pow2_bits_high by lia. apply andb_false_r.
Qed.

(** One turn of the decoding loops, as arithmetic. *)
Lemma push_byte (value b : Z) :
  0 <= b < 256 ->
  or (shl value 8) b = ToInt32 (256 * value + b).
Proof.
  intros Hb. unfold or, shl. change (8 mod 32) with 8.
  rewrite ToInt32_idem, (ToInt32_small b) by lia.
  rewrite Z.shiftl_mul_pow2 by lia. change (2 ^ 8) with 256.
  assert (Hm : ToInt32 (ToInt32 value * 256) mod 256 = 0).
  { unfold ToInt32. generalize ((value + 2 ^ 31) mod 2 ^ 32 - 2 ^ 31). intros v.
    change (2 ^ 31) with 2147483648. change (2 ^ 32) with 4294967296.
    pose proof (Z.div_mod (v * 256 + 2147483648) 4294967296).
    pose proof (Z.mod_pos_bound (v * 256 + 2147483648) 4294967296).
    apply Z.mod_divide; [lia|].
    exists (v - 16777216 * ((v * 256 + 2147483648) / 4294967296)). lia. }
  rewrite lor_low_byte by (assumption || lia).
  assert (Hr := ToInt32_range (ToInt32 value * 256)).
  assert (Hlt : ToInt32 (ToInt32 value * 256) + b < 2 ^ 31).
  { pose proof (Z.div_mod (ToInt32 (ToInt32 value * 256)) 256).
    change (2 ^ 31) with 2147483648 in *. lia. }
  rewrite <- (ToInt32_small (ToInt32 (ToInt32 value * 256) + b)) by lia.
  apply ToInt32_eqm.
  rewrite <- Zplus_mod_idemp_l, ToInt32_mod, Zplus_mod_idemp_l.
  rewrite <- (Zplus_mod_idemp_l (ToInt32 value * 256)), <- Zmult_mod_idemp_l.
  rewrite ToInt32_mod, Zmult_mod_idemp_l, Zplus_mod_idemp_l.
  f_equal. lia.
Qed.

Lemma push_byte_int32 (value b : Z) :
  0 <= b < 256 ->
  or (shl (ToInt32 value) 8) b = ToInt32 (256 * value + b).
Proof.
  intros Hb. rewrite push_byte by lia.
  apply ToInt32_eqm.
  rewrite <- Zplus_mod_idemp_l, <- Zmult_mod_idemp_r, ToInt32_mod.
  rewrite Zmult_mod_idemp_r, Zplus_mod_idemp_l. reflexivity.
Qed.

Lemma take_byte (value b : Z) :
  isByte b -> take (ToInt32 value) b = ToInt32 (256 * value + b).
Proof.
  intros Hb. unfold take, isByte in *. rewrite and_255, (ToInt32_small b) by lia.
  rewrite Z.mod_small by lia. apply push_byte_int32. lia.
Qed.

Lemma takeNot_byte (value b : Z) :
  isByte b -> takeNot (ToInt32 value) b = ToInt32 (256 * value + (255 - b)).
Proof.
  intros Hb. unfold takeNot, isByte in *.
  assert (E : and (not b) 255 = 255 - b).
  { rewrite and_255. unfold not. rewrite (ToInt32_small b) by lia.
    unfold Z.lnot. rewrite ToInt32_small by lia.
    replace (Z.pred (- b)) with ((255 - b) + (-1) * 256) by lia.
    rewrite Z.mod_add by lia. apply Z.mod_small. lia. }
  rewrite E. apply push_byte_int32. lia.
Qed.

Lemma fold_left_cons (A B : Type) (f : A -> B -> A) (b : B) (l : list B) (a : A) :
  fold_left f (b :: l) a = fold_left f l (f a b).
Proof. reflexivity. Qed.

Lemma fold_take (bytes : list Z) :
  Forall isByte bytes ->
  forall value : Z,
    fold_left take bytes (ToInt32 value)
    = ToInt32 (fold_left (fun v b => 256 * v + b) bytes value).
Proof.
  induction 1 as [|b bytes Hb _ IH]; intros value.
  - reflexivity.
  - rewrite !fold_left_cons, take_byte by assumption. apply IH.
Qed.

Lemma fold_takeNot (bytes : list Z) :
  Forall isByte bytes ->
  forall value : Z,
    fold_left takeNot bytes (ToInt32 value)
    = ToInt32 (fold_left (fun v b => 256 * v + (255 - b)) bytes value).
Proof.
  induction 1 as [|b bytes Hb _ IH]; intros value.
  - reflexivity.
  - rewrite !fold_left_cons, takeNot_byte by assumption. apply IH.
Qed.

(** The sign test [((b & 0b10000000) >> 7) == 1] on a byte. *)
Lemma sign_test (b : Z) :
  isByte b -> (shr (and b 128) 7 =? 1) = (128 <=? b).
Proof.
  intros Hb. unfold isByte in Hb.
  assert (Hall : forallb (fun k => Bool.eqb
                                     (shr (and (Z.of_nat k) 128) 7 =? 1)
                                     (128 <=? Z.of_nat k)) (seq 0 256) = true)
    by (vm_compute; reflexivity).
  rewrite forallb_forall in Hall. specialize (Hall (Z.to_nat b)).
  rewrite Z2Nat.id in Hall by lia. apply eqb_prop, Hall.
  apply in_seq. lia.
Qed.

(** X17.  Decoding unsigned, for bytes in [0, 255] and any length: the
    loop keeps 32 bits, so the result is the big-endian value of the bytes
    reduced by [ToInt32].  Up to three bytes it is the value itself; four
    bytes with the top bit set decode to a negative number. *)
Theorem bytesToNumber_unsigned_keeps_32_bits (bytes : list Z) :
  Forall isByte bytes ->
  bytesToNumber bytes true false = ToInt32 (unsignedValue bytes) /\
  bytesToNumber bytes false false = ToInt32 (unsignedValue (rev bytes)) /\
  ((List.length bytes <= 3)%nat ->
   bytesToNumber bytes true false = unsignedValue bytes) /\
  (forall b0 b1 b2 b3 : Z,
     bytes = [b0; b1; b2; b3] ->
     128 <= b0 ->
     bytesToNumber bytes true false = unsignedValue bytes - 2 ^ 32).
Proof.
  intros Hb. unfold bytesToNumber. cbn [andb].
  assert (Hbig : fold_left take bytes 0 = ToInt32 (unsignedValue bytes)).
  { change 0 with (ToInt32 0) at 1. apply fold_take, Hb. }
  assert (Hlittle : fold_left take (rev bytes) 0
                    = ToInt32 (unsignedValue (rev bytes))).
  { change 0 with (ToInt32 0) at 1. apply fold_take, Forall_rev, Hb. }
  split; [exact Hbig|]. split; [exact Hlittle|]. split.
  - intros Hlen. rewrite Hbig. apply ToInt32_small.
    unfold unsignedValue, isByte in *.
    destruct bytes as [|b0 [|b1 [|b2 [|b3 rest]]]]; cbn [fold_left];
      [ | | | | cbn in Hlen; lia];
      repeat match goal with
             | H : Forall _ (_ :: _) |- _ => inversion H; subst; clear H
             end;
      change (2 ^ 31) with 2147483648; lia.
  - intros b0 b1 b2 b3 -> H0. rewrite Hbig. unfold unsignedValue, isByte in *.
    cbn [fold_left].
    repeat match goal with
           | H : Forall _ (_ :: _) |- _ => inversion H; subst; clear H
           end.
    unfold ToInt32. change (2 ^ 31) with 2147483648.
    change (2 ^ 32) with 4294967296.
    replace (256 * (256 * (256 * (256 * 0 + b0) + b1) + b2) + b3 + 2147483648)
      with ((256 * (256 * (256 * b0 + b1) + b2) + b3 - 2147483648)
            + 1 * 4294967296) by lia.
    rewrite Z.mod_add by lia. rewrite Z.mod_small by lia. lia.
Qed.

Lemma bytesToNumber_unsigned_keeps_32_bits_witness :
  bytesToNumber [255; 255; 255; 254] true false = -2 /\
  bytesToNumber [1; 2; 3] true false = 66051.
Proof.
  destruct (bytesToNumber_unsigned_keeps_32_bits [255; 255; 255; 254])
    as (_ & _ & _ & H4); [repeat constructor; unfold isByte; lia|].
  destruct (bytesToNumber_unsigned_keeps_32_bits [1; 2; 3])
    as (_ & _ & H3 & _); [repeat constructor; unfold isByte; lia|].
  split.
  - rewrite (H4 255 255 255 254 eq_refl); [reflexivity | lia].
  - rewrite H3; [reflexivity | cbn; lia].
Defined.

Lemma and_255_isByte (a : Z) : isByte (and a 255).
Proof.
  rewrite and_255. unfold isByte. pose proof (Z.mod_pos_bound (ToInt32 a) 256). lia.
Qed.

Lemma numberToBytes_shape_helper (num bit : Z) (bigEndian : bool) :
  List.length (numberToBytes num bit bigEndian) = Z.to_nat (bit / 8) /\
  Forall isByte (numberToBytes num bit bigEndian).
Proof.
  unfold numberToBytes. generalize (Z.to_nat (bit / 8)) 0.
  intros count. induction count as [|count IH]; intros i; cbn [numberToBytesFrom].
  - split; [reflexivity | constructor].
  - destruct (IH (i + 1)) as [Hl Hf]. split; [cbn; rewrite Hl; reflexivity|].
    constructor; [apply and_255_isByte | exact Hf].
Qed.

(** X18.  [numberToBytes] yields [floor(bit / 8)] bytes, each in
    [0, 255], whatever the number and the byte order; none when
    [bit < 8]. *)
Theorem numberToBytes_shape (num bit : Z) (bigEndian : bool) :
  List.length (numberToBytes num bit bigEndian) = Z.to_nat (bit / 8) /\
  Forall isByte (numberToBytes num bit bigEndian) /\
  (bit < 8 -> numberToBytes num bit bigEndian = []).
Proof.
  unfold numberToBytes.
  assert (H : forall (count : nat) (i : Z),
             List.length (numberToBytesFrom num bit bigEndian count i) = count /\
             Forall isByte (numberToBytesFrom num bit bigEndian count i)).
  { induction count as [|count IH]; intros i; cbn [numberToBytesFrom].
    - split; [reflexivity | constructor].
    - destruct (IH (i + 1)) as [Hl Hf]. split; [cbn; rewrite Hl; reflexivity|].
      constructor; [apply and_255_isByte | exact Hf]. }
  destruct (H (Z.to_nat (bit / 8)) 0) as [Hl Hf].
  split; [exact Hl|]. split; [exact Hf|].
  intros Hlt. replace (Z.to_nat (bit / 8)) with 0%nat; [reflexivity|].
  assert (bit / 8 <= 0); [|lia].
  pose proof (Z.div_mod bit 8). pose proof (Z.mod_pos_bound bit 8). lia.
Qed.

Lemma numberToBytes_shape_witness : numberToBytes 5 7 true = [].
Proof.
  apply (proj2 (proj2 (numberToBytes_shape 5 7 true))). lia.
Defined.

Lemma little_snoc (num bit : Z) (count : nat) :
  forall i : Z,
    numberToBytesFrom num bit false (S count) i
    = numberToBytesFrom num bit false count i
      ++ [and (shr num ((i + Z.of_nat count) * 8)) 255].
Proof.
  induction count as [|count IH]; intros i.
  - cbn. repeat f_equal. lia.
  - change (numberToBytesFrom num bit false (S (S count)) i)
      with (and (shr num (i * 8)) 255
            :: numberToBytesFrom num bit false (S count) (i + 1)).
    rewrite IH. cbn [numberToBytesFrom app].
    replace (i + Z.of_nat (S count)) with (i + 1 + Z.of_nat count) by lia.
    reflexivity.
Qed.

Lemma big_is_rev_little (num : Z) (count : nat) :
  forall i : Z,
    numberToBytesFrom num (8 * (i + Z.of_nat count)) true count i
    = rev (numberToBytesFrom num (8 * (i + Z.of_nat count)) false count 0).
Proof.
  induction count as [|count IH]; intros i; [reflexivity|].
  rewrite little_snoc, rev_app_distr. cbn [rev app numberToBytesFrom].
  f_equal.
  - f_equal. f_equal. lia.
  - replace (8 * (i + Z.of_nat (S count))) with (8 * ((i + 1) + Z.of_nat count))
      by lia.
    rewrite IH. reflexivity.
Qed.

Lemma last_is_head_of_rev (bytes : list Z) : last bytes 0 = nth 0 (rev bytes) 0.
Proof.
  destruct bytes as [|b bytes] using rev_ind; [reflexivity|].
  rewrite last_last, rev_app_distr. reflexivity.
Qed.

Lemma decode_little (bytes : list Z) (signed : bool) :
  bytesToNumber bytes false signed = bytesToNumber (rev bytes) true signed.
Proof. unfold bytesToNumber. rewrite last_is_head_of_rev. reflexivity. Qed.

Lemma encode_little (num : Z) (k : nat) :
  numberToBytes num (8 * Z.of_nat k) false
  = rev (numberToBytes num (8 * Z.of_nat k) true).
Proof.
  unfold numberToBytes.
  replace (Z.to_nat (8 * Z.of_nat k / 8)) with k.
  - pose proof (big_is_rev_little num k 0) as H.
    rewrite Z.add_0_l in H. rewrite H, rev_involutive. reflexivity.
  - rewrite Z.mul_comm, Z.div_mul by lia. lia.
Qed.

(** X19.  Byte order is byte reversal: decoding little-endian is decoding
    the reversed bytes big-endian, sign test included, for every array;
    and for a width of whole bytes the little-endian encoding is the
    big-endian one reversed. *)
Theorem endianness_is_byte_reversal :
  (forall (bytes : list Z) (signed : bool),
     bytesToNumber bytes false signed = bytesToNumber (rev bytes) true signed) /\
  (forall (num : Z) (k : nat),
     numberToBytes num (8 * Z.of_nat k) false
     = rev (numberToBytes num (8 * Z.of_nat k) true)).
Proof. split; [exact decode_little | exact encode_little]. Qed.

(** X20.  Asked for 64 bits, [numberToBytes] repeats the 32-bit encoding:
    the shift counts 56, 48, 40 and 32 are taken modulo 32, so the upper
    four bytes are the lower four again, not the upper half of the
    number. *)
Theorem numberToBytes_64_repeats_low_half (num : Z) (bigEndian : bool) :
  numberToBytes num 64 bigEndian
  = numberToBytes num 32 bigEndian ++ numberToBytes num 32 bigEndian.
Proof. destruct bigEndian; reflexivity. Qed.

Lemma number_byte (num s : Z) :
  0 <= s < 32 -> and (shr num s) 255 = (ToInt32 num / 2 ^ s) mod 256.
Proof.
  intros Hs. rewrite and_255. unfold shr. rewrite (Z.mod_small s 32) by lia.
  rewrite Z.shiftr_div_pow2 by lia. f_equal. apply ToInt32_small.
  pose proof (ToInt32_range num) as Hr.
  assert (Hp : 0 < 2 ^ s) by (apply Z.pow_pos_nonneg; lia).
  split.
  - apply Z.div_le_lower_bound; [exact Hp|]. nia.
  - apply Z.div_lt_upper_bound; [exact Hp|]. nia.
Qed.

(** The big-endian encodings of whole-byte widths up to 32 bits, as the
    base-256 digits of [ToInt32 num]. *)
Lemma encode_big (num bit : Z) :
  bit = 8 \/ bit = 16 \/ bit = 24 \/ bit = 32 ->
  numberToBytes num bit true
  = map (fun s => (ToInt32 num / 2 ^ s) mod 256)
      (match bit with
       | 8 => [0]
       | 16 => [8; 0]
       | 24 => [16; 8; 0]
       | _ => [24; 16; 8; 0]
       end).
Proof.
  intros [-> | [-> | [-> | ->]]]; cbn [map];
    rewrite <- !number_byte by lia; reflexivity.
Qed.

(** Decoding signed, big-endian, bytes in range. *)
Lemma decode_signed_big (bytes : list Z) :
  Forall isByte bytes ->
  bytesToNumber bytes true true
  = if 128 <=? nth 0 bytes 0
    then - ToInt32 (fold_left (fun v b => 256 * v + (255 - b)) bytes 0) - 1
    else ToInt32 (unsignedValue bytes).
Proof.
  intros Hb. unfold bytesToNumber. cbn [andb].
  assert (H0 : isByte (nth 0 bytes 0)).
  { destruct Hb; [unfold isByte; cbn; lia | assumption]. }
  rewrite (sign_test _ H0). destruct (128 <=? nth 0 bytes 0).
  - change 0 with (ToInt32 0) at 1. rewrite fold_takeNot by assumption.
    reflexivity.
  - change 0 with (ToInt32 0) at 1. rewrite fold_take by assumption.
    reflexivity.
Qed.

Lemma digits_are_bytes (N : Z) (shifts : list Z) :
  Forall isByte (map (fun s => (N / 2 ^ s) mod 256) shifts).
Proof.
  apply Forall_map, Forall_forall. intros s _. unfold isByte.
  pose proof (Z.mod_pos_bound (N / 2 ^ s) 256). lia.
Qed.

Ltac pow_consts :=
  change (2 ^ 0) with 1 in *; change (2 ^ 7) with 128 in *;
  change (2 ^ 8) with 256 in *; change (2 ^ 15) with 32768 in *;
  change (2 ^ 16) with 65536 in *; change (2 ^ 23) with 8388608 in *;
  change (2 ^ 24) with 16777216 in *; change (2 ^ 31) with 2147483648 in *;
  change (2 ^ 32) with 4294967296 in *.

Lemma round_trip_signed_big (num bit : Z) :
  bit = 8 \/ bit = 16 \/ bit = 24 \/ bit = 32 ->
  - 2 ^ (bit - 1) <= num < 2 ^ (bit - 1) ->
  bytesToNumber (numberToBytes num bit true) true true = num.
Proof.
  intros Hbit Hrange. rewrite (encode_big num bit Hbit).
  rewrite decode_signed_big by apply digits_are_bytes.
  assert (HN : ToInt32 num = num).
  { apply ToInt32_small.
    destruct Hbit as [-> | [-> | [-> | ->]]]; cbn [Z.sub Z.add Z.opp Z.pos_sub Z.succ_double Z.pred_double Z.double Pos.pred_double] in Hrange;
      pow_consts; lia. }
  rewrite HN. unfold unsignedValue.
  destruct Hbit as [-> | [-> | [-> | ->]]]; cbn [map nth fold_left];
    change (8 - 1) with 7 in Hrange; change (16 - 1) with 15 in Hrange;
    change (24 - 1) with 23 in Hrange; change (32 - 1) with 31 in Hrange;
    unfold ToInt32; pow_consts;
    match goal with
    | |- (if ?c then _ else _) = _ => destruct c eqn:E
    end;
    [apply Z.leb_le in E | apply Z.leb_gt in E
    |apply Z.leb_le in E | apply Z.leb_gt in E
    |apply Z.leb_le in E | apply Z.leb_gt in E
    |apply Z.leb_le in E | apply Z.leb_gt in E];
    Z.div_mod_to_equations; lia.
Qed.

Lemma decode_unsigned_big (bytes : list Z) :
  Forall isByte bytes ->
  bytesToNumber bytes true false = ToInt32 (unsignedValue bytes).
Proof.
  intros Hb. unfold bytesToNumber. cbn [andb].
  change 0 with (ToInt32 0) at 1. apply fold_take, Hb.
Qed.

Lemma round_trip_unsigned_big (num bit : Z) :
  bit = 8 \/ bit = 16 \/ bit = 24 \/ bit = 32 ->
  bytesToNumber (numberToBytes num bit true) true false
  = ToInt32 (ToInt32 num mod 2 ^ bit).
Proof.
  intros Hbit. rewrite (encode_big num bit Hbit).
  rewrite decode_unsigned_big by apply digits_are_bytes.
  f_equal. unfold unsignedValue. generalize (ToInt32 num). intros N.
  destruct Hbit as [-> | [-> | [-> | ->]]]; cbn [map fold_left];
    pow_consts; Z.div_mod_to_equations; lia.
Qed.

Lemma whole_bytes (bit : Z) :
  bit = 8 \/ bit = 16 \/ bit = 24 \/ bit = 32 ->
  exists k : nat, bit = 8 * Z.of_nat k.
Proof.
  intros [-> | [-> | [-> | ->]]];
    [exists 1%nat | exists 2%nat | exists 3%nat | exists 4%nat]; reflexivity.
Qed.

(** Little-endian round trips are the big-endian ones. *)
Lemma round_trip_any_order (num bit : Z) (bigEndian signed : bool) :
  bit = 8 \/ bit = 16 \/ bit = 24 \/ bit = 32 ->
  bytesToNumber (numberToBytes num bit bigEndian) bigEndian signed
  = bytesToNumber (numberToBytes num bit true) true signed.
Proof.
  intros Hbit. destruct bigEndian; [reflexivity|].
  destruct (whole_bytes bit Hbit) as [k ->].
  rewrite encode_little, decode_little, rev_involutive. reflexivity.
Qed.

(** X21.  Signed round trip.  For a width of 8, 16, 24 or 32 bits and a
    number in the signed range of that width, decoding the encoding as
    signed gives the number back, in either byte order. *)
Theorem signed_round_trip (num bit : Z) (bigEndian : bool) :
  bit = 8 \/ bit = 16 \/ bit = 24 \/ bit = 32 ->
  - 2 ^ (bit - 1) <= num < 2 ^ (bit - 1) ->
  bytesToNumber (numberToBytes num bit bigEndian) bigEndian true = num.
Proof.
  intros Hbit Hrange. rewrite round_trip_any_order by assumption.
  apply round_trip_signed_big; assumption.
Qed.

Lemma signed_round_trip_witness :
  bytesToNumber (numberToBytes (-12345) 16 false) false true = -12345.
Proof.
  apply (signed_round_trip (-12345) 16 false).
  - right. left. reflexivity.
  - cbn. lia.
Defined.

(** X22.  Unsigned round trip.  For a width of 8, 16 or 24 bits and a
    number in [0, 2^bit), decoding the encoding as unsigned gives the
    number back, in either byte order.  For 32 bits the decoder returns
    the signed reading [ToInt32 num] of any number: a number from
    [2^31] up comes back lowered by [2^32]. *)
Theorem unsigned_round_trip (num bit : Z) (bigEndian : bool) :
  (bit = 8 \/ bit = 16 \/ bit = 24 ->
   0 <= num < 2 ^ bit ->
   bytesToNumber (numberToBytes num bit bigEndian) bigEndian false = num) /\
  bytesToNumber (numberToBytes num 32 bigEndian) bigEndian false = ToInt32 num /\
  (2 ^ 31 <= num < 2 ^ 32 ->
   bytesToNumber (numberToBytes num 32 bigEndian) bigEndian false = num - 2 ^ 32).
Proof.
  assert (H32 : bytesToNumber (numberToBytes num 32 bigEndian) bigEndian false
                = ToInt32 num).
  { rewrite round_trip_any_order by tauto.
    rewrite round_trip_unsigned_big by tauto.
    apply ToInt32_eqm. rewrite Z.mod_mod by (pow_consts; lia).
    apply ToInt32_mod. }
  split; [|split].
  - intros Hbit Hrange.
    assert (Hbit' : bit = 8 \/ bit = 16 \/ bit = 24 \/ bit = 32) by tauto.
    rewrite round_trip_any_order by assumption.
    rewrite round_trip_unsigned_big by assumption.
    assert (Hlt : num < 2 ^ 24).
    { destruct Hbit as [-> | [-> | ->]]; pow_consts; lia. }
    pow_consts. rewrite (ToInt32_small num) by (pow_consts; lia).
    rewrite Z.mod_small by lia. apply ToInt32_small. pow_consts. lia.
  - exact H32.
  - intros Hrange. rewrite H32. unfold ToInt32. pow_consts.
    replace (num + 2147483648) with ((num - 2147483648) + 1 * 4294967296) by lia.
    rewrite Z.mod_add by lia. rewrite Z.mod_small by lia. lia.
Qed.

Lemma unsigned_round_trip_witness :
  bytesToNumber (numberToBytes 54321 16 true) true false = 54321 /\
  bytesToNumber (numberToBytes 4294967295 32 true) true false = -1.
Proof.
  split.
  - apply (proj1 (unsigned_round_trip 54321 16 true)).
    + right. left. reflexivity.
    + cbn. lia.
  - apply (proj2 (proj2 (unsigned_round_trip 4294967295 32 true))).
    cbn. lia.
Defined.

(** ** Hexadecimal text *)

(** A check that holds of each of the 256 bytes holds of every byte. *)
Lemma byte_cases (P : Z -> bool) :
  forallb (fun k => P (Z.of_nat k)) (seq 0 256) = true ->
  forall b : Z, isByte b -> P b = true.
Proof.
  intros Hall b Hb. unfold isByte in Hb. rewrite forallb_forall in Hall.
  specialize (Hall (Z.to_nat b)). rewrite Z2Nat.id in Hall by lia.
  apply Hall, in_seq. lia.
Qed.

Lemma concat_cons (x : string) (xs : list string) :
  String.concat "" (x :: xs) = (x ++ String.concat "" xs)%string.
Proof.
  destruct xs as [|y ys]; cbn [String.concat].
  - induction x as [|c x IH]; [reflexivity|]. cbn. rewrite <- IH. reflexivity.
  - reflexivity.
Qed.

Lemma append_assoc (a b c : string) :
  ((a ++ b) ++ c = a ++ (b ++ c))%string.
Proof. induction a as [|x a IH]; [reflexivity|]. cbn. rewrite IH. reflexivity. Qed.

Lemma concat_app (l1 l2 : list string) :
  String.concat "" (l1 ++ l2)
  = (String.concat "" l1 ++ String.concat "" l2)%string.
Proof.
  induction l1 as [|x l1 IH]; [reflexivity|].
  cbn [app]. rewrite !concat_cons, IH, append_assoc. reflexivity.
Qed.

Lemma parts_are_a_pair (b : Z) :
  isByte b -> String.concat "" (hexParts b false) = pair_of b false.
Proof.
  intros Hb. apply String.eqb_eq.
  apply (byte_cases (fun b => String.eqb (String.concat "" (hexParts b false))
                                (pair_of b false))); [|exact Hb].
  vm_compute. reflexivity.
Qed.

Lemma pair_parses (b : Z) (upperCase : bool) :
  isByte b -> parseInt16 (pair_of b upperCase) = Some b.
Proof.
  intros Hb.
  assert (H : (match parseInt16 (pair_of b upperCase) with
               | Some v => v =? b
               | None => false
               end) = true).
  { apply (byte_cases (fun b => match parseInt16 (pair_of b upperCase) with
                                | Some v => v =? b
                                | None => false
                                end)); [|exact Hb].
    destruct upperCase; vm_compute; reflexivity. }
  destruct (parseInt16 (pair_of b upperCase)); [|discriminate].
  apply Z.eqb_eq in H. congruence.
Qed.

Lemma toUpperCase_pairs (bytes : list Z) :
  toUpperCase (pairs_of bytes false) = pairs_of bytes true.
Proof.
  induction bytes as [|b bytes IH]; [reflexivity|].
  cbn [pairs_of pair_of append toUpperCase]. rewrite IH. reflexivity.
Qed.

Lemma bytesToHex_pairs (bytes : list Z) (upperCase : bool) :
  Forall isByte bytes ->
  bytesToHex bytes false upperCase = pairs_of bytes upperCase.
Proof.
  intros Hb. unfold bytesToHex.
  assert (H : String.concat "" (flat_map (fun b => hexParts b false) bytes)
              = pairs_of bytes false).
  { induction Hb as [|b bytes Hb _ IH]; [reflexivity|].
    cbn [flat_map pairs_of]. rewrite concat_app, IH, parts_are_a_pair by exact Hb.
    reflexivity. }
  rewrite H. destruct upperCase; [apply toUpperCase_pairs | reflexivity].
Qed.

Lemma length_pairs (bytes : list Z) (upperCase : bool) :
  String.length (pairs_of bytes upperCase) = (2 * List.length bytes)%nat.
Proof.
  induction bytes as [|b bytes IH]; [reflexivity|].
  cbn [pairs_of pair_of append String.length List.length]. rewrite IH. lia.
Qed.

Lemma substring_0_0 (s : string) : substring 0 0 s = ""%string.
Proof. destruct s; reflexivity. Qed.

Lemma hexToBytesFrom_skip (c1 c2 : ascii) (rest : string) (count : nat) :
  forall pos : nat,
    hexToBytesFrom (String c1 (String c2 rest)) count (pos + 2)
    = hexToBytesFrom rest count pos.
Proof.
  induction count as [|count IH]; intros pos; [reflexivity|].
  cbn [hexToBytesFrom]. rewrite IH. f_equal.
  replace (pos + 2)%nat with (S (S pos)) by lia. reflexivity.
Qed.

Lemma hexToBytesFrom_pairs (bytes : list Z) (upperCase : bool) :
  Forall isByte bytes ->
  hexToBytesFrom (pairs_of bytes upperCase) (List.length bytes) 0
  = map Some bytes.
Proof.
  induction 1 as [|b bytes Hb _ IH]; [reflexivity|].
  cbn [pairs_of List.length hexToBytesFrom map].
  change (pair_of b upperCase ++ pairs_of bytes upperCase)%string
    with (String (if upperCase then upperChar (digitChar (b / 16))
                  else digitChar (b / 16))
            (String (if upperCase then upperChar (digitChar (b mod 16))
                     else digitChar (b mod 16))
               (pairs_of bytes upperCase))).
  rewrite (hexToBytesFrom_skip _ _ _ _ 0%nat), IH. f_equal.
  cbn [substring]. rewrite substring_0_0. exact (pair_parses b upperCase Hb).
Qed.

Lemma hexToBytes_bytesToHex (bytes : list Z) (upperCase : bool) :
  Forall isByte bytes ->
  String.length (bytesToHex bytes false upperCase) = (2 * List.length bytes)%nat /\
  hexToBytes (bytesToHex bytes false upperCase) = Returns (map Some bytes).
Proof.
  intros Hb. rewrite bytesToHex_pairs by exact Hb.
  pose proof (length_pairs bytes upperCase) as Hlen.
  split; [exact Hlen|]. unfold hexToBytes. rewrite Hlen.
  replace ((2 * List.length bytes) mod 2)%nat with 0%nat
    by (symmetry; rewrite Nat.mul_comm; apply Nat.Div0.mod_mul).
  replace ((2 * List.length bytes) / 2)%nat with (List.length bytes)
    by (symmetry; rewrite Nat.mul_comm; apply Nat.div_mul; lia).
  cbn [Nat.eqb negb]. f_equal. apply hexToBytesFrom_pairs, Hb.
Qed.

(** X23.  Hexadecimal round trip.  For bytes in [0, 255], with [trim]
    off and in either letter case, [bytesToHex] writes two characters a
    byte and [hexToBytes] reads the bytes back. *)
Theorem hex_round_trip (bytes : list Z) (upperCase : bool) :
  Forall isByte bytes ->
  String.length (bytesToHex bytes false upperCase) = (2 * List.length bytes)%nat /\
  hexToBytes (bytesToHex bytes false upperCase) = Returns (map Some bytes).
Proof. exact (hexToBytes_bytesToHex bytes upperCase). Qed.

Lemma hex_round_trip_witness :
  hexToBytes (bytesToHex [0; 15; 16; 255; 171] false true)
  = Returns (map Some [0; 15; 16; 255; 171]).
Proof.
  apply (hex_round_trip [0; 15; 16; 255; 171] true).
  repeat constructor; unfold isByte; lia.
Defined.

Lemma hexToBytesFrom_length (hex : string) (count : nat) :
  forall pos : nat, List.length (hexToBytesFrom hex count pos) = count.
Proof.
  induction count as [|count IH]; intros pos; [reflexivity|].
  cbn [hexToBytesFrom List.length]. rewrite IH. reflexivity.
Qed.

(** X24.  [hexToBytes] throws exactly when the text has an odd length.
    It never looks at the characters to decide: every text of even
    length is accepted and gives one entry for each two characters. *)
Theorem hexToBytes_checks_length_only (hex : string) :
  (hexToBytes hex = ThrowsNotHex <-> (String.length hex mod 2 = 1)%nat) /\
  (forall bytes : list (option Z),
     hexToBytes hex = Returns bytes ->
     (2 * List.length bytes = String.length hex)%nat).
Proof.
  unfold hexToBytes.
  pose proof (Nat.mod_upper_bound (String.length hex) 2) as Hm.
  pose proof (Nat.div_mod_eq (String.length hex) 2) as Hd.
  set (count := (String.length hex / 2)%nat) in *. clearbody count.
  destruct (String.length hex mod 2)%nat as [|[|r]] eqn:E; cbn [Nat.eqb negb].
  - split; [split; [discriminate | lia]|].
    intros bytes H. injection H as <-. rewrite hexToBytesFrom_length. lia.
  - split; [split; [reflexivity | reflexivity]|]. intros bytes H. discriminate.
  - lia.
Qed.

Lemma hexToBytes_checks_length_only_witness :
  hexToBytes "abc" = ThrowsNotHex /\
  (2 * List.length (hexToBytesFrom "zz1f" 2 0) = String.length "zz1f")%nat.
Proof.
  split.
  - apply (proj1 (hexToBytes_checks_length_only "abc")). reflexivity.
  - apply (proj2 (hexToBytes_checks_length_only "zz1f")). reflexivity.
Defined.

Lemma hexParts_trim (b : Z) :
  isByte b ->
  hexParts b true = if b =? 255 then [] else hexParts b false.
Proof.
  intros Hb.
  assert (Hff : (String.eqb (toString16 b) "FF" || String.eqb (toString16 b) "ff")
                = (b =? 255)).
  { apply eqb_prop.
    apply (byte_cases (fun b => Bool.eqb
                                  (String.eqb (toString16 b) "FF"
                                   || String.eqb (toString16 b) "ff")
                                  (b =? 255))); [|exact Hb].
    vm_compute. reflexivity. }
  unfold hexParts. cbn [andb]. rewrite Hff.
  destruct (b =? 255) eqn:E; [|reflexivity].
  apply Z.eqb_eq in E. subst b. reflexivity.
Qed.

(** X25.  With [trim] on, [bytesToHex] leaves out every byte [0xFF] and
    writes the others as with [trim] off. *)
Theorem bytesToHex_trim_drops_ff (bytes : list Z) (upperCase : bool) :
  Forall isByte bytes ->
  bytesToHex bytes true upperCase
  = bytesToHex (filter (fun b => negb (b =? 255)) bytes) false upperCase.
Proof.
  intros Hb.
  assert (E : flat_map (fun b => hexParts b true) bytes
              = flat_map (fun b => hexParts b false)
                  (filter (fun b => negb (b =? 255)) bytes)).
  { induction Hb as [|b bytes Hb _ IH]; [reflexivity|].
    cbn [flat_map filter]. rewrite IH, hexParts_trim by exact Hb.
    destruct (b =? 255); reflexivity. }
  unfold bytesToHex. rewrite E. reflexivity.
Qed.

Lemma bytesToHex_trim_drops_ff_witness :
  bytesToHex [1; 255; 160] true true = bytesToHex [1; 160] false true.
Proof.
  apply (bytesToHex_trim_drops_ff [1; 255; 160] true).
  repeat constructor; unfold isByte; lia.
Defined.

(** X26.  Through text and back.  For a width of 8, 16, 24 or 32 bits
    and a number in the signed range of that width, [hexToNumber] of
    [numberToHex], read as signed in the same byte order, returns the
    number, in either letter case. *)
Theorem number_hex_round_trip (num bit : Z) (bigEndian upperCase : bool) :
  bit = 8 \/ bit = 16 \/ bit = 24 \/ bit = 32 ->
  - 2 ^ (bit - 1) <= num < 2 ^ (bit - 1) ->
  hexToNumber (numberToHex num bit bigEndian upperCase) bigEndian true
  = Returns num.
Proof.
  intros Hbit Hrange. unfold hexToNumber, numberToHex.
  destruct (numberToBytes_shape_helper num bit bigEndian) as [_ Hb].
  destruct (hexToBytes_bytesToHex _ upperCase Hb) as [_ ->].
  rewrite map_map, map_id. f_equal.
  rewrite round_trip_any_order by assumption.
  apply round_trip_signed_big; assumption.
Qed.

Lemma number_hex_round_trip_witness :
  hexToNumber (numberToHex (-2) 16 true true) true true = Returns (-2).
Proof.
  apply (number_hex_round_trip (-2) 16 true true).
  - right. left. reflexivity.
  - cbn. lia.
Defined.

(** *** Text as code units *)

Lemma and_255_small (c : Z) : 0 <= c < 2 ^ 31 -> and c 255 = c mod 256.
Proof.
  intros Hc. rewrite and_255, ToInt32_small by lia. reflexivity.
Qed.

Lemma shr_8_small (c : Z) : 0 <= c < 2 ^ 31 -> shr c 8 = c / 256.
Proof.
  intros Hc. unfold shr. rewrite ToInt32_small by lia.
  change (8 mod 32) with 8. rewrite Z.shiftr_div_pow2 by lia. reflexivity.
Qed.

Lemma splitChar_unit (fuel : nat) (c : Z) :
  isCodeUnit c ->
  (2 <= fuel)%nat ->
  splitChar fuel c [] = Some (rev (unitBytes c)).
Proof.
  unfold isCodeUnit, unitBytes. intros Hc Hfuel.
  destruct fuel as [|[|fuel]]; [lia | lia |].
  cbn [splitChar app].
  rewrite (shr_8_small c), (and_255_small c) by lia.
  assert (Hq : 0 <= c / 256 < 256)
    by (split; [apply Z.div_pos; lia | apply Z.div_lt_upper_bound; lia]).
  destruct (c <? 256) eqn:E.
  - apply Z.ltb_lt in E. rewrite Z.div_small, Z.mod_small by lia. reflexivity.
  - apply Z.ltb_ge in E.
    assert (Hn : c / 256 <> 0) by (intros H0; apply Z.div_small_iff in H0; lia).
    apply Z.eqb_neq in Hn. rewrite Hn.
    rewrite (shr_8_small (c / 256)), (and_255_small (c / 256)) by lia.
    rewrite (Z.div_small (c / 256)), (Z.mod_small (c / 256)) by lia.
    reflexivity.
Qed.

Lemma strToBytesFrom_units (fuel : nat) (str : list Z) :
  Forall isCodeUnit str ->
  (2 <= fuel)%nat ->
  forall bytes : list Z,
    strToBytesFrom fuel str bytes = Bytes (bytes ++ flat_map unitBytes str).
Proof.
  intros Hstr Hfuel.
  induction Hstr as [|c str Hc _ IH]; intros bytes; cbn [strToBytesFrom flat_map].
  - rewrite app_nil_r. reflexivity.
  - rewrite splitChar_unit, rev_involutive, IH, app_assoc by assumption.
    reflexivity.
Qed.

(** X27.  [strToBytes] writes each code unit as its bytes, high byte
    first and without a leading zero byte: one byte for a unit below
    256, two for the others.  Two turns of the inner loop are enough
    for a code unit.  The length check comes first and a [maxLength] of
    0 switches it off. *)
Theorem strToBytes_writes_units_high_byte_first
  (fuel : nat) (str : list Z) (maxLength : Z) :
  Forall isCodeUnit str ->
  (2 <= fuel)%nat ->
  strToBytes fuel str maxLength
  = if (maxLength =? 0) || (Z.of_nat (List.length str) <=? maxLength)
    then Bytes (flat_map unitBytes str)
    else ThrowsTooLong.
Proof.
  intros Hstr Hfuel. unfold strToBytes.
  rewrite (strToBytesFrom_units fuel str Hstr Hfuel []). cbn [app].
  rewrite Z.ltb_antisym.
  destruct (maxLength =? 0), (Z.of_nat (List.length str) <=? maxLength);
    reflexivity.
Qed.

Lemma strToBytes_writes_units_high_byte_first_witness :
  strToBytes 2 [72; 20013; 0] 3 = Bytes [72; 78; 45; 0].
Proof.
  apply (strToBytes_writes_units_high_byte_first 2 [72; 20013; 0] 3).
  - repeat constructor; unfold isCodeUnit; lia.
  - lia.
Defined.

Lemma unitBytes_length (str : list Z) :
  (List.length str <= List.length (flat_map unitBytes str))%nat /\
  (Forall (fun c => c < 256) str <->
   List.length (flat_map unitBytes str) = List.length str).
Proof.
  induction str as [|c str [IHle IHiff]]; cbn [flat_map List.length].
  - split; [lia | split; [reflexivity | constructor]].
  - rewrite length_app. unfold unitBytes at 1 3.
    destruct (c <? 256) eqn:E; cbn [List.length].
    + apply Z.ltb_lt in E. split; [lia|]. split.
      * intros H. inversion H; subst.
        assert (Hl := proj1 IHiff ltac:(assumption)). lia.
      * intros H. constructor; [exact E | apply IHiff; lia].
    + apply Z.ltb_ge in E. split; [lia|]. split.
      * intros H. inversion H; subst. lia.
      * intros H. lia.
Qed.

(** X28.  [bytesToStr] undoes [strToBytes] exactly on the strings whose
    code units are all below 256: a unit from 256 on comes back as two
    units. *)
Theorem bytesToStr_undoes_strToBytes_below_256 (fuel : nat) (str : list Z) :
  Forall isCodeUnit str ->
  (2 <= fuel)%nat ->
  exists bytes : list Z,
    strToBytes fuel str 0 = Bytes bytes /\
    (bytesToStr bytes = str <-> Forall (fun c => c < 256) str).
Proof.
  intros Hstr Hfuel. exists (flat_map unitBytes str). split.
  - unfold strToBytes. cbn [Z.eqb negb andb].
    rewrite (strToBytesFrom_units fuel str Hstr Hfuel []). reflexivity.
  - split.
    + intros H. apply (unitBytes_length str).
      rewrite <- H at 2. unfold bytesToStr. rewrite length_map. reflexivity.
    + intros Hlow. unfold bytesToStr.
      induction Hstr as [|c str Hc Hstr IH]; [reflexivity|].
      inversion Hlow as [|? ? Hc256 Hrest]; subst.
      cbn [flat_map]. unfold unitBytes at 1.
      apply Z.ltb_lt in Hc256. rewrite Hc256. cbn [app map].
      rewrite IH by assumption. unfold fromCharCode, isCodeUnit in *.
      rewrite Z.mod_small by lia. reflexivity.
Qed.

Lemma bytesToStr_undoes_strToBytes_below_256_witness :
  exists bytes : list Z,
    strToBytes 2 [72; 233] 0 = Bytes bytes /\
    (bytesToStr bytes = [72; 233] <-> Forall (fun c => c < 256) [72; 233]).
Proof.
  apply (bytesToStr_undoes_strToBytes_below_256 2 [72; 233]).
  - repeat constructor; unfold isCodeUnit; lia.
  - lia.
Defined.

End BinaryFacts.
